(** * GFX_FUNCTIONS.c: the rasterizer of the weather station display

    A shallow embedding of the drawing primitives of GFX_FUNCTIONS.c
    (lines, rectangles, circles, rounded rectangles, filled triangles, the
    RGB565 colour interpolation and the gradient background) together with
    the properties the specification states about them, followed by the
    string parsers of ESP32_Wifi.c and the decoding of the sensor reply of
    AHT20.c.

    Conventions.
    - An [int16_t] is a [Z] in [-32768, 32767].  C evaluates every
      arithmetic expression on [int16_t] operands in [int] (32 bits on the
      target, no overflow is possible there for the expressions of this
      file) and converts back on assignment and on parameter passing; that
      conversion wraps modulo 2^16 and is written [wrap16].
    - The display back end (ST7735_DrawPixel, ST7735_FillRectangle) is the
      pixel sink: a drawing procedure denotes the sequence of sink calls it
      issues.
    - Loops take fuel.  [None] means the fuel ran out (or the C program has
      no defined behaviour); termination is proved separately. *)

From Stdlib Require Import ZArith List Lia Bool Permutation.
From Stdlib Require Import Floats.SpecFloat.
From Stdlib Require Import Ascii.
Import ListNotations.
Local Open Scope Z_scope.

(** ** Fixed-width integers *)

Definition wrap16 (z : Z) : Z := (z + 32768) mod 65536 - 32768.
Definition wrap32 (z : Z) : Z := (z + 2147483648) mod 4294967296 - 2147483648.
Definition int16 (z : Z) : Prop := -32768 <= z <= 32767.
Definition uint16 (z : Z) : Prop := 0 <= z <= 65535.

(** ** The pixel sink and the drawing monad *)

Inductive sink_call : Type :=
| SetPixel (x y color : Z)
| FillBlock (x y w h color : Z).

Definition trace := list sink_call.

(** A drawing computation either fails ([None]) or returns a value together
    with the events it emitted, in order.  The events are sink calls for the
    primitives themselves; the scanning procedures are also run with their
    span primitive replaced by a recorder, and then emit spans. *)
Definition draw (E A : Type) : Type := option (A * list E).

Definition ret {E A} (a : A) : draw E A := Some (a, []).

Definition bind {E A B} (m : draw E A) (k : A -> draw E B) : draw E B :=
  match m with
  | None => None
  | Some (a, t1) =>
      match k a with
      | None => None
      | Some (b, t2) => Some (b, t1 ++ t2)
      end
  end.

Definition emit {E} (e : E) : draw E unit := Some (tt, [e]).

Definition lift {E A} (o : option A) : draw E A :=
  match o with Some a => Some (a, []) | None => None end.

(** A procedure that paints on the sink. *)
Abbreviation paint := (draw sink_call unit).

Declare Scope draw_scope.
Delimit Scope draw_scope with draw.
Notation "x <- m ;; k" := (bind m (fun x => k))
  (at level 61, m at next level, right associativity) : draw_scope.
Notation "m ;; k" := (bind m (fun _ => k))
  (at level 61, right associativity) : draw_scope.
Local Open Scope draw_scope.

(** The sink calls of a computation, when it completes. *)
Definition calls {E A} (m : draw E A) : option (list E) :=
  match m with Some (_, t) => Some t | None => None end.

(** ** Pixel and block output *)

Definition drawPixel (x y color : Z) : paint := emit (SetPixel x y color).

Definition fillRect (x y w h color : Z) : paint :=
  emit (FillBlock x y w h color).

Definition writePixel (x y color : Z) : paint := drawPixel x y color.

(** ** Lines *)

(** The [for (; x0<=x1; x0++)] loop of writeLine.  [x0], [y0] and [err] are
    the loop-carried variables. *)
Fixpoint writeLine_loop (fuel : nat) (steep : bool) (x1 dx dy ystep color : Z)
  (x0 y0 err : Z) : paint :=
  match fuel with
  | O => None
  | S fuel' =>
      if x0 <=? x1 then
        (if steep then writePixel y0 x0 color else writePixel x0 y0 color) ;;
        let err := wrap16 (err - dy) in
        let '(y0, err) :=
          if err <? 0 then (wrap16 (y0 + ystep), wrap16 (err + dx))
          else (y0, err) in
        writeLine_loop fuel' steep x1 dx dy ystep color (wrap16 (x0 + 1)) y0 err
      else ret tt
  end.

Definition writeLine (fuel : nat) (x0 y0 x1 y1 color : Z) : paint :=
  let steep := Z.abs (y1 - y0) >? Z.abs (x1 - x0) in
  let '(x0, y0, x1, y1) :=
    if steep then (y0, x0, y1, x1) else (x0, y0, x1, y1) in
  let '(x0, y0, x1, y1) :=
    if x0 >? x1 then (x1, y1, x0, y0) else (x0, y0, x1, y1) in
  let dx := wrap16 (x1 - x0) in
  let dy := wrap16 (Z.abs (y1 - y0)) in
  let err := wrap16 (Z.quot dx 2) in
  let ystep := if y0 <? y1 then 1 else -1 in
  writeLine_loop fuel steep x1 dx dy ystep color x0 y0 err.

Definition drawFastVLine (fuel : nat) (x y h color : Z) : paint :=
  writeLine fuel x y x (wrap16 (y + h - 1)) color.

Definition drawFastHLine (fuel : nat) (x y w color : Z) : paint :=
  writeLine fuel x y (wrap16 (x + w - 1)) y color.

Definition drawLine (fuel : nat) (x0 y0 x1 y1 color : Z) : paint :=
  if x0 =? x1 then
    let '(y0, y1) := if y0 >? y1 then (y1, y0) else (y0, y1) in
    drawFastVLine fuel x0 y0 (wrap16 (y1 - y0 + 1)) color
  else if y0 =? y1 then
    let '(x0, x1) := if x0 >? x1 then (x1, x0) else (x0, x1) in
    drawFastHLine fuel x0 y0 (wrap16 (x1 - x0 + 1)) color
  else
    writeLine fuel x0 y0 x1 y1 color.

(** ** Rectangles *)

Definition drawRect (fuel : nat) (x y w h color : Z) : paint :=
  drawFastHLine fuel x y w color ;;
  drawFastHLine fuel x (wrap16 (y + h - 1)) w color ;;
  drawFastVLine fuel x y h color ;;
  drawFastVLine fuel (wrap16 (x + w - 1)) y h color.

(** ** Circles *)

(** The state of the midpoint recurrence that drawCircle, drawCircleHelper
    and fillCircleHelper each carry in the locals [f], [ddF_x], [ddF_y],
    [x] and [y]. *)
Record midpoint : Type := Midpoint
  { mp_f : Z; mp_ddF_x : Z; mp_ddF_y : Z; mp_x : Z; mp_y : Z }.

Definition midpoint_init (r : Z) : midpoint :=
  {| mp_f := wrap16 (1 - r);
     mp_ddF_x := 1;
     mp_ddF_y := wrap16 (-2 * r);
     mp_x := 0;
     mp_y := r |}.

(** One pass through the head of the [while (x<y)] body:
    [if (f >= 0) { y--; ddF_y += 2; f += ddF_y; } x++; ddF_x += 2; f += ddF_x;] *)
Definition midpoint_next (m : midpoint) : midpoint :=
  let '(y, ddF_y, f) :=
    if mp_f m >=? 0 then
      let y := wrap16 (mp_y m - 1) in
      let ddF_y := wrap16 (mp_ddF_y m + 2) in
      (y, ddF_y, wrap16 (mp_f m + ddF_y))
    else (mp_y m, mp_ddF_y m, mp_f m) in
  let x := wrap16 (mp_x m + 1) in
  let ddF_x := wrap16 (mp_ddF_x m + 2) in
  {| mp_f := wrap16 (f + ddF_x);
     mp_ddF_x := ddF_x;
     mp_ddF_y := ddF_y;
     mp_x := x;
     mp_y := y |}.

(** The eight writePixel calls of one drawCircle iteration, in source order. *)
Definition drawCircle_plot (x0 y0 x y color : Z) : paint :=
  writePixel (wrap16 (x0 + x)) (wrap16 (y0 + y)) color ;;
  writePixel (wrap16 (x0 - x)) (wrap16 (y0 + y)) color ;;
  writePixel (wrap16 (x0 + x)) (wrap16 (y0 - y)) color ;;
  writePixel (wrap16 (x0 - x)) (wrap16 (y0 - y)) color ;;
  writePixel (wrap16 (x0 + y)) (wrap16 (y0 + x)) color ;;
  writePixel (wrap16 (x0 - y)) (wrap16 (y0 + x)) color ;;
  writePixel (wrap16 (x0 + y)) (wrap16 (y0 - x)) color ;;
  writePixel (wrap16 (x0 - y)) (wrap16 (y0 - x)) color.

Fixpoint drawCircle_loop (fuel : nat) (x0 y0 color : Z) (m : midpoint) : paint :=
  match fuel with
  | O => None
  | S fuel' =>
      if mp_x m <? mp_y m then
        let m := midpoint_next m in
        drawCircle_plot x0 y0 (mp_x m) (mp_y m) color ;;
        drawCircle_loop fuel' x0 y0 color m
      else ret tt
  end.

Definition drawCircle (fuel : nat) (x0 y0 r color : Z) : paint :=
  writePixel x0 (wrap16 (y0 + r)) color ;;
  writePixel x0 (wrap16 (y0 - r)) color ;;
  writePixel (wrap16 (x0 + r)) y0 color ;;
  writePixel (wrap16 (x0 - r)) y0 color ;;
  drawCircle_loop fuel x0 y0 color (midpoint_init r).

(** [mask & bits] as a C condition. *)
Definition has_bits (mask bits : Z) : bool := negb (Z.land mask bits =? 0).

Definition when {E} (b : bool) (m : draw E unit) : draw E unit :=
  if b then m else ret tt.

Fixpoint drawCircleHelper_loop (fuel : nat) (x0 y0 cornername color : Z)
  (m : midpoint) : paint :=
  match fuel with
  | O => None
  | S fuel' =>
      if mp_x m <? mp_y m then
        let m := midpoint_next m in
        let x := mp_x m in
        let y := mp_y m in
        when (has_bits cornername 4)
          (writePixel (wrap16 (x0 + x)) (wrap16 (y0 + y)) color ;;
           writePixel (wrap16 (x0 + y)) (wrap16 (y0 + x)) color) ;;
        when (has_bits cornername 2)
          (writePixel (wrap16 (x0 + x)) (wrap16 (y0 - y)) color ;;
           writePixel (wrap16 (x0 + y)) (wrap16 (y0 - x)) color) ;;
        when (has_bits cornername 8)
          (writePixel (wrap16 (x0 - y)) (wrap16 (y0 + x)) color ;;
           writePixel (wrap16 (x0 - x)) (wrap16 (y0 + y)) color) ;;
        when (has_bits cornername 1)
          (writePixel (wrap16 (x0 - y)) (wrap16 (y0 - x)) color ;;
           writePixel (wrap16 (x0 - x)) (wrap16 (y0 - y)) color) ;;
        drawCircleHelper_loop fuel' x0 y0 cornername color m
      else ret tt
  end.

Definition drawCircleHelper (fuel : nat) (x0 y0 r cornername color : Z) : paint :=
  drawCircleHelper_loop fuel x0 y0 cornername color (midpoint_init r).

(** A call of a span primitive, [drawFastVLine (x, y, len)] or
    [drawFastHLine (x, y, len)], as recorded by [record_span]. *)
Record span : Type := Span { span_x : Z; span_y : Z; span_len : Z }.

Definition record_span (x y len color : Z) : draw span unit :=
  emit (Span x y len).

Section FillCircleHelper.
Context {E : Type}.
(** The vertical span primitive called by the loop: [drawFastVLine] on the
    device, [record_span] to observe the calls. *)
Variable vline : Z -> Z -> Z -> Z -> draw E unit.

(** [delta] is the value after [delta++]; [px] and [py] are the loop-carried
    copies of the previous [x] and of the [y] of the last span pair. *)
Fixpoint fillCircleHelper_loop (fuel : nat) (x0 y0 corners delta color : Z)
  (m : midpoint) (px py : Z) : draw E unit :=
  match fuel with
  | O => None
  | S fuel' =>
      if mp_x m <? mp_y m then
        let m := midpoint_next m in
        let x := mp_x m in
        let y := mp_y m in
        when (x <? y + 1)
          (when (has_bits corners 1)
             (vline (wrap16 (x0 + x)) (wrap16 (y0 - y))
                    (wrap16 (2 * y + delta)) color) ;;
           when (has_bits corners 2)
             (vline (wrap16 (x0 - x)) (wrap16 (y0 - y))
                    (wrap16 (2 * y + delta)) color)) ;;
        when (negb (y =? py))
          (when (has_bits corners 1)
             (vline (wrap16 (x0 + py)) (wrap16 (y0 - px))
                    (wrap16 (2 * px + delta)) color) ;;
           when (has_bits corners 2)
             (vline (wrap16 (x0 - py)) (wrap16 (y0 - px))
                    (wrap16 (2 * px + delta)) color)) ;;
        let py := if negb (y =? py) then y else py in
        fillCircleHelper_loop fuel' x0 y0 corners delta color m x py
      else ret tt
  end.

Definition fillCircleHelper_with (fuel : nat) (x0 y0 r corners delta color : Z)
  : draw E unit :=
  let m := midpoint_init r in
  fillCircleHelper_loop fuel x0 y0 corners (wrap16 (delta + 1)) color
    m (mp_x m) (mp_y m).
End FillCircleHelper.

Definition fillCircleHelper (fuel : nat) (x0 y0 r corners delta color : Z) : paint :=
  fillCircleHelper_with (drawFastVLine fuel) fuel x0 y0 r corners delta color.

(** The drawFastVLine calls of fillCircleHelper, in order. *)
Definition fillCircleHelper_spans (fuel : nat) (x0 y0 r corners delta color : Z)
  : draw span unit :=
  fillCircleHelper_with record_span fuel x0 y0 r corners delta color.

Definition fillCircle (fuel : nat) (x0 y0 r color : Z) : paint :=
  drawFastVLine fuel x0 (wrap16 (y0 - r)) (wrap16 (2 * r + 1)) color ;;
  fillCircleHelper fuel x0 y0 r 3 0 color.

(** ** Rounded rectangles *)

(** [((w < h) ? w : h) / 2]; C division truncates toward zero. *)
Definition max_radius (w h : Z) : Z := wrap16 (Z.quot (if w <? h then w else h) 2).

Definition drawRoundRect (fuel : nat) (x y w h r color : Z) : paint :=
  let r := if r >? max_radius w h then max_radius w h else r in
  drawFastHLine fuel (wrap16 (x + r)) y (wrap16 (w - 2 * r)) color ;;
  drawFastHLine fuel (wrap16 (x + r)) (wrap16 (y + h - 1)) (wrap16 (w - 2 * r)) color ;;
  drawFastVLine fuel x (wrap16 (y + r)) (wrap16 (h - 2 * r)) color ;;
  drawFastVLine fuel (wrap16 (x + w - 1)) (wrap16 (y + r)) (wrap16 (h - 2 * r)) color ;;
  drawCircleHelper fuel (wrap16 (x + r)) (wrap16 (y + r)) r 1 color ;;
  drawCircleHelper fuel (wrap16 (x + w - r - 1)) (wrap16 (y + r)) r 2 color ;;
  drawCircleHelper fuel (wrap16 (x + w - r - 1)) (wrap16 (y + h - r - 1)) r 4 color ;;
  drawCircleHelper fuel (wrap16 (x + r)) (wrap16 (y + h - r - 1)) r 8 color.

Definition fillRoundRect (fuel : nat) (x y w h r color : Z) : paint :=
  let r := if r >? max_radius w h then max_radius w h else r in
  fillRect (wrap16 (x + r)) y (wrap16 (w - 2 * r)) h color ;;
  fillCircleHelper fuel (wrap16 (x + w - r - 1)) (wrap16 (y + r)) r 1
    (wrap16 (h - 2 * r - 1)) color ;;
  fillCircleHelper fuel (wrap16 (x + r)) (wrap16 (y + r)) r 2
    (wrap16 (h - 2 * r - 1)) color.

(** ** Triangles *)

Definition drawTriangle (fuel : nat) (x0 y0 x1 y1 x2 y2 color : Z) : paint :=
  drawLine fuel x0 y0 x1 y1 color ;;
  drawLine fuel x1 y1 x2 y2 color ;;
  drawLine fuel x2 y2 x0 y0 color.

(** Division of two [int32_t] values.  Division by zero and [INT_MIN / -1]
    have no defined behaviour in C. *)
Definition cdiv (a b : Z) : option Z :=
  if (b =? 0) || ((a =? -2147483648) && (b =? -1)) then None
  else Some (Z.quot a b).

(** A triangle as the six coordinate arguments [(x0, y0, x1, y1, x2, y2)]. *)
Definition vertices : Type := (Z * Z * Z * Z * Z * Z)%type.

(** The three conditional swaps at the head of fillTriangle. *)
Definition sort_by_y (v : vertices) : vertices :=
  let '(x0, y0, x1, y1, x2, y2) := v in
  let '(x0, y0, x1, y1) :=
    if y0 >? y1 then (x1, y1, x0, y0) else (x0, y0, x1, y1) in
  let '(x1, y1, x2, y2) :=
    if y1 >? y2 then (x2, y2, x1, y1) else (x1, y1, x2, y2) in
  let '(x0, y0, x1, y1) :=
    if y0 >? y1 then (x1, y1, x0, y0) else (x0, y0, x1, y1) in
  (x0, y0, x1, y1, x2, y2).

Section FillTriangle.
Context {E : Type}.
(** The horizontal span primitive: [drawFastHLine] on the device,
    [record_span] to observe the calls. *)
Variable hline : Z -> Z -> Z -> Z -> draw E unit.

(** The scanline loops [for (...; y<=last; y++)].  Both have the body
    [a = xa + sa / dya; b = xb + sb / dyb; sa += dxa; sb += dxb;
     if (a > b) swap (a, b); drawFastHLine (a, y, b-a+1, color);]
    the upper one with [xa = xb = x0] over the edges 0-1 and 0-2, the lower
    one with [xa = x1], [xb = x0] over the edges 1-2 and 0-2.  The final
    [y] is returned: the lower loop starts from it. *)
Fixpoint fillTriangle_rows (fuel : nat) (xa dxa dya xb dxb dyb last color : Z)
  (y sa sb : Z) : draw E Z :=
  match fuel with
  | O => None
  | S fuel' =>
      if y <=? last then
        qa <- lift (cdiv sa dya) ;;
        qb <- lift (cdiv sb dyb) ;;
        let a := wrap16 (xa + qa) in
        let b := wrap16 (xb + qb) in
        let sa := wrap32 (sa + dxa) in
        let sb := wrap32 (sb + dxb) in
        let '(a, b) := if a >? b then (b, a) else (a, b) in
        hline a y (wrap16 (b - a + 1)) color ;;
        fillTriangle_rows fuel' xa dxa dya xb dxb dyb last color
          (wrap16 (y + 1)) sa sb
      else ret y
  end.

(** fillTriangle after the vertices have been sorted. *)
Definition fillTriangle_sorted (fuel : nat) (v : vertices) (color : Z)
  : draw E unit :=
  let '(x0, y0, x1, y1, x2, y2) := v in
  if y0 =? y2 then
    let a := x0 in
    let b := x0 in
    let '(a, b) :=
      if x1 <? a then (x1, b) else if x1 >? b then (a, x1) else (a, b) in
    let '(a, b) :=
      if x2 <? a then (x2, b) else if x2 >? b then (a, x2) else (a, b) in
    hline a y0 (wrap16 (b - a + 1)) color
  else
    let dx01 := wrap16 (x1 - x0) in
    let dy01 := wrap16 (y1 - y0) in
    let dx02 := wrap16 (x2 - x0) in
    let dy02 := wrap16 (y2 - y0) in
    let dx12 := wrap16 (x2 - x1) in
    let dy12 := wrap16 (y2 - y1) in
    let last := if y1 =? y2 then y1 else wrap16 (y1 - 1) in
    y <- fillTriangle_rows fuel x0 dx01 dy01 x0 dx02 dy02 last color y0 0 0 ;;
    let sa := wrap32 (dx12 * (y - y1)) in
    let sb := wrap32 (dx02 * (y - y0)) in
    _ <- fillTriangle_rows fuel x1 dx12 dy12 x0 dx02 dy02 y2 color y sa sb ;;
    ret tt.

Definition fillTriangle_with (fuel : nat) (x0 y0 x1 y1 x2 y2 color : Z)
  : draw E unit :=
  fillTriangle_sorted fuel (sort_by_y (x0, y0, x1, y1, x2, y2)) color.
End FillTriangle.

Definition fillTriangle (fuel : nat) (x0 y0 x1 y1 x2 y2 color : Z) : paint :=
  fillTriangle_with (drawFastHLine fuel) fuel x0 y0 x1 y1 x2 y2 color.

(** The drawFastHLine calls of fillTriangle, in order. *)
Definition fillTriangle_spans (fuel : nat) (x0 y0 x1 y1 x2 y2 color : Z)
  : draw span unit :=
  fillTriangle_with record_span fuel x0 y0 x1 y1 x2 y2 color.

(** ** Colour interpolation *)

(** A C [float] is an IEEE 754 binary32 number: 24 bits of precision,
    exponents up to 128. *)
Definition float : Type := spec_float.
Definition float_of_int (z : Z) : float := binary_normalize 24 128 z 0 false.
Definition float_mul (a b : float) : float := SFmul 24 128 a b.
Definition float_div (a b : float) : float := SFdiv 24 128 a b.
Definition float_add (a b : float) : float := SFadd 24 128 a b.
Definition float_sub (a b : float) : float := SFsub 24 128 a b.

(** The number a finite float denotes, truncated toward zero: the mantissa
    shifted by the exponent (to the right when it is negative, dropping the
    fraction), with the sign put back. *)
Definition float_trunc (s : bool) (m : positive) (e : Z) : Z :=
  cond_Zopp s (Z.shiftl (Zpos m) e).

(** The cast [(int) f].  It truncates toward zero; C gives it no defined
    behaviour on NaN, on the infinities and outside the range of [int]. *)
Definition int_of_float (f : float) : option Z :=
  match f with
  | S754_zero _ => Some 0
  | S754_finite s m e =>
      let z := float_trunc s m e in
      if (-2147483648 <=? z) && (z <=? 2147483647) then Some z else None
  | S754_infinity _ | S754_nan => None
  end.

(** [start + (int)((end - start) * t)] for one channel. *)
Definition interpolateChannel (cstart cend : Z) (t : float) : option Z :=
  match int_of_float (float_mul (float_of_int (cend - cstart)) t) with
  | Some d => Some (cstart + d)
  | None => None
  end.

Definition interpolateColor (colorStart colorEnd : Z) (t : float) : option Z :=
  let redStart := Z.land (Z.shiftr colorStart 11) 31 in
  let greenStart := Z.land (Z.shiftr colorStart 5) 63 in
  let blueStart := Z.land colorStart 31 in
  let redEnd := Z.land (Z.shiftr colorEnd 11) 31 in
  let greenEnd := Z.land (Z.shiftr colorEnd 5) 63 in
  let blueEnd := Z.land colorEnd 31 in
  match interpolateChannel redStart redEnd t,
        interpolateChannel greenStart greenEnd t,
        interpolateChannel blueStart blueEnd t with
  | Some red, Some green, Some blue =>
      Some (Z.lor (Z.lor (Z.shiftl red 11) (Z.shiftl green 5)) blue mod 65536)
  | _, _, _ => None
  end.

(** The floats 0, 1 and 1/2. *)
Definition float_zero : float := S754_zero false.
Definition float_one : float := float_of_int 1.
Definition float_half : float := S754_finite false 8388608 (-24).

(** ** The gradient background *)

(** The third argument of interpolateColor in drawGradientBackground,
    [(float)i / _height+1]: the cast applies to [i], the division comes
    before the addition, and both [_height] and [1] are converted to
    [float]. *)
Definition gradient_position (i height : Z) : float :=
  float_add (float_div (float_of_int i) (float_of_int height)) (float_of_int 1).

(** [for (int i = 0; i < _height+3; i++)] with the body
    [color = interpolateColor(BLACK, BLUE, (float)i / _height+1);
     drawFastHLine(1, i, _width, color);].
    [_width] and [_height] are globals of the display driver and [BLACK]
    and [BLUE] are colour macros of its header: they are parameters here.
    [lines] is the fuel of the line primitive. *)
Fixpoint drawGradientBackground_loop (lines fuel : nat)
  (_width _height BLACK BLUE i : Z) : paint :=
  match fuel with
  | O => None
  | S fuel' =>
      if i <? _height + 3 then
        color <- lift (interpolateColor BLACK BLUE (gradient_position i _height)) ;;
        drawFastHLine lines 1 (wrap16 i) _width color ;;
        drawGradientBackground_loop lines fuel' _width _height BLACK BLUE (i + 1)
      else ret tt
  end.

Definition drawGradientBackground (fuel : nat) (_width _height BLACK BLUE : Z)
  : paint :=
  drawGradientBackground_loop fuel fuel _width _height BLACK BLUE 0.

(** * ESP32_Wifi.c: the parsers of the weather reply

    Parse_number and Parse_text rewrite a C string in place.  The argument
    is modelled as the memory from the pointer on, a list of characters;
    the string it holds ends at the first NUL.  Reading past the end of the
    list (a buffer without NUL) has no defined behaviour: [None].  The
    indices [i] and [j] are C [int]s; they stay far below [INT_MAX] for any
    buffer that fits the memory of the board, and are natural numbers
    here. *)

Definition NUL : ascii := ascii_of_nat 0.
Definition dquote : ascii := ascii_of_nat 34.

(** [isdigit] in the C locale. *)
Definition isdigit (c : ascii) : bool :=
  ((48 <=? nat_of_ascii c) && (nat_of_ascii c <=? 57))%nat.

(** The assignment [buf[n] = a].  The loops below only write at an index
    they have already read, so the case of an index past the end (left
    without effect here) does not arise. *)
Fixpoint store {A} (buf : list A) (n : nat) (a : A) : list A :=
  match buf, n with
  | [], _ => []
  | _ :: buf', O => a :: buf'
  | x :: buf', S n' => x :: store buf' n' a
  end.

(** The test of Parse_number: a digit, ['.'] or ['-']. *)
Definition number_char (c : ascii) : bool :=
  isdigit c || Ascii.eqb c "." || Ascii.eqb c "-".

(** [for (int i = 0; temp[i] != '\0'; i++) if (...) temp[j++] = temp[i];]
    followed by [temp[j] = '\0']. *)
Fixpoint Parse_number_loop (fuel : nat) (temp : list ascii) (i j : nat)
  : option (list ascii) :=
  match fuel with
  | O => None
  | S fuel' =>
      match nth_error temp i with
      | None => None
      | Some c =>
          if Ascii.eqb c NUL then Some (store temp j NUL)
          else if number_char c
               then Parse_number_loop fuel' (store temp j c) (S i) (S j)
               else Parse_number_loop fuel' temp (S i) j
      end
  end.

(** One pass of the loop per character of the buffer is always enough
    fuel. *)
Definition Parse_number (temp : list ascii) : option (list ascii) :=
  Parse_number_loop (S (length temp)) temp 0 0.

(** The loop of Parse_text; [break] leaves it for the final
    [text[j] = '\0'], [continue] goes on with [i++]. *)
Fixpoint Parse_text_loop (fuel : nat) (text : list ascii) (i j : nat)
  (in_quotes : bool) : option (list ascii) :=
  match fuel with
  | O => None
  | S fuel' =>
      match nth_error text i with
      | None => None
      | Some c =>
          if Ascii.eqb c NUL then Some (store text j NUL)
          else if Ascii.eqb c dquote then
            if in_quotes then Some (store text j NUL)
            else Parse_text_loop fuel' text (S i) j true
          else if in_quotes
               then Parse_text_loop fuel' (store text j c) (S i) (S j) true
               else Parse_text_loop fuel' text (S i) j false
      end
  end.

Definition Parse_text (text : list ascii) : option (list ascii) :=
  Parse_text_loop (S (length text)) text 0 0 false.

(** * AHT20.c: reading the sensor

    AHT20_read sends the measurement command, waits and receives six
    bytes.  The model takes the six bytes that the bus delivered and the
    floats that [temp] and [humid] pointed to before the call, and returns
    the floats they point to after it.  [data] is a [uint32_t], written with its
    wrap; [data * 100.0f / (1 << 20)] is evaluated in binary32. *)

Definition wrap_u32 (z : Z) : Z := z mod 4294967296.

(** [data * 100.0f / (1 << 20)] *)
Definition AHT20_humidity (data : Z) : float :=
  float_div (float_mul (float_of_int data) (float_of_int 100))
            (float_of_int (Z.shiftl 1 20)).

(** [data * 200.0f / (1 << 20) - 50] *)
Definition AHT20_temperature (data : Z) : float :=
  float_sub (float_div (float_mul (float_of_int data) (float_of_int 200))
                       (float_of_int (Z.shiftl 1 20)))
            (float_of_int 50).

(** The two [data] words that AHT20_read assembles from the bytes. *)
Definition AHT20_humidity_data (b1 b2 b3 : Z) : Z :=
  wrap_u32 (Z.shiftr b3 4 + wrap_u32 (Z.shiftl b2 4) + wrap_u32 (Z.shiftl b1 12)).

Definition AHT20_temperature_data (b3 b4 b5 : Z) : Z :=
  wrap_u32 (wrap_u32 (Z.shiftl (Z.land b3 15) 16) + wrap_u32 (Z.shiftl b4 8) + b5).

(** The floats behind [temp] and [humid] after AHT20_read. *)
Definition AHT20_read (b0 b1 b2 b3 b4 b5 : Z) (temp humid : float) : float * float :=
  if Z.land b0 128 =? 0 then
    let humid := AHT20_humidity (AHT20_humidity_data b1 b2 b3) in
    let temp := AHT20_temperature (AHT20_temperature_data b3 b4 b5) in
    (temp, humid)
  else (temp, humid).

(** * Vocabulary of the statements *)

(** A sink call that sets one pixel. *)
Definition is_pixel (e : sink_call) : Prop :=
  match e with SetPixel _ _ _ => True | FillBlock _ _ _ _ _ => False end.

(** The larger coordinate on the major axis of a line: the bound of the scan
    of writeLine. *)
Definition major_end (x0 y0 x1 y1 : Z) : Z :=
  if Z.abs (y1 - y0) >? Z.abs (x1 - x0) then Z.max y0 y1 else Z.max x0 x1.

(** [n] pixels of row [y], from column [x] rightwards. *)
Fixpoint row_pixels (n : nat) (x y color : Z) : trace :=
  match n with
  | O => []
  | S n' => SetPixel x y color :: row_pixels n' (x + 1) y color
  end.

(** A coordinate the loops can count up to and past: an [int16_t] below
    [INT16_MAX]. *)
Definition scannable (z : Z) : Prop := -32768 <= z <= 32766.

(** The reflections of a pixel write about the center [(x0, y0)] of a
    circle, on 16-bit coordinates: across the vertical axis [x = x0], across
    the horizontal axis [y = y0], and the swap of the center-relative
    coordinates. *)
Definition mirror_x (x0 : Z) (e : sink_call) : sink_call :=
  match e with
  | SetPixel x y c => SetPixel (wrap16 (2 * x0 - x)) y c
  | FillBlock _ _ _ _ _ => e
  end.

Definition mirror_y (y0 : Z) (e : sink_call) : sink_call :=
  match e with
  | SetPixel x y c => SetPixel x (wrap16 (2 * y0 - y)) c
  | FillBlock _ _ _ _ _ => e
  end.

Definition swap_xy (x0 y0 : Z) (e : sink_call) : sink_call :=
  match e with
  | SetPixel x y c => SetPixel (wrap16 (x0 + (y - y0))) (wrap16 (y0 + (x - x0))) c
  | FillBlock _ _ _ _ _ => e
  end.

(** The eight points of drawCircle_plot. *)
Definition octants (x0 y0 x y color : Z) : trace :=
  [ SetPixel (wrap16 (x0 + x)) (wrap16 (y0 + y)) color;
    SetPixel (wrap16 (x0 - x)) (wrap16 (y0 + y)) color;
    SetPixel (wrap16 (x0 + x)) (wrap16 (y0 - y)) color;
    SetPixel (wrap16 (x0 - x)) (wrap16 (y0 - y)) color;
    SetPixel (wrap16 (x0 + y)) (wrap16 (y0 + x)) color;
    SetPixel (wrap16 (x0 - y)) (wrap16 (y0 + x)) color;
    SetPixel (wrap16 (x0 + y)) (wrap16 (y0 - x)) color;
    SetPixel (wrap16 (x0 - y)) (wrap16 (y0 - x)) color ].

(** A trace closed under the three reflections. *)
Definition symmetric_about (x0 y0 : Z) (t : trace) : Prop :=
  forall e, In e t ->
    In (mirror_x x0 e) t /\ In (mirror_y y0 e) t /\ In (swap_xy x0 y0 e) t.

(** The state of the midpoint recurrence after [k] steps. *)
Definition midpoint_iter (k : nat) (m : midpoint) : midpoint :=
  Nat.iter k midpoint_next m.

(** The loop of a circle of radius [r] runs its iteration number [k]
    (counting from 0): the test [x < y] holds in every state up to the
    [k]-th. *)
Definition loop_runs (r : Z) (k : nat) : Prop :=
  forall j, (j <= k)%nat ->
    mp_x (midpoint_iter j (midpoint_init r)) < mp_y (midpoint_iter j (midpoint_init r)).

(** A vertical span in the column at distance [col] left or right of the
    center, from [half] rows above the center, [2*half + delta + 1] long. *)
Definition column_span (x0 y0 delta col half : Z) (s : span) : Prop :=
  (span_x s = wrap16 (x0 + col) \/ span_x s = wrap16 (x0 - col)) /\
  span_y s = wrap16 (y0 - half) /\
  span_len s = wrap16 (2 * half + delta + 1).

(** The two kinds of span of fillCircleHelper, on the step from [m] to
    [m' = midpoint_next m]: the span at the new [x], as tall as the new [y]
    asks, drawn while [x <= y]; and the span at the old [y], as tall as the
    old [x] asks, drawn when the step changed [y]. *)
Definition span_of_step (x0 y0 delta : Z) (m : midpoint) (s : span) : Prop :=
  let m' := midpoint_next m in
  (mp_x m' <= mp_y m' /\ column_span x0 y0 delta (mp_x m') (mp_y m') s) \/
  (mp_y m' <> mp_y m /\ column_span x0 y0 delta (mp_y m) (mp_x m) s).

(** What the specification says of every span instead: it sits at the
    current [x], is as tall as the current [y] asks, and its step changed
    [y]. *)
Definition span_as_specified (x0 y0 delta : Z) (m : midpoint) (s : span) : Prop :=
  let m' := midpoint_next m in
  column_span x0 y0 delta (mp_x m') (mp_y m') s /\ mp_y m' <> mp_y m.

(** Drawing recorded vertical spans on the device, in order. *)
Fixpoint drawFastVLines (fuel : nat) (color : Z) (l : list span) : paint :=
  match l with
  | [] => ret tt
  | s :: l' =>
      drawFastVLine fuel (span_x s) (span_y s) (span_len s) color ;;
      drawFastVLines fuel color l'
  end.

(** The smallest and the largest of three numbers. *)
Definition min3 (a b c : Z) : Z := Z.min a (Z.min b c).
Definition max3 (a b c : Z) : Z := Z.max a (Z.max b c).

(** A coordinate small enough for every difference of two of them to fit in
    an [int16_t]. *)
Definition small (z : Z) : Prop := -16383 <= z <= 16383.

(** A float that is a number: a zero or a finite value, not an infinity
    and not NaN. *)
Definition float_is_number (t : float) : bool :=
  match t with
  | S754_zero _ | S754_finite _ _ _ => true
  | S754_infinity _ | S754_nan => false
  end.

(** The three channels of a colour, and the packing back. *)
Definition red_of (c : Z) : Z := Z.land (Z.shiftr c 11) 31.
Definition green_of (c : Z) : Z := Z.land (Z.shiftr c 5) 63.
Definition blue_of (c : Z) : Z := Z.land c 31.
Definition pack565 (r g b : Z) : Z :=
  Z.lor (Z.lor (Z.shiftl r 11) (Z.shiftl g 5)) b mod 65536.

(** The integers from [lo], [n] of them. *)
Definition zrange (lo : Z) (n : nat) : list Z :=
  map (fun i => lo + Z.of_nat i) (seq 0 n).

(** [n] pixels of column [x], from row [y] downwards. *)
Fixpoint col_pixels (n : nat) (x y color : Z) : trace :=
  match n with
  | O => []
  | S n' => SetPixel x y color :: col_pixels n' x (y + 1) color
  end.

(** Two pixel writes next to each other, diagonals included. *)
Definition adjacent8 (e1 e2 : sink_call) : Prop :=
  match e1, e2 with
  | SetPixel xa ya _, SetPixel xb yb _ =>
      Z.abs (xb - xa) <= 1 /\ Z.abs (yb - ya) <= 1 /\ (xa <> xb \/ ya <> yb)
  | _, _ => False
  end.

(** A trace in which every write is next to the one before it. *)
Fixpoint connected8 (t : trace) : Prop :=
  match t with
  | e1 :: (e2 :: _) as t' => adjacent8 e1 e2 /\ connected8 t'
  | _ => True
  end.

(** Two traces that write the same set of sink calls. *)
Definition same_calls (t1 t2 : trace) : Prop := forall e, In e t1 <-> In e t2.

(** Two drawing outcomes that agree up to the order and the repetition of
    their sink calls: both fail, or both complete with the same set. *)
Definition same_picture (m1 m2 : paint) : Prop :=
  match m1, m2 with
  | Some (_, t1), Some (_, t2) => same_calls t1 t2
  | None, None => True
  | _, _ => False
  end.

(** The midpoint recurrence for radius [r], without wrap: the locals hold
    [ddF_x = 2x + 1], [ddF_y = -2y] and
    [f = x^2 + y^2 - r^2 + 2x - y + 1], and [f] stays between [2 - 2y] and
    [2x] while [x < y]. *)
Definition midpoint_exact (r : Z) (m : midpoint) : Prop :=
  0 <= mp_x m /\ mp_y m <= r /\
  mp_ddF_x m = 2 * mp_x m + 1 /\
  mp_ddF_y m = - 2 * mp_y m /\
  mp_f m = mp_x m * mp_x m + mp_y m * mp_y m - r * r + 2 * mp_x m - mp_y m + 1 /\
  2 - 2 * mp_y m <= mp_f m <= 2 * mp_x m.

(** A point at offset [(x, y)] from the center that is on the circle of
    radius [r] up to rounding: [|x^2 + y^2 - r^2| <= r], which puts it at
    less than one pixel from the circle. *)
Definition near_circle (r x y : Z) : Prop :=
  Z.abs (x * x + y * y - r * r) <= r.

(** The pixel writes of one iteration of drawCircleHelper for the corner
    mask [m], in source order. *)
Definition corner_points (x0 y0 m x y color : Z) : trace :=
  (if has_bits m 4
   then [SetPixel (wrap16 (x0 + x)) (wrap16 (y0 + y)) color;
         SetPixel (wrap16 (x0 + y)) (wrap16 (y0 + x)) color] else []) ++
  (if has_bits m 2
   then [SetPixel (wrap16 (x0 + x)) (wrap16 (y0 - y)) color;
         SetPixel (wrap16 (x0 + y)) (wrap16 (y0 - x)) color] else []) ++
  (if has_bits m 8
   then [SetPixel (wrap16 (x0 - y)) (wrap16 (y0 + x)) color;
         SetPixel (wrap16 (x0 - x)) (wrap16 (y0 + y)) color] else []) ++
  (if has_bits m 1
   then [SetPixel (wrap16 (x0 - y)) (wrap16 (y0 - x)) color;
         SetPixel (wrap16 (x0 - x)) (wrap16 (y0 - y)) color] else []).

(** The quadrant of a pixel about the center, as the corner bit that draws
    there: 1 up left, 2 up right, 4 down right, 8 down left (y grows
    downwards). *)
Definition in_corner (x0 y0 bit px py : Z) : Prop :=
  (bit = 1 /\ px <= x0 /\ py <= y0) \/
  (bit = 2 /\ x0 <= px /\ py <= y0) \/
  (bit = 4 /\ x0 <= px /\ y0 <= py) \/
  (bit = 8 /\ px <= x0 /\ y0 <= py).

(** The pixels that drawFastHLine writes for a recorded horizontal span. *)
Definition hspan_pixels (color : Z) (s : span) : trace :=
  row_pixels (Z.to_nat (span_len s)) (span_x s) (span_y s) color.

(** Drawing recorded horizontal spans on the device, in order. *)
Fixpoint drawFastHLines (fuel : nat) (color : Z) (l : list span) : paint :=
  match l with
  | [] => ret tt
  | s :: l' =>
      drawFastHLine fuel (span_x s) (span_y s) (span_len s) color ;;
      drawFastHLines fuel color l'
  end.

(** Where the edge from [(xa, ya)] down to [(xb, yb)] crosses row [y], by
    the longhand formula [xa + (xb - xa) * (y - ya) / (yb - ya)] with C
    division. *)
Definition edge_x (xa ya xb yb y : Z) : Z :=
  xa + Z.quot ((xb - xa) * (y - ya)) (yb - ya).

(** The span of row [y] from [a] to [b], whichever is on the left. *)
Definition span_between (a b y : Z) : span :=
  Span (Z.min a b) y (Z.abs (b - a) + 1).

(** The span of row [y] of a triangle whose vertices are in ascending order
    of y: between the long edge 0-2 and the edge 0-1 above row [y1], the
    edge 1-2 from row [y1] on; a flat bottom [y1 = y2] has only the edge
    0-1. *)
Definition triangle_row (x0 y0 x1 y1 x2 y2 y : Z) : span :=
  span_between
    (if (y <? y1) || (y1 =? y2) then edge_x x0 y0 x1 y1 y else edge_x x1 y1 x2 y2 y)
    (edge_x x0 y0 x2 y2 y) y.

(** A span that stays inside the columns [lo .. hi]. *)
Definition span_within (lo hi : Z) (s : span) : Prop :=
  lo <= span_x s /\ 1 <= span_len s /\ span_x s + span_len s - 1 <= hi.

(** The pixels that drawFastVLine writes for a recorded span that fits the
    coordinate range. *)
Definition span_pixels (color : Z) (s : span) : trace :=
  col_pixels (Z.to_nat (span_len s)) (span_x s) (span_y s) color.

(** A vertical span of at least one pixel whose column and rows can all be
    scanned by the loop of writeLine. *)
Definition span_fits (s : span) : Prop :=
  scannable (span_x s) /\ int16 (span_y s) /\
  1 <= span_len s <= 32767 /\ span_y s + span_len s - 1 <= 32766.

(** The spans of one guarded pair of fillCircleHelper, without wrap: the
    columns at distance [d] right (bit 1) and left (bit 2) of the center,
    from [h] rows above the center row, [2h + delta] long ([delta] is the
    height delta after its increment). *)
Definition column_pair (corners x0 y0 delta d h : Z) : list span :=
  (if has_bits corners 1 then [Span (x0 + d) (y0 - h) (2 * h + delta)] else []) ++
  (if has_bits corners 2 then [Span (x0 - d) (y0 - h) (2 * h + delta)] else []).

(** How far [p] is outside the interval [lo .. hi]. *)
Definition excess (lo hi p : Z) : Z := Z.max 0 (Z.max (lo - p) (p - hi)).

(** The squared distance of a pixel from the inner rectangle of a rounded
    rectangle, the one obtained by taking the radius off every side. *)
Definition corner_distance2 (x y w h r px py : Z) : Z :=
  let dx := excess (x + r) (x + w - r - 1) px in
  let dy := excess (y + r) (y + h - r - 1) py in
  dx * dx + dy * dy.

(** The C string held by a buffer: its characters before the first NUL. *)
Fixpoint c_string (buf : list ascii) : list ascii :=
  match buf with
  | [] => []
  | c :: buf' => if Ascii.eqb c NUL then [] else c :: c_string buf'
  end.

(** The characters of [s] before its first double quote, and those after
    it. *)
Fixpoint before_quote (s : list ascii) : list ascii :=
  match s with
  | [] => []
  | c :: s' => if Ascii.eqb c dquote then [] else c :: before_quote s'
  end.

Fixpoint after_quote (s : list ascii) : list ascii :=
  match s with
  | [] => []
  | c :: s' => if Ascii.eqb c dquote then s' else after_quote s'
  end.

(** A [uint8_t]. *)
Definition byte (z : Z) : Prop := 0 <= z <= 255.

(** The 40 bits that follow the status byte, most significant byte first. *)
Definition AHT20_payload (b1 b2 b3 b4 b5 : Z) : Z :=
  (((b1 * 256 + b2) * 256 + b3) * 256 + b4) * 256 + b5.

(** [P] holds of every number from 0 up to [n - 1]; a loop over a binary
    counter. *)
Definition all_below (n : N) (P : Z -> bool) : bool :=
  snd (N.iter n (fun s => (fst s + 1, snd s && P (fst s))) (0, true)).

(** * Properties *)

(** ** Arithmetic of the 16-bit wrap *)

Lemma wrap16_int16 (z : Z) : int16 (wrap16 z).
Proof.
  unfold int16, wrap16.
  pose proof (Z.mod_pos_bound (z + 32768) 65536 ltac:(lia)). lia.
Qed.

Lemma wrap16_id (z : Z) : int16 z -> wrap16 z = z.
Proof.
  unfold int16, wrap16. intros H.
  rewrite Z.mod_small by lia. lia.
Qed.

Lemma wrap16_eq (a b : Z) : a mod 65536 = b mod 65536 -> wrap16 a = wrap16 b.
Proof.
  intros H. unfold wrap16.
  rewrite (Z.add_mod a), (Z.add_mod b), H by lia. reflexivity.
Qed.

Lemma wrap16_mod (z : Z) : wrap16 z mod 65536 = z mod 65536.
Proof.
  unfold wrap16.
  replace ((z + 32768) mod 65536 - 32768)
    with ((z + 32768) mod 65536 + 32768 + (-1) * 65536) by lia.
  rewrite Z.mod_add by lia.
  rewrite Z.add_mod_idemp_l by lia.
  replace (z + 32768 + 32768) with (z + 1 * 65536) by lia.
  apply Z.mod_add. lia.
Qed.

Lemma wrap16_add_l (a b : Z) : wrap16 (wrap16 a + b) = wrap16 (a + b).
Proof.
  apply wrap16_eq.
  rewrite (Z.add_mod (wrap16 a)), wrap16_mod, <- Z.add_mod by lia. reflexivity.
Qed.

Lemma wrap16_add_r (a b : Z) : wrap16 (a + wrap16 b) = wrap16 (a + b).
Proof. rewrite Z.add_comm, wrap16_add_l, Z.add_comm. reflexivity. Qed.

Lemma wrap16_sub_l (a b : Z) : wrap16 (wrap16 a - b) = wrap16 (a - b).
Proof. unfold Z.sub. apply wrap16_add_l. Qed.

Lemma wrap16_sub_r (a b : Z) : wrap16 (a - wrap16 b) = wrap16 (a - b).
Proof.
  apply wrap16_eq.
  rewrite (Zminus_mod a (wrap16 b)), wrap16_mod, <- Zminus_mod. reflexivity.
Qed.

(** The far end of a span that starts at [a] and is [b - a + 1] long is [b]:
    the two conversions to [int16_t] cancel. *)
Lemma span_end (a b : Z) : int16 b -> wrap16 (a + wrap16 (b - a + 1) - 1) = b.
Proof.
  intros Hb.
  replace (a + wrap16 (b - a + 1) - 1) with ((a - 1) + wrap16 (b - a + 1)) by lia.
  rewrite wrap16_add_r.
  replace (a - 1 + (b - a + 1)) with b by lia.
  apply wrap16_id, Hb.
Qed.

(** ** The drawing monad *)

Lemma bind_emit {E B} (e : E) (k : unit -> draw E B) :
  bind (emit e) k =
  match k tt with Some (b, t) => Some (b, e :: t) | None => None end.
Proof. reflexivity. Qed.

Lemma bind_ret {E A B} (a : A) (k : A -> draw E B) : bind (ret a) k = k a.
Proof. unfold bind, ret. destruct (k a) as [[b t]|]; reflexivity. Qed.

Lemma bind_Some {E A B} (m : draw E A) (k : A -> draw E B) b t :
  bind m k = Some (b, t) <->
  exists a t1 t2, m = Some (a, t1) /\ k a = Some (b, t2) /\ t = t1 ++ t2.
Proof.
  unfold bind. split.
  - destruct m as [[a t1]|]; [|discriminate].
    destruct (k a) as [[b' t2]|] eqn:Hk; [|discriminate].
    intros [= <- <-]. exists a, t1, t2. auto.
  - intros (a & t1 & t2 & -> & Hk & ->). rewrite Hk. reflexivity.
Qed.

Lemma bind_None_r {E A B} (m : draw E A) (k : A -> draw E B) :
  (forall a, k a = None) -> bind m k = None.
Proof.
  intros H. unfold bind. destruct m as [[a t]|]; [rewrite H|]; reflexivity.
Qed.

(** ** writeLine: termination and the number of pixel writes *)

(** The scan of writeLine runs to completion when its upper bound [x1] is
    below [INT16_MAX]; it then writes one pixel per value of [x0]. *)
Lemma writeLine_loop_count (n : nat) :
  forall fuel steep x1 dx dy ystep c x0 y0 err,
    -32768 <= x0 -> x1 < 32767 -> x0 <= x1 + 1 ->
    n = Z.to_nat (x1 - x0 + 1) -> (n < fuel)%nat ->
    exists t,
      writeLine_loop fuel steep x1 dx dy ystep c x0 y0 err = Some (tt, t) /\
      length t = n /\ Forall is_pixel t.
Proof.
  induction n as [|n IH]; intros fuel steep x1 dx dy ystep c x0 y0 err Hlo Hhi Hle Hn Hf.
  - destruct fuel as [|fuel]; [lia|]. cbn [writeLine_loop].
    replace (x0 <=? x1) with false by (symmetry; apply Z.leb_gt; lia).
    exists []. repeat split; constructor.
  - destruct fuel as [|fuel]; [lia|]. cbn [writeLine_loop].
    replace (x0 <=? x1) with true by (symmetry; apply Z.leb_le; lia).
    rewrite (wrap16_id (x0 + 1)) by (unfold int16; lia).
    set (err1 := wrap16 (err - dy)).
    destruct (err1 <? 0);
      match goal with
      | |- context [writeLine_loop fuel steep x1 dx dy ystep c (x0 + 1) ?y ?e] =>
          destruct (IH fuel steep x1 dx dy ystep c (x0 + 1) y e)
            as (t & Ht & Hlen & Hpix); try lia
      end;
      destruct steep; unfold writePixel, drawPixel; rewrite bind_emit, Ht;
      eexists; (split; [reflexivity|]); split;
      try (cbn [length]; congruence); constructor; simpl; auto.
Qed.

(** With [x1 = INT16_MAX] the test [x0 <= x1] never fails: the scan does not
    end, whatever the fuel. *)
Lemma writeLine_loop_diverges (fuel : nat) :
  forall steep dx dy ystep c x0 y0 err,
    int16 x0 ->
    writeLine_loop fuel steep 32767 dx dy ystep c x0 y0 err = None.
Proof.
  induction fuel as [|fuel IH]; intros steep dx dy ystep c x0 y0 err Hx; [reflexivity|].
  cbn [writeLine_loop].
  replace (x0 <=? 32767) with true by (symmetry; apply Z.leb_le; unfold int16 in Hx; lia).
  apply bind_None_r. intros _.
  destruct (wrap16 (err - dy) <? 0); apply IH, wrap16_int16.
Qed.

Lemma writeLine_count (fuel : nat) (x0 y0 x1 y1 c : Z) :
  int16 x0 -> int16 y0 -> int16 x1 -> int16 y1 ->
  major_end x0 y0 x1 y1 < 32767 ->
  65536 <= Z.of_nat fuel ->
  exists t,
    writeLine fuel x0 y0 x1 y1 c = Some (tt, t) /\
    Z.of_nat (length t) = Z.max (Z.abs (x1 - x0)) (Z.abs (y1 - y0)) + 1 /\
    Forall is_pixel t.
Proof.
  unfold int16, major_end, writeLine. intros Hx0 Hy0 Hx1 Hy1 Hend Hfuel.
  destruct (Z.abs (y1 - y0) >? Z.abs (x1 - x0)) eqn:Hsteep;
    [apply Z.gtb_lt in Hsteep
    | rewrite Z.gtb_ltb in Hsteep; apply Z.ltb_ge in Hsteep].
  - destruct (y0 >? y1) eqn:Hswap;
      [apply Z.gtb_lt in Hswap | rewrite Z.gtb_ltb in Hswap; apply Z.ltb_ge in Hswap];
      match goal with
      | |- context [writeLine_loop fuel ?s ?b ?dx ?dy ?ys c ?a ?y ?e] =>
          destruct (writeLine_loop_count (Z.to_nat (b - a + 1)) fuel s b dx dy ys c a y e)
            as (t & Ht & Hlen & Hpix); try lia
      end; exists t; (split; [exact Ht|]); (split; [|exact Hpix]);
      rewrite Hlen; lia.
  - destruct (x0 >? x1) eqn:Hswap;
      [apply Z.gtb_lt in Hswap | rewrite Z.gtb_ltb in Hswap; apply Z.ltb_ge in Hswap];
      match goal with
      | |- context [writeLine_loop fuel ?s ?b ?dx ?dy ?ys c ?a ?y ?e] =>
          destruct (writeLine_loop_count (Z.to_nat (b - a + 1)) fuel s b dx dy ys c a y e)
            as (t & Ht & Hlen & Hpix); try lia
      end; exists t; (split; [exact Ht|]); (split; [|exact Hpix]);
      rewrite Hlen; lia.
Qed.

Lemma writeLine_diverges (fuel : nat) (x0 y0 x1 y1 c : Z) :
  int16 x0 -> int16 y0 -> int16 x1 -> int16 y1 ->
  major_end x0 y0 x1 y1 = 32767 ->
  writeLine fuel x0 y0 x1 y1 c = None.
Proof.
  unfold int16, major_end, writeLine. intros Hx0 Hy0 Hx1 Hy1 Hend.
  destruct (Z.abs (y1 - y0) >? Z.abs (x1 - x0)).
  - destruct (y0 >? y1) eqn:Hswap;
      [apply Z.gtb_lt in Hswap | rewrite Z.gtb_ltb in Hswap; apply Z.ltb_ge in Hswap].
    + replace y0 with 32767 by lia. apply writeLine_loop_diverges. unfold int16; lia.
    + replace y1 with 32767 by lia. apply writeLine_loop_diverges. unfold int16; lia.
  - destruct (x0 >? x1) eqn:Hswap;
      [apply Z.gtb_lt in Hswap | rewrite Z.gtb_ltb in Hswap; apply Z.ltb_ge in Hswap].
    + replace x0 with 32767 by lia. apply writeLine_loop_diverges. unfold int16; lia.
    + replace x1 with 32767 by lia. apply writeLine_loop_diverges. unfold int16; lia.
Qed.

Lemma writeLine_loop_row (n : nat) :
  forall fuel x1 dx ystep c x0 y0 err,
    0 <= err <= 32767 ->
    -32768 <= x0 -> x1 < 32767 -> x0 <= x1 + 1 ->
    n = Z.to_nat (x1 - x0 + 1) -> (n < fuel)%nat ->
    writeLine_loop fuel false x1 dx 0 ystep c x0 y0 err
    = Some (tt, row_pixels n x0 y0 c).
Proof.
  induction n as [|n IH]; intros fuel x1 dx ystep c x0 y0 err He Hlo Hhi Hle Hn Hf.
  - destruct fuel as [|fuel]; [lia|]. cbn [writeLine_loop].
    replace (x0 <=? x1) with false by (symmetry; apply Z.leb_gt; lia).
    reflexivity.
  - destruct fuel as [|fuel]; [lia|]. cbn [writeLine_loop row_pixels].
    replace (x0 <=? x1) with true by (symmetry; apply Z.leb_le; lia).
    rewrite (wrap16_id (x0 + 1)) by (unfold int16; lia).
    rewrite Z.sub_0_r, (wrap16_id err) by (unfold int16; lia).
    replace (err <? 0) with false by (symmetry; apply Z.ltb_ge; lia).
    unfold writePixel, drawPixel. rewrite bind_emit.
    rewrite (IH fuel x1 dx ystep c (x0 + 1) y0 err) by lia.
    reflexivity.
Qed.

(** A line along a row, drawn left to right, is that row's pixels. *)
Lemma writeLine_row (fuel : nat) (x0 x1 y c : Z) :
  int16 x0 -> x0 <= x1 -> x1 - x0 <= 32767 -> x1 < 32767 ->
  65536 <= Z.of_nat fuel ->
  writeLine fuel x0 y x1 y c
  = Some (tt, row_pixels (Z.to_nat (x1 - x0 + 1)) x0 y c).
Proof.
  unfold int16, writeLine. intros Hx0 Hle Hw Hx1 Hfuel.
  rewrite Z.sub_diag. cbn [Z.abs].
  replace (0 >? Z.abs (x1 - x0)) with false by (symmetry; rewrite Z.gtb_ltb; apply Z.ltb_ge; lia).
  replace (x0 >? x1) with false by (symmetry; rewrite Z.gtb_ltb; apply Z.ltb_ge; lia).
  rewrite Z.sub_diag. cbn [Z.abs].
  rewrite (wrap16_id (x1 - x0)) by (unfold int16; lia).
  replace (wrap16 0) with 0 by reflexivity.
  apply writeLine_loop_row; try lia.
  pose proof (Z.quot_pos (x1 - x0) 2 ltac:(lia) ltac:(lia)).
  assert (Z.quot (x1 - x0) 2 <= x1 - x0) by (apply Z.quot_le_upper_bound; lia).
  rewrite wrap16_id by (unfold int16; lia). lia.
Qed.

Lemma length_row_pixels n x y c : length (row_pixels n x y c) = n.
Proof. revert x; induction n; intros; cbn; auto. Qed.

Lemma In_row_pixels n : forall x y c e,
  In e (row_pixels n x y c) -> exists i, x <= i < x + Z.of_nat n /\ e = SetPixel i y c.
Proof.
  induction n as [|n IH]; intros x y c e; cbn [row_pixels In]; [tauto|].
  intros [<-|H].
  - exists x. split; [lia|reflexivity].
  - destruct (IH _ _ _ _ H) as (i & Hi & ->). exists i. split; [lia|reflexivity].
Qed.

Lemma writeLine_sym (fuel : nat) (x0 y0 x1 y1 c : Z) :
  writeLine fuel x0 y0 x1 y1 c = writeLine fuel x1 y1 x0 y0 c.
Proof.
  unfold writeLine.
  replace (Z.abs (y0 - y1)) with (Z.abs (y1 - y0)) by lia.
  replace (Z.abs (x0 - x1)) with (Z.abs (x1 - x0)) by lia.
  destruct (Z.abs (y1 - y0) >? Z.abs (x1 - x0)) eqn:Hsteep;
    [apply Z.gtb_lt in Hsteep
    | rewrite Z.gtb_ltb in Hsteep; apply Z.ltb_ge in Hsteep].
  - destruct (y0 >? y1) eqn:H01, (y1 >? y0) eqn:H10; rewrite ?Z.gtb_ltb in *;
      rewrite ?Z.ltb_lt, ?Z.ltb_ge in *; try lia; reflexivity.
  - destruct (x0 >? x1) eqn:H01, (x1 >? x0) eqn:H10; rewrite ?Z.gtb_ltb in *;
      rewrite ?Z.ltb_lt, ?Z.ltb_ge in *; try lia; try reflexivity.
    assert (x0 = x1) by lia. assert (y0 = y1) by lia. subst. reflexivity.
Qed.

(** ** The fast lines and drawRect *)

(** drawFastHLine and drawFastVLine have no test on the length: they are
    writeLine to the far end [start + len - 1], whichever side it lies on. *)
Lemma drawFastHLine_count (fuel : nat) (x y w c : Z) :
  scannable x -> int16 y -> scannable (wrap16 (x + w - 1)) ->
  65536 <= Z.of_nat fuel ->
  exists t,
    drawFastHLine fuel x y w c = Some (tt, t) /\
    Z.of_nat (length t) = Z.abs (wrap16 (x + w - 1) - x) + 1 /\
    Forall is_pixel t.
Proof.
  unfold scannable, drawFastHLine. intros Hx Hy Hx1 Hfuel.
  destruct (writeLine_count fuel x y (wrap16 (x + w - 1)) y c)
    as (t & Ht & Hlen & Hpix); unfold int16 in *; try lia.
  - unfold major_end. rewrite Z.sub_diag. cbn [Z.abs].
    replace (0 >? Z.abs (wrap16 (x + w - 1) - x)) with false
      by (symmetry; rewrite Z.gtb_ltb; apply Z.ltb_ge; lia).
    lia.
  - exists t. repeat split; auto. rewrite Hlen, Z.sub_diag. lia.
Qed.

Lemma drawFastVLine_count (fuel : nat) (x y h c : Z) :
  scannable x -> scannable y -> scannable (wrap16 (y + h - 1)) ->
  65536 <= Z.of_nat fuel ->
  exists t,
    drawFastVLine fuel x y h c = Some (tt, t) /\
    Z.of_nat (length t) = Z.abs (wrap16 (y + h - 1) - y) + 1 /\
    Forall is_pixel t.
Proof.
  unfold scannable, drawFastVLine. intros Hx Hy Hy1 Hfuel.
  destruct (writeLine_count fuel x y x (wrap16 (y + h - 1)) c)
    as (t & Ht & Hlen & Hpix); unfold int16 in *; try lia.
  - unfold major_end. destruct (_ >? _); lia.
  - exists t. repeat split; auto. rewrite Hlen, Z.sub_diag. lia.
Qed.

(** C1 (as amended).  drawRect and the fast lines have no guard for a width
    or height that is zero or negative: drawFastHLine (x, y, w) is the line
    from (x, y) to (x + w - 1, y) and writes |w - 1| + 1 pixels (2 - w of
    them when w <= 0), drawFastVLine likewise, and drawRect writes
    2 (|w - 1| + 1) + 2 (|h - 1| + 1) pixels, provided the edges stay on
    coordinates the 16-bit scan can count past. *)
Theorem drawRect_degenerate_draws (fuel : nat) (x y w h c : Z) :
  w <= 0 \/ h <= 0 ->
  scannable x -> scannable y ->
  scannable (x + w - 1) -> scannable (y + h - 1) ->
  65536 <= Z.of_nat fuel ->
  exists th tv t,
    drawFastHLine fuel x y w c = Some (tt, th) /\
    Z.of_nat (length th) = Z.abs (w - 1) + 1 /\
    drawFastVLine fuel x y h c = Some (tt, tv) /\
    Z.of_nat (length tv) = Z.abs (h - 1) + 1 /\
    drawRect fuel x y w h c = Some (tt, t) /\
    Z.of_nat (length t) = 2 * (Z.abs (w - 1) + 1) + 2 * (Z.abs (h - 1) + 1) /\
    Forall is_pixel t /\ t <> [].
Proof.
  intros _ Hx Hy Hx1 Hy1 Hfuel.
  assert (Hy' : int16 y) by (unfold scannable, int16 in *; lia).
  assert (Wx : wrap16 (x + w - 1) = x + w - 1)
    by (apply wrap16_id; unfold scannable, int16 in *; lia).
  assert (Wy : wrap16 (y + h - 1) = y + h - 1)
    by (apply wrap16_id; unfold scannable, int16 in *; lia).
  assert (Hx1' : scannable (wrap16 (x + w - 1))) by (rewrite Wx; exact Hx1).
  assert (Hy1' : scannable (wrap16 (y + h - 1))) by (rewrite Wy; exact Hy1).
  destruct (drawFastHLine_count fuel x y w c Hx Hy' Hx1' Hfuel) as (t1 & E1 & L1 & P1).
  destruct (drawFastHLine_count fuel x (wrap16 (y + h - 1)) w c Hx
              (wrap16_int16 _) Hx1' Hfuel) as (t2 & E2 & L2 & P2).
  destruct (drawFastVLine_count fuel x y h c Hx Hy Hy1' Hfuel) as (t3 & E3 & L3 & P3).
  destruct (drawFastVLine_count fuel (wrap16 (x + w - 1)) y h c Hx1' Hy Hy1' Hfuel)
    as (t4 & E4 & L4 & P4).
  rewrite Wx in L1, L2. rewrite Wy in L3, L4.
  replace (x + w - 1 - x) with (w - 1) in * by lia.
  replace (y + h - 1 - y) with (h - 1) in * by lia.
  exists t1, t3, (t1 ++ t2 ++ t3 ++ t4).
  unfold drawRect. rewrite E1, E2, E3, E4. cbn [bind].
  repeat split; auto.
  - rewrite !length_app. lia.
  - repeat (apply Forall_app; split); auto.
  - destruct t1; [cbn in L1; lia | discriminate].
Qed.

Lemma drawRect_degenerate_draws_witness :
  (0 <= 0 \/ 0 <= 0) /\
  exists th tv t,
    drawFastHLine (Z.to_nat 65536) 5 5 0 7 = Some (tt, th) /\
    Z.of_nat (length th) = Z.abs (0 - 1) + 1 /\
    drawFastVLine (Z.to_nat 65536) 5 5 0 7 = Some (tt, tv) /\
    Z.of_nat (length tv) = Z.abs (0 - 1) + 1 /\
    drawRect (Z.to_nat 65536) 5 5 0 0 7 = Some (tt, t) /\
    Z.of_nat (length t) = 2 * (Z.abs (0 - 1) + 1) + 2 * (Z.abs (0 - 1) + 1) /\
    Forall is_pixel t /\ t <> [].
Proof.
  split; [left; lia|].
  apply (drawRect_degenerate_draws (Z.to_nat 65536) 5 5 0 0 7);
    unfold scannable; lia.
Defined.

(** C1 as stated fails: a rectangle of width 0 and height 0 at (5,5) is
    drawn as four two-pixel lines, and a fast horizontal line of width 0 as
    the two pixels (4,5) and (5,5). *)
Lemma drawRect_zero_size_counterexample :
  drawRect 3 5 5 0 0 7
  = Some (tt, [SetPixel 4 5 7; SetPixel 5 5 7; SetPixel 4 4 7; SetPixel 5 4 7;
               SetPixel 5 4 7; SetPixel 5 5 7; SetPixel 4 4 7; SetPixel 4 5 7]) /\
  drawFastHLine 3 5 5 0 7 = Some (tt, [SetPixel 4 5 7; SetPixel 5 5 7]) /\
  drawRect 3 5 5 0 0 7 <> Some (tt, []).
Proof. split; [reflexivity | split; [reflexivity | discriminate]]. Qed.

(** C2 (as amended).  writeLine writes exactly max (|x1-x0|, |y1-y0|) + 1
    pixels whenever the far end of the major axis is below 32767 (at 32767
    the loop test [x0 <= x1] cannot fail); for 0 <= dx < 32767 the line from
    (0,0) to (dx,0) is the dx+1 pixels (0,0) ... (dx,0). *)
Theorem writeLine_pixel_count :
  (forall fuel x0 y0 x1 y1 c,
      int16 x0 -> int16 y0 -> int16 x1 -> int16 y1 ->
      major_end x0 y0 x1 y1 < 32767 ->
      65536 <= Z.of_nat fuel ->
      exists t,
        writeLine fuel x0 y0 x1 y1 c = Some (tt, t) /\
        Z.of_nat (length t) = Z.max (Z.abs (x1 - x0)) (Z.abs (y1 - y0)) + 1 /\
        Forall is_pixel t) /\
  (forall fuel dx c,
      0 <= dx < 32767 ->
      65536 <= Z.of_nat fuel ->
      exists t,
        writeLine fuel 0 0 dx 0 c = Some (tt, t) /\
        Z.of_nat (length t) = dx + 1 /\
        forall e, In e t -> exists x, 0 <= x <= dx /\ e = SetPixel x 0 c).
Proof.
  split.
  - intros. apply writeLine_count; assumption.
  - intros fuel dx c Hdx Hfuel.
    exists (row_pixels (Z.to_nat (dx - 0 + 1)) 0 0 c). split; [|split].
    + apply writeLine_row; unfold int16; lia.
    + rewrite length_row_pixels. lia.
    + intros e He. apply In_row_pixels in He. destruct He as (i & Hi & ->).
      exists i. split; [lia|reflexivity].
Qed.

Lemma writeLine_pixel_count_witness :
  (exists t,
      writeLine (Z.to_nat 65536) 0 0 5 2 7 = Some (tt, t) /\
      Z.of_nat (length t) = Z.max (Z.abs (5 - 0)) (Z.abs (2 - 0)) + 1 /\
      Forall is_pixel t) /\
  (exists t,
      writeLine (Z.to_nat 65536) 0 0 9 0 7 = Some (tt, t) /\
      Z.of_nat (length t) = 9 + 1 /\
      forall e, In e t -> exists x, 0 <= x <= 9 /\ e = SetPixel x 0 7).
Proof.
  split.
  - apply (proj1 writeLine_pixel_count (Z.to_nat 65536) 0 0 5 2 7);
      unfold int16, major_end; cbn; lia.
  - apply (proj2 writeLine_pixel_count (Z.to_nat 65536) 9 7); lia.
Defined.

(** C2 as stated fails: the line from (0,0) to (32767,0) never ends, so it
    does not write exactly 32768 pixels. *)
Lemma writeLine_pixel_count_counterexample :
  ~ (exists fuel t,
        writeLine fuel 0 0 32767 0 7 = Some (tt, t) /\
        Z.of_nat (length t) = Z.max (Z.abs (32767 - 0)) (Z.abs (0 - 0)) + 1).
Proof.
  intros (fuel & t & H & _).
  rewrite writeLine_diverges in H; [discriminate | unfold int16; lia ..| reflexivity].
Qed.

(** C3.  drawLine issues the same pixel writes, in the same order, for the
    two orders of its endpoints, with any fuel; with every coordinate below
    32767 both calls run to completion. *)
Theorem drawLine_reversible (x0 y0 x1 y1 c : Z) :
  (forall fuel, drawLine fuel x0 y0 x1 y1 c = drawLine fuel x1 y1 x0 y0 c) /\
  (scannable x0 -> scannable y0 -> scannable x1 -> scannable y1 ->
   forall fuel, 65536 <= Z.of_nat fuel ->
   exists t,
     drawLine fuel x0 y0 x1 y1 c = Some (tt, t) /\
     drawLine fuel x1 y1 x0 y0 c = Some (tt, t) /\
     Forall is_pixel t /\ t <> []).
Proof.
  assert (Hsym : forall fuel, drawLine fuel x0 y0 x1 y1 c = drawLine fuel x1 y1 x0 y0 c).
  { intros fuel. unfold drawLine.
    rewrite (Z.eqb_sym x1 x0), (Z.eqb_sym y1 y0).
    destruct (x0 =? x1) eqn:Hx; [apply Z.eqb_eq in Hx; subst x1|].
    - destruct (y0 >? y1) eqn:H01, (y1 >? y0) eqn:H10; rewrite ?Z.gtb_ltb in *;
        rewrite ?Z.ltb_lt, ?Z.ltb_ge in *; try lia; try reflexivity.
      assert (y0 = y1) by lia. subst. reflexivity.
    - destruct (y0 =? y1) eqn:Hy; [apply Z.eqb_eq in Hy; subst y1|].
      + destruct (x0 >? x1) eqn:H01, (x1 >? x0) eqn:H10; rewrite ?Z.gtb_ltb in *;
          rewrite ?Z.ltb_lt, ?Z.ltb_ge in *; try lia; reflexivity.
      + apply writeLine_sym. }
  split; [exact Hsym|].
  intros Hx0 Hy0 Hx1 Hy1 fuel Hfuel.
  rewrite <- Hsym.
  cut (exists t, drawLine fuel x0 y0 x1 y1 c = Some (tt, t) /\
                 Z.of_nat (length t) >= 1 /\ Forall is_pixel t).
  { intros (t & Ht & Hlen & Hpix). exists t. repeat split; auto.
    destruct t; [cbn in Hlen; lia | discriminate]. }
  assert (Hspan : forall a b, -32768 <= a <= b -> b <= 32766 ->
                          scannable (wrap16 (a + wrap16 (b - a + 1) - 1))).
  { intros a b Ha Hb. rewrite span_end; unfold scannable, int16; lia. }
  unfold drawLine.
  destruct (x0 =? x1) eqn:Hx; [apply Z.eqb_eq in Hx; subst x1|].
  - destruct (y0 >? y1) eqn:H01;
      [apply Z.gtb_lt in H01 | rewrite Z.gtb_ltb in H01; apply Z.ltb_ge in H01].
    + destruct (drawFastVLine_count fuel x0 y1 (wrap16 (y0 - y1 + 1)) c)
        as (t & Ht & Hlen & Hpix); auto.
      { apply Hspan; unfold scannable in *; lia. }
      exists t. repeat split; auto. lia.
    + destruct (drawFastVLine_count fuel x0 y0 (wrap16 (y1 - y0 + 1)) c)
        as (t & Ht & Hlen & Hpix); auto.
      { apply Hspan; unfold scannable in *; lia. }
      exists t. repeat split; auto. lia.
  - destruct (y0 =? y1) eqn:Hy; [apply Z.eqb_eq in Hy; subst y1|].
    + assert (int16 y0) by (unfold scannable, int16 in *; lia).
      destruct (x0 >? x1) eqn:H01;
        [apply Z.gtb_lt in H01 | rewrite Z.gtb_ltb in H01; apply Z.ltb_ge in H01].
      * destruct (drawFastHLine_count fuel x1 y0 (wrap16 (x0 - x1 + 1)) c)
          as (t & Ht & Hlen & Hpix); auto.
        { apply Hspan; unfold scannable in *; lia. }
        exists t. repeat split; auto. lia.
      * destruct (drawFastHLine_count fuel x0 y0 (wrap16 (x1 - x0 + 1)) c)
          as (t & Ht & Hlen & Hpix); auto.
        { apply Hspan; unfold scannable in *; lia. }
        exists t. repeat split; auto. lia.
    + destruct (writeLine_count fuel x0 y0 x1 y1 c) as (t & Ht & Hlen & Hpix);
        unfold scannable, int16 in *; try lia.
      { unfold major_end. destruct (_ >? _); lia. }
      exists t. repeat split; auto. lia.
Qed.

Lemma drawLine_reversible_witness :
  exists t,
    drawLine (Z.to_nat 65536) 0 0 5 2 7 = Some (tt, t) /\
    drawLine (Z.to_nat 65536) 5 2 0 0 7 = Some (tt, t) /\
    Forall is_pixel t /\ t <> [].
Proof.
  apply (proj2 (drawLine_reversible 0 0 5 2 7)); unfold scannable; lia.
Defined.

(** ** The midpoint recurrence *)

Ltac wrap16_arith := unfold wrap16; Z.div_mod_to_equations; lia.

(** Finds a pixel in a list written out, up to 16-bit arithmetic. *)
Ltac pick_pixel :=
  first [ left; f_equal; wrap16_arith | right; pick_pixel ].

(** While [x < y] a step moves [x] up by one and [y] down by at most one,
    without wrapping. *)
Lemma midpoint_next_x (m : midpoint) :
  int16 (mp_y m) -> mp_x m < mp_y m -> -32768 <= mp_x m ->
  mp_x (midpoint_next m) = mp_x m + 1.
Proof.
  unfold midpoint_next, int16. intros Hy Hlt Hx.
  destruct (mp_f m >=? 0); cbn [mp_x]; apply wrap16_id; unfold int16; lia.
Qed.

Lemma midpoint_next_y (m : midpoint) :
  int16 (mp_y m) -> mp_x m < mp_y m -> -32768 <= mp_x m ->
  mp_y (midpoint_next m) = mp_y m \/ mp_y (midpoint_next m) = mp_y m - 1.
Proof.
  unfold midpoint_next, int16. intros Hy Hlt Hx.
  destruct (mp_f m >=? 0); cbn [mp_y]; [right|left; reflexivity].
  apply wrap16_id; unfold int16; lia.
Qed.

Lemma drawCircle_plot_octants (x0 y0 x y c : Z) :
  drawCircle_plot x0 y0 x y c = Some (tt, octants x0 y0 x y c).
Proof. reflexivity. Qed.

(** The loop of drawCircle ends within [y - x] iterations, and its trace is
    made of complete groups of eight points, at offsets between 0 and the
    radius. *)
Lemma drawCircle_loop_octants (n : nat) :
  forall x0 y0 c r m,
    mp_y m <= r <= 32767 -> 0 <= mp_x m ->
    mp_y m - mp_x m <= Z.of_nat n ->
    exists t,
      (forall fuel, (n < fuel)%nat -> drawCircle_loop fuel x0 y0 c m = Some (tt, t)) /\
      forall e, In e t ->
        exists x y,
          0 <= x <= r /\ 0 <= y <= r /\
          In e (octants x0 y0 x y c) /\ incl (octants x0 y0 x y c) t.
Proof.
  induction n as [|n IH]; intros x0 y0 c r m Hy Hx Hn.
  - exists []. split; [|intros e []].
    intros [|fuel] Hf; [lia|]. cbn [drawCircle_loop].
    replace (mp_x m <? mp_y m) with false by (symmetry; apply Z.ltb_ge; lia).
    reflexivity.
  - destruct (mp_x m <? mp_y m) eqn:Hlt.
    + apply Z.ltb_lt in Hlt.
      assert (Hy16 : int16 (mp_y m)) by (unfold int16; lia).
      pose proof (midpoint_next_x m Hy16 Hlt ltac:(lia)) as Hx'.
      pose proof (midpoint_next_y m Hy16 Hlt ltac:(lia)) as Hy'.
      destruct (IH x0 y0 c r (midpoint_next m)) as (t & Ht & Hoct).
      { destruct Hy' as [-> | ->]; lia. }
      { lia. }
      { destruct Hy' as [-> | ->]; lia. }
      exists (octants x0 y0 (mp_x (midpoint_next m)) (mp_y (midpoint_next m)) c ++ t).
      split.
      * intros [|fuel] Hf; [lia|]. cbn [drawCircle_loop].
        rewrite (proj2 (Z.ltb_lt _ _) Hlt), drawCircle_plot_octants.
        cbn [bind]. rewrite Ht by lia. reflexivity.
      * intros e He. apply in_app_or in He. destruct He as [He|He].
        -- exists (mp_x (midpoint_next m)), (mp_y (midpoint_next m)).
           split; [lia|]. split; [destruct Hy' as [-> | ->]; lia|].
           split; [exact He|]. apply incl_appl, incl_refl.
        -- destruct (Hoct e He) as (x & y & Bx & By & Hin & Hincl).
           exists x, y. repeat split; try lia; [exact Hin|]. apply incl_appr, Hincl.
    + exists []. split; [|intros e []].
      intros [|fuel] Hf; [lia|]. cbn [drawCircle_loop]. rewrite Hlt. reflexivity.
Qed.

(** A group of eight points is closed under the three reflections. *)
Lemma octants_symmetric (x0 y0 x y c : Z) :
  symmetric_about x0 y0 (octants x0 y0 x y c).
Proof.
  intros e He. unfold octants in *. cbn [In] in He.
  repeat (destruct He as [<- | He]); try contradiction;
    cbn [mirror_x mirror_y swap_xy In];
    repeat split; pick_pixel.
Qed.

(** The eight points are pixels of the color asked for, within the offsets
    from the center. *)
Lemma octants_pixels (x0 y0 x y c : Z) e :
  In e (octants x0 y0 x y c) ->
  exists px py,
    e = SetPixel px py c /\
    (px = wrap16 (x0 + x) \/ px = wrap16 (x0 - x) \/
     px = wrap16 (x0 + y) \/ px = wrap16 (x0 - y)) /\
    (py = wrap16 (y0 + x) \/ py = wrap16 (y0 - x) \/
     py = wrap16 (y0 + y) \/ py = wrap16 (y0 - y)).
Proof.
  unfold octants. cbn [In]. intros H.
  repeat (destruct H as [<- | H]); try contradiction;
    eexists; eexists; (split; [reflexivity|]); tauto.
Qed.

(** C4.  For a radius r >= 0 drawCircle runs to completion and the pixel
    writes it issues are closed under the reflection across the vertical
    axis through the center, the reflection across the horizontal axis
    through the center, and the swap of the center-relative coordinates.
    The coordinates being 16-bit, the reflections are taken modulo 2^16;
    when the square around the circle fits in the 16-bit range they are the
    plain maps x -> 2 x0 - x, y -> 2 y0 - y and
    (x, y) -> (x0 + (y - y0), y0 + (x - x0)). *)
Theorem drawCircle_symmetric (x0 y0 r c : Z) :
  int16 x0 -> int16 y0 -> int16 r -> 0 <= r ->
  exists t,
    (forall fuel, r < Z.of_nat fuel -> drawCircle fuel x0 y0 r c = Some (tt, t)) /\
    Forall is_pixel t /\
    symmetric_about x0 y0 t /\
    (int16 (x0 - r) -> int16 (x0 + r) -> int16 (y0 - r) -> int16 (y0 + r) ->
     forall x y c', In (SetPixel x y c') t ->
       In (SetPixel (2 * x0 - x) y c') t /\
       In (SetPixel x (2 * y0 - y) c') t /\
       In (SetPixel (x0 + (y - y0)) (y0 + (x - x0)) c') t).
Proof.
  intros Hx0 Hy0 Hr Hr0.
  destruct (drawCircle_loop_octants (Z.to_nat r) x0 y0 c r (midpoint_init r))
    as (t & Ht & Hoct); cbn [midpoint_init mp_x mp_y];
    try (unfold int16 in *; lia).
  set (axes := [SetPixel x0 (wrap16 (y0 + r)) c; SetPixel x0 (wrap16 (y0 - r)) c;
                SetPixel (wrap16 (x0 + r)) y0 c; SetPixel (wrap16 (x0 - r)) y0 c]).
  assert (Hsym : symmetric_about x0 y0 (axes ++ t)).
  { intros e He. apply in_app_or in He. destruct He as [He|He].
    + unfold int16 in *. unfold axes in *. cbn [In] in He.
      repeat (destruct He as [<- | He]); try contradiction;
        cbn [mirror_x mirror_y swap_xy];
        repeat split; apply in_or_app; left; cbn [In]; pick_pixel.
    + destruct (Hoct e He) as (x & y & _ & _ & Hin & Hincl).
      destruct (octants_symmetric x0 y0 x y c e Hin) as (H1 & H2 & H3).
      repeat split; apply in_or_app; right; apply Hincl; assumption. }
  assert (Hbox : int16 (x0 - r) -> int16 (x0 + r) -> int16 (y0 - r) -> int16 (y0 + r) ->
                 forall x y c', In (SetPixel x y c') (axes ++ t) ->
                   x0 - r <= x <= x0 + r /\ y0 - r <= y <= y0 + r).
  { unfold int16 in *. intros B1 B2 B3 B4 x y c' He.
    apply in_app_or in He. destruct He as [He|He].
    + unfold axes in He. cbn [In] in He.
      repeat (destruct He as [He | He]); try contradiction;
        injection He as <- <- _; rewrite ?wrap16_id by (unfold int16; lia); lia.
    + destruct (Hoct _ He) as (a & b & Ba & Bb & Hin & _).
      apply octants_pixels in Hin.
      destruct Hin as (px & py & [= -> -> _] & Hpx & Hpy).
      rewrite !wrap16_id in Hpx, Hpy by (unfold int16; lia). lia. }
  exists (axes ++ t). split; [|split; [|split]].
  - intros fuel Hf. unfold drawCircle, writePixel, drawPixel.
    rewrite !bind_emit, Ht by lia. reflexivity.
  - apply Forall_forall. intros e He. apply in_app_or in He. destruct He as [He|He].
    + unfold axes in He. cbn [In] in He.
      repeat (destruct He as [<- | He]); try contradiction; exact I.
    + destruct (Hoct e He) as (x & y & _ & _ & Hin & _).
      apply octants_pixels in Hin. destruct Hin as (px & py & -> & _). exact I.
  - exact Hsym.
  - intros B1 B2 B3 B4 x y c' He.
    destruct (Hbox B1 B2 B3 B4 x y c' He) as [Bx By].
    destruct (Hsym _ He) as (H1 & H2 & H3). cbn [mirror_x mirror_y swap_xy] in *.
    unfold int16 in *.
    rewrite wrap16_id in H1 by (unfold int16; lia).
    rewrite wrap16_id in H2 by (unfold int16; lia).
    rewrite !wrap16_id in H3 by (unfold int16; lia).
    auto.
Qed.

Lemma drawCircle_symmetric_witness :
  exists t,
    (forall fuel, 3 < Z.of_nat fuel -> drawCircle fuel 10 20 3 7 = Some (tt, t)) /\
    Forall is_pixel t /\
    symmetric_about 10 20 t /\
    (int16 (10 - 3) -> int16 (10 + 3) -> int16 (20 - 3) -> int16 (20 + 3) ->
     forall x y c', In (SetPixel x y c') t ->
       In (SetPixel (2 * 10 - x) y c') t /\
       In (SetPixel x (2 * 20 - y) c') t /\
       In (SetPixel (10 + (y - 20)) (20 + (x - 10)) c') t).
Proof.
  apply (drawCircle_symmetric 10 20 3 7); unfold int16; lia.
Defined.

(** ** fillCircleHelper: the spans *)

Lemma midpoint_iter_next (k : nat) (m : midpoint) :
  midpoint_iter k (midpoint_next m) = midpoint_iter (S k) m.
Proof.
  unfold midpoint_iter. symmetry. apply Nat.iter_succ_r.
Qed.

(** The spans recorded for one guarded pair of drawFastVLine calls. *)
Lemma when_pair_spans (b b1 b2 : bool) (xa xb y len c : Z) :
  when b (when b1 (record_span xa y len c) ;; when b2 (record_span xb y len c))
  = Some (tt, if b then (if b1 then [Span xa y len] else []) ++
                        (if b2 then [Span xb y len] else [])
              else []).
Proof. destruct b, b1, b2; reflexivity. Qed.

Lemma In_pair_spans (b b1 b2 : bool) (xa xb y len : Z) (s : span) :
  In s (if b then (if b1 then [Span xa y len] else []) ++
                  (if b2 then [Span xb y len] else [])
        else []) ->
  b = true /\ (span_x s = xa \/ span_x s = xb) /\ span_y s = y /\ span_len s = len.
Proof.
  destruct b, b1, b2; cbn [In app]; intros H;
    repeat (destruct H as [<- | H]); try contradiction; cbn; auto.
Qed.

Lemma fillCircleHelper_loop_spans (n : nat) :
  forall x0 y0 corners delta c m,
    int16 (mp_y m) -> -32768 <= mp_x m ->
    mp_y m - mp_x m <= Z.of_nat n ->
    exists spans,
      (forall fuel, (n < fuel)%nat ->
         fillCircleHelper_loop record_span fuel x0 y0 corners (wrap16 (delta + 1)) c
           m (mp_x m) (mp_y m) = Some (tt, spans)) /\
      forall s, In s spans ->
        exists k,
          (forall j, (j <= k)%nat -> mp_x (midpoint_iter j m) < mp_y (midpoint_iter j m)) /\
          span_of_step x0 y0 delta (midpoint_iter k m) s.
Proof.
  induction n as [|n IH]; intros x0 y0 corners delta c m Hy Hx Hn.
  - exists []. split; [|intros e []].
    intros [|fuel] Hf; [lia|]. cbn [fillCircleHelper_loop].
    replace (mp_x m <? mp_y m) with false by (symmetry; apply Z.ltb_ge; lia).
    reflexivity.
  - destruct (mp_x m <? mp_y m) eqn:Hlt.
    + apply Z.ltb_lt in Hlt.
      pose proof (midpoint_next_x m Hy Hlt Hx) as Hx'.
      pose proof (midpoint_next_y m Hy Hlt Hx) as Hy'.
      set (m' := midpoint_next m) in *.
      destruct (IH x0 y0 corners delta c m') as (rest & Hrest & Hshape).
      { unfold int16 in *. destruct Hy' as [-> | ->]; lia. }
      { lia. }
      { destruct Hy' as [-> | ->]; lia. }
      eexists. split.
      * intros [|fuel] Hf; [lia|]. cbn [fillCircleHelper_loop].
        rewrite (proj2 (Z.ltb_lt _ _) Hlt). fold m'.
        rewrite !when_pair_spans. cbn [bind].
        replace (if negb (mp_y m' =? mp_y m) then mp_y m' else mp_y m) with (mp_y m')
          by (destruct (mp_y m' =? mp_y m) eqn:E; cbn [negb];
              [apply Z.eqb_eq in E; congruence | reflexivity]).
        rewrite Hrest by lia. reflexivity.
      * intros s Hs. apply in_app_or in Hs. destruct Hs as [Hs|Hs];
          [|apply in_app_or in Hs; destruct Hs as [Hs|Hs]].
        -- apply In_pair_spans in Hs. destruct Hs as (Hb & Hcol & Hrow & Hlen).
           exists O. split.
           { intros j Hj. replace j with O by lia. exact Hlt. }
           left. change (midpoint_iter 0 m) with m. fold m'.
           apply Z.ltb_lt in Hb. split; [lia|].
           unfold column_span. rewrite Hrow, Hlen. repeat split; auto.
           rewrite wrap16_add_r. f_equal. lia.
        -- apply In_pair_spans in Hs. destruct Hs as (Hb & Hcol & Hrow & Hlen).
           exists O. split.
           { intros j Hj. replace j with O by lia. exact Hlt. }
           right. change (midpoint_iter 0 m) with m. fold m'.
           apply negb_true_iff, Z.eqb_neq in Hb. split; [exact Hb|].
           unfold column_span. rewrite Hrow, Hlen. repeat split; auto.
           rewrite wrap16_add_r. f_equal. lia.
        -- destruct (Hshape s Hs) as (k & Hruns & Hk).
           exists (S k). split.
           { intros [|j] Hj; [exact Hlt|].
             rewrite <- midpoint_iter_next. apply Hruns. lia. }
           rewrite <- midpoint_iter_next. exact Hk.
    + exists []. split; [|intros e []].
      intros [|fuel] Hf; [lia|]. cbn [fillCircleHelper_loop]. rewrite Hlt. reflexivity.
Qed.

Lemma bind_assoc {E A B C} (m : draw E A) (f : A -> draw E B) (g : B -> draw E C) :
  bind (bind m f) g = bind m (fun a => bind (f a) g).
Proof.
  unfold bind. destruct m as [[a t1]|]; [|reflexivity].
  destruct (f a) as [[b t2]|]; [|reflexivity].
  destruct (g b) as [[c t3]|]; [|reflexivity].
  rewrite app_assoc. reflexivity.
Qed.

Lemma bind_ret_r {E} (m : draw E unit) : bind m (fun _ => ret tt) = m.
Proof.
  unfold bind, ret. destruct m as [[[] t]|]; [|reflexivity].
  rewrite app_nil_r. reflexivity.
Qed.

Lemma drawFastVLines_app (fuel : nat) (c : Z) (l1 l2 : list span) :
  drawFastVLines fuel c (l1 ++ l2)
  = (drawFastVLines fuel c l1 ;; drawFastVLines fuel c l2).
Proof.
  induction l1 as [|s l1 IH]; cbn [app drawFastVLines].
  - rewrite bind_ret. reflexivity.
  - rewrite IH, bind_assoc. reflexivity.
Qed.

Lemma when_pair_lines (fuel : nat) (b b1 b2 : bool) (xa xb y len c : Z) :
  when b (when b1 (drawFastVLine fuel xa y len c) ;;
          when b2 (drawFastVLine fuel xb y len c))
  = drawFastVLines fuel c
      (if b then (if b1 then [Span xa y len] else []) ++
                 (if b2 then [Span xb y len] else [])
       else []).
Proof.
  destruct b, b1, b2; cbn [when app drawFastVLines span_x span_y span_len];
    rewrite ?bind_ret, ?bind_ret_r; reflexivity.
Qed.

(** fillCircleHelper paints exactly the spans that the recording run lists,
    in their order. *)
Lemma fillCircleHelper_loop_paints (fuel' : nat) (fuel : nat) :
  forall x0 y0 corners delta c m px py spans,
    fillCircleHelper_loop record_span fuel x0 y0 corners delta c m px py
    = Some (tt, spans) ->
    fillCircleHelper_loop (drawFastVLine fuel') fuel x0 y0 corners delta c m px py
    = drawFastVLines fuel' c spans.
Proof.
  induction fuel as [|fuel IH]; intros x0 y0 corners delta c m px py spans;
    [discriminate|].
  cbn [fillCircleHelper_loop].
  destruct (mp_x m <? mp_y m); [|intros [= <-]; reflexivity].
  rewrite !when_pair_spans, !when_pair_lines. cbn [bind].
  destruct (fillCircleHelper_loop record_span fuel _ _ _ _ _ _ _ _)
    as [[[] rest]|] eqn:Hrest; [|discriminate].
  intros [= <-].
  rewrite !drawFastVLines_app. rewrite (IH _ _ _ _ _ _ _ _ _ Hrest).
  reflexivity.
Qed.

(** C5 (as amended).  fillCircleHelper runs to completion, it paints the
    spans listed by its recording run, and each of them belongs to a step of
    the midpoint recurrence that the loop runs and is of one of two kinds: at
    the new x, 2*y + heightDelta + 1 long for the new y, emitted while
    x <= y whether or not the step changed y; or at the old y,
    2*x + heightDelta + 1 long for the old x, emitted when the step changed
    y. *)
Theorem fillCircleHelper_span_shapes (x0 y0 r corners delta c : Z) :
  int16 r ->
  exists spans,
    (forall fuel, Z.max 0 r < Z.of_nat fuel ->
       fillCircleHelper_spans fuel x0 y0 r corners delta c = Some (tt, spans) /\
       fillCircleHelper fuel x0 y0 r corners delta c = drawFastVLines fuel c spans) /\
    forall s, In s spans ->
      exists k,
        loop_runs r k /\
        span_of_step x0 y0 delta (midpoint_iter k (midpoint_init r)) s.
Proof.
  intros Hr.
  destruct (fillCircleHelper_loop_spans (Z.to_nat r) x0 y0 corners delta c
              (midpoint_init r)) as (spans & Hrun & Hshape);
    cbn [midpoint_init mp_x mp_y]; try lia; [exact Hr|].
  exists spans. split; [|exact Hshape].
  intros fuel Hf.
  assert (Hrec : fillCircleHelper_spans fuel x0 y0 r corners delta c = Some (tt, spans))
    by (apply Hrun; lia).
  split; [exact Hrec|].
  apply fillCircleHelper_loop_paints, Hrec.
Qed.

Lemma fillCircleHelper_span_shapes_witness :
  exists spans,
    (forall fuel, Z.max 0 4 < Z.of_nat fuel ->
       fillCircleHelper_spans fuel 0 0 4 1 0 7 = Some (tt, spans) /\
       fillCircleHelper fuel 0 0 4 1 0 7 = drawFastVLines fuel 7 spans) /\
    forall s, In s spans ->
      exists k,
        loop_runs 4 k /\
        span_of_step 0 0 0 (midpoint_iter k (midpoint_init 4)) s.
Proof.
  apply (fillCircleHelper_span_shapes 0 0 4 1 0 7); unfold int16; lia.
Defined.

(** C5 as stated fails for the right half of a circle of radius 4 at the
    origin: the first span, in column 1, is emitted on the first step, which
    leaves y at 4; and the third span, in column 4 and 3 long, is not at the
    x of any step the loop runs. *)
Lemma fillCircleHelper_spans_counterexample :
  fillCircleHelper_spans 5 0 0 4 1 0 7
  = Some (tt, [Span 1 (-4) 9; Span 2 (-3) 7; Span 4 (-1) 3; Span 3 (-3) 7]) /\
  ~ (exists k, loop_runs 4 k /\
               span_as_specified 0 0 0 (midpoint_iter k (midpoint_init 4))
                 (Span 1 (-4) 9)) /\
  ~ (exists k, loop_runs 4 k /\
               span_as_specified 0 0 0 (midpoint_iter k (midpoint_init 4))
                 (Span 4 (-1) 3)).
Proof.
  assert (Hk : forall k, loop_runs 4 k -> (k <= 2)%nat).
  { intros k Hruns. destruct (Nat.le_gt_cases k 2) as [H|H]; [exact H|].
    specialize (Hruns 3%nat ltac:(lia)). vm_compute in Hruns. discriminate. }
  split; [reflexivity|]. split.
  - intros (k & Hruns & Hcol & Hchg). apply Hk in Hruns.
    destruct k as [|[|[|k]]]; [| | |lia]; vm_compute in Hcol, Hchg;
      intuition congruence.
  - intros (k & Hruns & Hcol & Hchg). apply Hk in Hruns.
    destruct k as [|[|[|k]]]; [| | |lia]; vm_compute in Hcol, Hchg;
      intuition congruence.
Qed.

(** ** Rounded rectangles: the clamp of the corner radius *)

Lemma max_radius_int16 (w h : Z) : int16 (max_radius w h).
Proof. apply wrap16_int16. Qed.

(** For in-range sides the clamp bound is half the smaller side, rounded
    toward zero. *)
Lemma max_radius_quot (w h : Z) :
  int16 w -> int16 h -> max_radius w h = Z.quot (Z.min w h) 2.
Proof.
  unfold max_radius, int16. intros Hw Hh.
  replace (if w <? h then w else h) with (Z.min w h)
    by (destruct (w <? h) eqn:E; [apply Z.ltb_lt in E | apply Z.ltb_ge in E]; lia).
  apply wrap16_id. unfold int16.
  pose proof (Z.quot_rem' (Z.min w h) 2).
  pose proof (Z.rem_bound_abs (Z.min w h) 2 ltac:(lia)).
  lia.
Qed.

Lemma when_pixels (b : bool) (e1 e2 : sink_call) :
  is_pixel e1 -> is_pixel e2 ->
  exists t, when b (emit e1 ;; emit e2) = Some (tt, t) /\ Forall is_pixel t.
Proof.
  intros H1 H2. destruct b; cbn.
  - eexists. split; [reflexivity|]. repeat constructor; assumption.
  - eexists. split; [reflexivity|]. constructor.
Qed.

(** The loop of drawCircleHelper ends within [y - x] iterations. *)
Lemma drawCircleHelper_loop_complete (n : nat) :
  forall x0 y0 corner c m,
    int16 (mp_y m) -> -32768 <= mp_x m ->
    mp_y m - mp_x m <= Z.of_nat n ->
    forall fuel, (n < fuel)%nat ->
    exists t,
      drawCircleHelper_loop fuel x0 y0 corner c m = Some (tt, t) /\
      Forall is_pixel t.
Proof.
  induction n as [|n IH]; intros x0 y0 corner c m Hy Hx Hn fuel Hfuel;
    (destruct fuel as [|fuel]; [lia|]); cbn [drawCircleHelper_loop].
  - replace (mp_x m <? mp_y m) with false by (symmetry; apply Z.ltb_ge; lia).
    exists []. split; [reflexivity|constructor].
  - destruct (mp_x m <? mp_y m) eqn:Hlt;
      [|exists []; split; [reflexivity|constructor]].
    apply Z.ltb_lt in Hlt.
    pose proof (midpoint_next_x m Hy Hlt Hx) as Hx'.
    pose proof (midpoint_next_y m Hy Hlt Hx) as Hy'.
    set (m' := midpoint_next m) in *.
    destruct (IH x0 y0 corner c m') with (fuel := fuel) as (t & Ht & Hp).
    { unfold int16 in *. destruct Hy' as [-> | ->]; lia. }
    { lia. }
    { destruct Hy' as [-> | ->]; lia. }
    { lia. }
    rewrite Ht. unfold writePixel, drawPixel.
    repeat match goal with
           | |- context [when ?b (emit ?e1 ;; emit ?e2)] =>
               let t' := fresh "t" in
               let E := fresh "E" in
               let P := fresh "P" in
               destruct (when_pixels b e1 e2 I I) as (t' & E & P);
               rewrite E; clear E
           end.
    cbn [bind]. eexists. split; [reflexivity|].
    repeat (apply Forall_app; split; try assumption).
Qed.

Lemma drawCircleHelper_complete (fuel : nat) (x0 y0 r corner c : Z) :
  int16 r -> Z.max 0 r < Z.of_nat fuel ->
  exists t,
    drawCircleHelper fuel x0 y0 r corner c = Some (tt, t) /\ Forall is_pixel t.
Proof.
  intros Hr Hfuel. unfold drawCircleHelper.
  apply (drawCircleHelper_loop_complete (Z.to_nat r));
    cbn [midpoint_init mp_x mp_y]; try lia. exact Hr.
Qed.

(** A rounded rectangle with sides that are not negative, on small
    coordinates, is drawn in full whatever the radius asked for. *)
Lemma drawRoundRect_complete (fuel : nat) (x y w h r c : Z) :
  small x -> small y -> 0 <= w -> 0 <= h -> small (x + w) -> small (y + h) ->
  0 <= r -> 65536 <= Z.of_nat fuel ->
  exists t,
    drawRoundRect fuel x y w h r c = Some (tt, t) /\ Forall is_pixel t.
Proof.
  unfold small. intros Hx Hy Hw Hh Hxw Hyh Hr Hfuel.
  unfold drawRoundRect.
  rewrite (max_radius_quot w h) by (unfold int16; lia).
  set (r' := if r >? Z.quot (Z.min w h) 2 then Z.quot (Z.min w h) 2 else r).
  assert (Hr' : 0 <= r' /\ 2 * r' <= w /\ 2 * r' <= h).
  { assert (0 <= Z.quot (Z.min w h) 2) by (apply Z.quot_pos; lia).
    assert (2 * Z.quot (Z.min w h) 2 <= Z.min w h) by (apply Z.mul_quot_le; lia).
    unfold r'. destruct (r >? _) eqn:E;
      [|rewrite Z.gtb_ltb in E; apply Z.ltb_ge in E]; lia. }
  clearbody r'.
  assert (W : forall z, -32768 <= z <= 32767 -> wrap16 z = z)
    by (intros; apply wrap16_id; assumption).
  rewrite !W by lia.
  destruct (drawFastHLine_count fuel (x + r') y (w - 2 * r') c) as (t1 & E1 & _ & P1);
    unfold scannable, int16; rewrite ?W by lia; try lia.
  destruct (drawFastHLine_count fuel (x + r') (y + h - 1) (w - 2 * r') c)
    as (t2 & E2 & _ & P2);
    unfold scannable, int16; rewrite ?W by lia; try lia.
  destruct (drawFastVLine_count fuel x (y + r') (h - 2 * r') c) as (t3 & E3 & _ & P3);
    unfold scannable, int16; rewrite ?W by lia; try lia.
  destruct (drawFastVLine_count fuel (x + w - 1) (y + r') (h - 2 * r') c)
    as (t4 & E4 & _ & P4);
    unfold scannable, int16; rewrite ?W by lia; try lia.
  destruct (drawCircleHelper_complete fuel (x + r') (y + r') r' 1 c)
    as (t5 & E5 & P5); unfold int16; try lia.
  destruct (drawCircleHelper_complete fuel (x + w - r' - 1) (y + r') r' 2 c)
    as (t6 & E6 & P6); unfold int16; try lia.
  destruct (drawCircleHelper_complete fuel (x + w - r' - 1) (y + h - r' - 1) r' 4 c)
    as (t7 & E7 & P7); unfold int16; try lia.
  destruct (drawCircleHelper_complete fuel (x + r') (y + h - r' - 1) r' 8 c)
    as (t8 & E8 & P8); unfold int16; try lia.
  rewrite E1, E2, E3, E4, E5, E6, E7, E8. cbn [bind].
  eexists. split; [reflexivity|].
  repeat (apply Forall_app; split; try assumption).
Qed.

(** C7.  With a requested corner radius above min (w, h) / 2 (C's division,
    which rounds toward zero) drawRoundRect issues the same sink calls, in
    the same order, as with the radius min (w, h) / 2 itself, whatever the
    fuel; and a rectangle with sides that are not negative, on small
    coordinates, is then drawn in full. *)
Theorem drawRoundRect_clamp (fuel : nat) (x y w h r c : Z) :
  int16 w -> int16 h ->
  r > Z.quot (Z.min w h) 2 ->
  drawRoundRect fuel x y w h r c
  = drawRoundRect fuel x y w h (Z.quot (Z.min w h) 2) c /\
  (small x -> small y -> 0 <= w -> 0 <= h -> small (x + w) -> small (y + h) ->
   65536 <= Z.of_nat fuel ->
   exists t,
     drawRoundRect fuel x y w h r c = Some (tt, t) /\ Forall is_pixel t).
Proof.
  intros Hw Hh Hr. split.
  - rewrite <- (max_radius_quot w h Hw Hh) in *.
    unfold drawRoundRect.
    replace (r >? max_radius w h) with true by (symmetry; apply Z.gtb_lt; lia).
    replace (max_radius w h >? max_radius w h) with false
      by (symmetry; rewrite Z.gtb_ltb; apply Z.ltb_irrefl).
    reflexivity.
  - intros Hx Hy Hw0 Hh0 Hxw Hyh Hfuel.
    apply drawRoundRect_complete; try assumption.
    assert (0 <= Z.quot (Z.min w h) 2) by (apply Z.quot_pos; lia). lia.
Qed.

Lemma drawRoundRect_clamp_witness :
  drawRoundRect (Z.to_nat 65536) 0 0 6 4 9 7
  = drawRoundRect (Z.to_nat 65536) 0 0 6 4 (Z.quot (Z.min 6 4) 2) 7 /\
  exists t,
    drawRoundRect (Z.to_nat 65536) 0 0 6 4 9 7 = Some (tt, t) /\ Forall is_pixel t.
Proof.
  destruct (drawRoundRect_clamp (Z.to_nat 65536) 0 0 6 4 9 7) as [Heq Hrun];
    [unfold int16; lia | unfold int16; lia | cbn; lia |].
  split; [exact Heq|].
  apply Hrun; unfold small; lia.
Defined.

(** The same clamp in fillRoundRect. *)
Lemma fillRoundRect_clamp (fuel : nat) (x y w h r c : Z) :
  r > max_radius w h ->
  fillRoundRect fuel x y w h r c = fillRoundRect fuel x y w h (max_radius w h) c.
Proof.
  intros Hr. unfold fillRoundRect.
  replace (r >? max_radius w h) with true by (symmetry; apply Z.gtb_lt; lia).
  replace (max_radius w h >? max_radius w h) with false
    by (symmetry; rewrite Z.gtb_ltb; apply Z.ltb_irrefl).
  reflexivity.
Qed.

(** The rounded rectangle of the example is drawn in full. *)
Example drawRoundRect_6x4 :
  calls (drawRoundRect 20 0 0 6 4 9 7)
  = Some [SetPixel 2 0 7; SetPixel 3 0 7; SetPixel 2 3 7; SetPixel 3 3 7;
          SetPixel 0 1 7; SetPixel 0 2 7; SetPixel 5 1 7; SetPixel 5 2 7;
          SetPixel 0 1 7; SetPixel 1 0 7; SetPixel 1 0 7; SetPixel 0 1 7;
          SetPixel 4 0 7; SetPixel 5 1 7; SetPixel 5 1 7; SetPixel 4 0 7;
          SetPixel 4 3 7; SetPixel 5 2 7; SetPixel 5 2 7; SetPixel 4 3 7;
          SetPixel 0 2 7; SetPixel 1 3 7; SetPixel 1 3 7; SetPixel 0 2 7].
Proof. reflexivity. Qed.

(** ** fillTriangle *)

Section FillTriangleFacts.
Context {E : Type} (hline : Z -> Z -> Z -> Z -> draw E unit).

Lemma bind_lift_Some {A B} (a : A) (k : A -> draw E B) :
  bind (lift (Some a)) k = k a.
Proof. apply (bind_ret a k). Qed.

Lemma bind_lift_None {A B} (k : A -> draw E B) : bind (lift None) k = None.
Proof. reflexivity. Qed.

(** The row loop treats its two edges alike: exchanging them exchanges
    [a] and [b], which the loop orders before drawing. *)
Lemma fillTriangle_rows_swap (fuel : nat) :
  forall xa dxa dya xb dxb dyb last c y sa sb,
    fillTriangle_rows hline fuel xa dxa dya xb dxb dyb last c y sa sb
    = fillTriangle_rows hline fuel xb dxb dyb xa dxa dya last c y sb sa.
Proof.
  induction fuel as [|fuel IH]; intros; [reflexivity|].
  cbn [fillTriangle_rows].
  destruct (y <=? last); [|reflexivity].
  destruct (cdiv sa dya) as [qa|], (cdiv sb dyb) as [qb|];
    rewrite ?bind_lift_Some, ?bind_lift_None; try reflexivity.
  set (a := wrap16 (xa + qa)). set (b := wrap16 (xb + qb)).
  rewrite (IH xa dxa dya xb dxb dyb).
  destruct (a >? b) eqn:Hab, (b >? a) eqn:Hba; rewrite ?Z.gtb_ltb in *;
    rewrite ?Z.ltb_lt, ?Z.ltb_ge in *; try lia; try reflexivity.
  replace b with a by lia. reflexivity.
Qed.

(** A row loop over an edge of height 0 divides by zero on its first row. *)
Lemma fillTriangle_rows_flat_edge (fuel : nat) xa dxa xb dxb dyb last c y sa sb :
  fillTriangle_rows hline (S fuel) xa dxa 0 xb dxb dyb last c y sa sb
  = if y <=? last then None else ret y.
Proof. cbn [fillTriangle_rows]. destruct (y <=? last); reflexivity. Qed.

(** On exit the row counter is past the last row. *)
Lemma fillTriangle_rows_exit (fuel : nat) :
  forall xa dxa dya xb dxb dyb last c y sa sb y' t,
    fillTriangle_rows hline fuel xa dxa dya xb dxb dyb last c y sa sb = Some (y', t) ->
    (y' <=? last) = false.
Proof.
  induction fuel as [|fuel IH]; intros until t; [discriminate|].
  cbn [fillTriangle_rows].
  destruct (y <=? last) eqn:Hy; [|intros [= <- <-]; exact Hy].
  intros H.
  apply bind_Some in H. destruct H as (qa & ? & ? & _ & H & _).
  apply bind_Some in H. destruct H as (qb & ? & ? & _ & H & _).
  destruct (_ >? _); apply bind_Some in H;
    destruct H as (? & ? & ? & _ & H & _); eapply IH, H.
Qed.

(** The all-on-one-row branch draws from the least to the greatest x. *)
Lemma fillTriangle_sorted_flat (fuel : nat) (x0 x1 x2 y y1 c : Z) :
  fillTriangle_sorted hline fuel (x0, y, x1, y1, x2, y) c
  = hline (min3 x0 x1 x2) y (wrap16 (max3 x0 x1 x2 - min3 x0 x1 x2 + 1)) c.
Proof.
  unfold fillTriangle_sorted, min3, max3. rewrite Z.eqb_refl. cbv zeta.
  repeat (match goal with
          | |- context [if ?b then _ else _] => destruct b eqn:?
          end; cbv beta iota);
    repeat f_equal; lia.
Qed.

(** Two vertices on the same row may be exchanged: as the two upper
    vertices ... *)
Lemma fillTriangle_sorted_tie01 (fuel : nat) (x0 y0 x1 y1 x2 y2 c : Z) :
  y0 = y1 ->
  fillTriangle_sorted hline fuel (x1, y1, x0, y0, x2, y2) c
  = fillTriangle_sorted hline fuel (x0, y0, x1, y1, x2, y2) c.
Proof.
  intros <-. destruct (y0 =? y2) eqn:Hy.
  - apply Z.eqb_eq in Hy. subst y2. rewrite !fillTriangle_sorted_flat.
    replace (min3 x1 x0 x2) with (min3 x0 x1 x2) by (unfold min3; lia).
    replace (max3 x1 x0 x2) with (max3 x0 x1 x2) by (unfold max3; lia).
    reflexivity.
  - unfold fillTriangle_sorted. rewrite Hy, Z.sub_diag.
    replace (wrap16 0) with 0 by reflexivity.
    destruct fuel as [|fuel]; [reflexivity|].
    rewrite !fillTriangle_rows_flat_edge.
    destruct (y0 <=? wrap16 (y0 - 1)); [reflexivity|].
    rewrite !bind_ret.
    rewrite (fillTriangle_rows_swap (S fuel) x1). reflexivity.
Qed.

(** ... and as the two lower ones. *)
Lemma fillTriangle_sorted_tie12 (fuel : nat) (x0 y0 x1 y1 x2 y2 c : Z) :
  y1 = y2 ->
  fillTriangle_sorted hline fuel (x0, y0, x2, y2, x1, y1) c
  = fillTriangle_sorted hline fuel (x0, y0, x1, y1, x2, y2) c.
Proof.
  intros <-. destruct (y0 =? y1) eqn:Hy.
  - apply Z.eqb_eq in Hy. subst y1. rewrite !fillTriangle_sorted_flat.
    replace (min3 x0 x2 x1) with (min3 x0 x1 x2) by (unfold min3; lia).
    replace (max3 x0 x2 x1) with (max3 x0 x1 x2) by (unfold max3; lia).
    reflexivity.
  - unfold fillTriangle_sorted. rewrite Hy, Z.eqb_refl, Z.sub_diag.
    replace (wrap16 0) with 0 by reflexivity.
    rewrite (fillTriangle_rows_swap fuel x0 (wrap16 (x2 - x0))).
    destruct (fillTriangle_rows hline fuel x0 (wrap16 (x1 - x0)) _ _ _ _ _ _ _ _ _)
      as [[y' t]|] eqn:Hup; [|reflexivity].
    pose proof (fillTriangle_rows_exit _ _ _ _ _ _ _ _ _ _ _ _ _ _ Hup) as Hexit.
    destruct fuel as [|fuel]; [discriminate|].
    cbn [bind]. rewrite !fillTriangle_rows_flat_edge, Hexit. reflexivity.
Qed.

(** Exchanging two of the three vertices passed to fillTriangle changes
    the sorted order at most by an exchange of two vertices on one row. *)
Ltac order_cases :=
  unfold fillTriangle_with, sort_by_y;
  repeat (match goal with
          | |- context [if ?b then _ else _] => destruct b eqn:?
          end; cbv beta iota);
  try reflexivity; try lia;
  first [ apply fillTriangle_sorted_tie01; lia
        | apply fillTriangle_sorted_tie12; lia
        | symmetry; apply fillTriangle_sorted_tie01; lia
        | symmetry; apply fillTriangle_sorted_tie12; lia ].

Lemma fillTriangle_with_swap01 (fuel : nat) (x0 y0 x1 y1 x2 y2 c : Z) :
  fillTriangle_with hline fuel x1 y1 x0 y0 x2 y2 c
  = fillTriangle_with hline fuel x0 y0 x1 y1 x2 y2 c.
Proof. order_cases. Qed.

Lemma fillTriangle_with_swap12 (fuel : nat) (x0 y0 x1 y1 x2 y2 c : Z) :
  fillTriangle_with hline fuel x0 y0 x2 y2 x1 y1 c
  = fillTriangle_with hline fuel x0 y0 x1 y1 x2 y2 c.
Proof. order_cases. Qed.
End FillTriangleFacts.

(** The six orders of three things. *)
Lemma Permutation_three {A} (a b c a' b' c' : A) :
  Permutation [a; b; c] [a'; b'; c'] ->
  (a', b', c') = (a, b, c) \/ (a', b', c') = (a, c, b) \/
  (a', b', c') = (b, a, c) \/ (a', b', c') = (b, c, a) \/
  (a', b', c') = (c, a, b) \/ (a', b', c') = (c, b, a).
Proof.
  intros H.
  assert (Ha : In a' [a; b; c])
    by (eapply Permutation_in; [symmetry; exact H | left; reflexivity]).
  cbn [In] in Ha. destruct Ha as [<- | [<- | [<- | []]]].
  - apply Permutation_cons_inv in H.
    apply Permutation_length_2_inv in H. destruct H as [[= <- <-] | [= <- <-]]; auto.
  - apply Permutation_sym, (Permutation_cons_app_inv [a] [c]) in H.
    cbn [app] in H. apply Permutation_sym, Permutation_length_2_inv in H.
    destruct H as [[= <- <-] | [= <- <-]]; auto 6.
  - apply Permutation_sym, (Permutation_cons_app_inv [a; b] []) in H.
    cbn [app] in H. apply Permutation_sym, Permutation_length_2_inv in H.
    destruct H as [[= <- <-] | [= <- <-]]; auto 8.
Qed.

Lemma fillTriangle_with_permutation {E} (hline : Z -> Z -> Z -> Z -> draw E unit)
  (fuel : nat) (v0 v1 v2 w0 w1 w2 : Z * Z) (c : Z) :
  Permutation [v0; v1; v2] [w0; w1; w2] ->
  fillTriangle_with hline fuel (fst w0) (snd w0) (fst w1) (snd w1) (fst w2) (snd w2) c
  = fillTriangle_with hline fuel (fst v0) (snd v0) (fst v1) (snd v1) (fst v2) (snd v2) c.
Proof.
  intros H. apply Permutation_three in H.
  destruct v0 as [x0 y0], v1 as [x1 y1], v2 as [x2 y2]. cbn [fst snd].
  destruct H as [H | [H | [H | [H | [H | H]]]]]; injection H as -> -> ->; cbn [fst snd].
  - reflexivity.
  - apply fillTriangle_with_swap12.
  - apply fillTriangle_with_swap01.
  - rewrite fillTriangle_with_swap12. apply fillTriangle_with_swap01.
  - rewrite fillTriangle_with_swap01. apply fillTriangle_with_swap12.
  - rewrite fillTriangle_with_swap01, fillTriangle_with_swap12.
    apply fillTriangle_with_swap01.
Qed.

(** The three swaps put the vertices in ascending order of y, keeping the
    three vertices. *)
Lemma sort_by_y_sorted (x0 y0 x1 y1 x2 y2 : Z) :
  let '(a0, b0, a1, b1, a2, b2) := sort_by_y (x0, y0, x1, y1, x2, y2) in
  b0 <= b1 <= b2 /\
  Permutation [(x0, y0); (x1, y1); (x2, y2)] [(a0, b0); (a1, b1); (a2, b2)].
Proof.
  unfold sort_by_y.
  repeat (match goal with
          | |- context [if ?b then _ else _] => destruct b eqn:?
          end; cbv beta iota);
    (split; [lia|]).
  all: repeat
         (first [ apply Permutation_refl
                | apply (Permutation_cons_app [] _ _)
                | apply (Permutation_cons_app [_] _ _)
                | apply (Permutation_cons_app [_; _] _ _) ];
          cbn [app]).
Qed.

Lemma fillTriangle_with_flat {E} (hline : Z -> Z -> Z -> Z -> draw E unit)
  (fuel : nat) (x0 x1 x2 y c : Z) :
  fillTriangle_with hline fuel x0 y x1 y x2 y c
  = hline (min3 x0 x1 x2) y (wrap16 (max3 x0 x1 x2 - min3 x0 x1 x2 + 1)) c.
Proof.
  assert (Hyy : (y >? y) = false) by (rewrite Z.gtb_ltb; apply Z.ltb_irrefl).
  unfold fillTriangle_with, sort_by_y.
  repeat (rewrite Hyy; cbv beta iota).
  apply fillTriangle_sorted_flat.
Qed.

(** C6 (as amended).  With the three vertices on one row y, fillTriangle
    makes exactly one call of drawFastHLine, at the least x and y, with the
    length max - min + 1 converted to int16, and paints what writeLine
    paints from (min, y) to (max, y).  That is the row of the
    max - min + 1 pixels from min to max only when max - min <= 32767 and
    max < 32767; outside that range the claim does not hold.  On (0,0),
    (5,0), (10,0) the single span runs from x = 0 to x = 10 at y = 0. *)
Theorem fillTriangle_flat_span :
  (forall x0 x1 x2 y c,
      int16 x0 -> int16 x1 -> int16 x2 ->
      let a := min3 x0 x1 x2 in
      let b := max3 x0 x1 x2 in
      (forall fuel,
          fillTriangle_spans fuel x0 y x1 y x2 y c
          = Some (tt, [Span a y (wrap16 (b - a + 1))]) /\
          fillTriangle fuel x0 y x1 y x2 y c = writeLine fuel a y b y c) /\
      (b - a <= 32767 -> b < 32767 ->
       forall fuel, 65536 <= Z.of_nat fuel ->
         fillTriangle fuel x0 y x1 y x2 y c
         = Some (tt, row_pixels (Z.to_nat (b - a + 1)) a y c))) /\
  (forall c fuel,
      fillTriangle_spans fuel 0 0 5 0 10 0 c = Some (tt, [Span 0 0 11]) /\
      (65536 <= Z.of_nat fuel ->
       fillTriangle fuel 0 0 5 0 10 0 c = Some (tt, row_pixels 11 0 0 c))).
Proof.
  assert (Hgen : forall x0 x1 x2 y c,
             int16 x0 -> int16 x1 -> int16 x2 ->
             forall fuel,
               fillTriangle fuel x0 y x1 y x2 y c
               = writeLine fuel (min3 x0 x1 x2) y (max3 x0 x1 x2) y c).
  { intros x0 x1 x2 y c H0 H1 H2 fuel.
    unfold fillTriangle. rewrite fillTriangle_with_flat.
    unfold drawFastHLine. rewrite span_end; [reflexivity|].
    unfold int16, max3 in *. lia. }
  split.
  - intros x0 x1 x2 y c H0 H1 H2 a b. split.
    + intros fuel. split; [|apply Hgen; assumption].
      unfold fillTriangle_spans. rewrite fillTriangle_with_flat. reflexivity.
    + intros Hw Hb fuel Hfuel. rewrite Hgen by assumption.
      apply writeLine_row; try assumption; unfold int16, min3, max3 in *; lia.
  - intros c fuel. split.
    + unfold fillTriangle_spans. rewrite fillTriangle_with_flat. reflexivity.
    + intros Hfuel. rewrite Hgen by (unfold int16; lia).
      apply (writeLine_row fuel 0 10 0 c); unfold int16; lia.
Qed.

Lemma fillTriangle_flat_span_witness :
  (forall fuel,
      fillTriangle_spans fuel 7 3 (-2) 3 4 3 9 = Some (tt, [Span (-2) 3 10]) /\
      fillTriangle fuel 7 3 (-2) 3 4 3 9 = writeLine fuel (-2) 3 7 3 9) /\
  fillTriangle (Z.to_nat 65536) 7 3 (-2) 3 4 3 9
  = Some (tt, row_pixels 10 (-2) 3 9).
Proof.
  split.
  - apply (proj1 fillTriangle_flat_span 7 (-2) 4 3 9); unfold int16; lia.
  - apply (proj2 (proj1 fillTriangle_flat_span 7 (-2) 4 3 9
                    ltac:(unfold int16; lia) ltac:(unfold int16; lia)
                    ltac:(unfold int16; lia)));
      cbn; lia.
Defined.

(** C6 as stated fails outside that range.  With the greatest x at 32767
    the single drawFastHLine call never returns; and on the row from
    x = -20000 to x = 20000 the int16 difference dx wraps to -25536, the
    error term goes negative at the first step, and all the 40000 writes
    after the first land on row -1 instead of row 0. *)
Lemma fillTriangle_flat_span_counterexample :
  (forall fuel, fillTriangle fuel 0 0 5 0 32767 0 7 = None) /\
  (exists t,
      fillTriangle (Z.to_nat 65536) (-20000) 0 20000 0 0 0 7 = Some (tt, t) /\
      Z.of_nat (length t) = 40001 /\
      hd_error t = Some (SetPixel (-20000) 0 7) /\
      forall e, In e (tl t) -> exists x, e = SetPixel x (-1) 7).
Proof.
  split.
  - intros fuel. unfold fillTriangle. rewrite fillTriangle_with_flat.
    unfold drawFastHLine. rewrite span_end by (unfold int16, max3; lia).
    apply writeLine_diverges; unfold int16, min3, max3, major_end; cbn; lia.
  - pose (check := fun t : trace =>
        (Z.of_nat (length t) =? 40001) &&
        match t with
        | SetPixel x y c :: _ => (x =? -20000) && (y =? 0) && (c =? 7)
        | _ => false
        end &&
        forallb (fun e => match e with
                          | SetPixel _ y c => (y =? -1) && (c =? 7)
                          | _ => false
                          end) (tl t)).
    assert (H : match fillTriangle (Z.to_nat 65536) (-20000) 0 20000 0 0 0 7 with
                | Some (_, t) => check t
                | None => false
                end = true) by (vm_compute; reflexivity).
    destruct (fillTriangle (Z.to_nat 65536) (-20000) 0 20000 0 0 0 7) as [[[] t]|];
      [|discriminate H].
    exists t. split; [reflexivity|].
    unfold check in H. apply andb_true_iff in H. destruct H as [H Hall].
    apply andb_true_iff in H. destruct H as [Hlen Hhd].
    split; [apply Z.eqb_eq, Hlen|]. split.
    + destruct t as [|[x y c|] t']; try discriminate Hhd.
      apply andb_true_iff in Hhd. destruct Hhd as [Hxy Hc].
      apply andb_true_iff in Hxy. destruct Hxy as [Hx Hy].
      apply Z.eqb_eq in Hx, Hy, Hc. subst. reflexivity.
    + intros e He. rewrite forallb_forall in Hall. specialize (Hall e He).
      destruct e as [x y c|]; [|discriminate Hall].
      apply andb_true_iff in Hall. destruct Hall as [Hy Hc].
      apply Z.eqb_eq in Hy, Hc. subst. exists x. reflexivity.
Qed.

(** ** fillTriangle: completion on small coordinates *)

(** The crossing of an edge with a row lies between the ends of the edge. *)
Lemma edge_crossing_bounds (x dx d k : Z) :
  0 < d -> 0 <= k <= d ->
  Z.min x (x + dx) <= x + Z.quot (dx * k) d <= Z.max x (x + dx).
Proof.
  intros Hd Hk.
  destruct (Z_le_gt_dec 0 dx) as [Hdx|Hdx].
  - assert (0 <= Z.quot (dx * k) d) by (apply Z.quot_pos; nia).
    assert (Z.quot (dx * k) d <= dx) by (apply Z.quot_le_upper_bound; nia).
    lia.
  - replace (dx * k) with (- ((- dx) * k)) by lia.
    rewrite Z.quot_opp_l by lia.
    assert (0 <= Z.quot (- dx * k) d) by (apply Z.quot_pos; nia).
    assert (Z.quot (- dx * k) d <= - dx) by (apply Z.quot_le_upper_bound; nia).
    lia.
Qed.

Lemma wrap32_id (z : Z) : -2147483648 <= z <= 2147483647 -> wrap32 z = z.
Proof. unfold wrap32. intros H. rewrite Z.mod_small by lia. lia. Qed.

Lemma cdiv_pos (a b : Z) : 0 < b -> cdiv a b = Some (Z.quot a b).
Proof.
  intros Hb. unfold cdiv.
  replace (b =? 0) with false by (symmetry; apply Z.eqb_neq; lia).
  replace (b =? -1) with false by (symmetry; apply Z.eqb_neq; lia).
  rewrite andb_false_r. reflexivity.
Qed.

(** A row loop that starts past its last row only needs one unit of fuel. *)
Lemma fillTriangle_rows_skip {E} (hline : Z -> Z -> Z -> Z -> draw E unit)
  (fuel : nat) xa dxa dya xb dxb dyb last c y sa sb :
  (0 < fuel)%nat -> last < y ->
  fillTriangle_rows hline fuel xa dxa dya xb dxb dyb last c y sa sb = ret y.
Proof.
  intros Hfuel H. destruct fuel as [|fuel]; [lia|]. cbn [fillTriangle_rows].
  replace (y <=? last) with false by (symmetry; apply Z.leb_gt; lia).
  reflexivity.
Qed.

(** The rows from [y] to [last] of two edges of positive height, [ka] and
    [kb] rows below their upper ends, are all drawn. *)
Lemma fillTriangle_rows_complete (n : nat) :
  forall fuel fuel' xa dxa dya xb dxb dyb last c y ka kb,
    65536 <= Z.of_nat fuel' -> (n < fuel)%nat ->
    n = Z.to_nat (last + 1 - y) -> y <= last + 1 ->
    -16383 <= y -> small last ->
    0 < dya <= 32766 -> 0 < dyb <= 32766 ->
    0 <= ka -> 0 <= kb -> ka + (last - y) <= dya -> kb + (last - y) <= dyb ->
    small xa -> small (xa + dxa) -> small xb -> small (xb + dxb) ->
    exists t,
      fillTriangle_rows (drawFastHLine fuel') fuel xa dxa dya xb dxb dyb last c y
        (dxa * ka) (dxb * kb) = Some (last + 1, t) /\
      Forall is_pixel t.
Proof.
  induction n as [|n IH];
    intros fuel fuel' xa dxa dya xb dxb dyb last c y ka kb
      Hfuel' Hfuel Hn Hle Hy Hlast Hdya Hdyb Hka Hkb Hea Heb Hxa Hxa' Hxb Hxb';
    [|destruct fuel as [|fuel]; [lia|]].
  - rewrite fillTriangle_rows_skip by lia.
    replace y with (last + 1) by lia. exists []. split; [reflexivity|constructor].
  - cbn [fillTriangle_rows]. unfold small in *.
    replace (y <=? last) with true by (symmetry; apply Z.leb_le; lia).
    rewrite !cdiv_pos by lia. cbn [lift bind].
    pose proof (edge_crossing_bounds xa dxa dya ka ltac:(lia) ltac:(lia)) as Ba.
    pose proof (edge_crossing_bounds xb dxb dyb kb ltac:(lia) ltac:(lia)) as Bb.
    set (qa := Z.quot (dxa * ka) dya) in *.
    set (qb := Z.quot (dxb * kb) dyb) in *.
    rewrite (wrap16_id (xa + qa)), (wrap16_id (xb + qb)) by (unfold int16; lia).
    rewrite (wrap16_id (y + 1)) by (unfold int16; lia).
    replace (wrap32 (dxa * ka + dxa)) with (dxa * (ka + 1))
      by (rewrite wrap32_id; nia).
    replace (wrap32 (dxb * kb + dxb)) with (dxb * (kb + 1))
      by (rewrite wrap32_id; nia).
    destruct (IH fuel fuel' xa dxa dya xb dxb dyb last c (y + 1) (ka + 1) (kb + 1))
      as (rest & Hrest & Hpix); try lia.
    rewrite Hrest.
    assert (Hspan : forall a b, -16383 <= a <= b -> b <= 16383 ->
              exists t, drawFastHLine fuel' a y (wrap16 (b - a + 1)) c = Some (tt, t) /\
                        Forall is_pixel t).
    { intros a b Ha Hb.
      destruct (drawFastHLine_count fuel' a y (wrap16 (b - a + 1)) c)
        as (t & Ht & _ & Hp); unfold scannable, int16; try lia.
      - rewrite span_end; unfold int16; lia.
      - exists t. auto. }
    destruct (xa + qa >? xb + qb) eqn:Hab;
      [apply Z.gtb_lt in Hab | rewrite Z.gtb_ltb in Hab; apply Z.ltb_ge in Hab].
    + destruct (Hspan (xb + qb) (xa + qa)) as (t & Ht & Hp); try lia.
      rewrite Ht. cbn [bind app]. eexists. split; [reflexivity|].
      apply Forall_app; split; assumption.
    + destruct (Hspan (xa + qa) (xb + qb)) as (t & Ht & Hp); try lia.
      rewrite Ht. cbn [bind app]. eexists. split; [reflexivity|].
      apply Forall_app; split; assumption.
Qed.

Lemma fillTriangle_sorted_complete (fuel : nat) (x0 y0 x1 y1 x2 y2 c : Z) :
  small x0 -> small y0 -> small x1 -> small y1 -> small x2 -> small y2 ->
  y0 <= y1 <= y2 ->
  65536 <= Z.of_nat fuel ->
  exists t,
    fillTriangle_sorted (drawFastHLine fuel) fuel (x0, y0, x1, y1, x2, y2) c
    = Some (tt, t) /\
    Forall is_pixel t.
Proof.
  unfold small. intros Hx0 Hy0 Hx1 Hy1 Hx2 Hy2 Hsorted Hfuel.
  destruct (Z.eq_dec y0 y2) as [Heq|Hne].
  - assert (y1 = y0) by lia. subst y2 y1.
    rewrite fillTriangle_sorted_flat.
    destruct (drawFastHLine_count fuel (min3 x0 x1 x2) y0
                (wrap16 (max3 x0 x1 x2 - min3 x0 x1 x2 + 1)) c)
      as (t & Ht & _ & Hp); unfold scannable, int16, min3, max3; try lia.
    + rewrite span_end; unfold int16; lia.
    + exists t. auto.
  - unfold fillTriangle_sorted.
    replace (y0 =? y2) with false by (symmetry; apply Z.eqb_neq; lia).
    rewrite (wrap16_id (x1 - x0)), (wrap16_id (y1 - y0)), (wrap16_id (x2 - x0)),
      (wrap16_id (y2 - y0)), (wrap16_id (x2 - x1)), (wrap16_id (y2 - y1))
      by (unfold int16; lia).
    destruct (y1 =? y2) eqn:H12; [apply Z.eqb_eq in H12 | apply Z.eqb_neq in H12].
    + (* flat bottom: the upper loop draws every row *)
      destruct (fillTriangle_rows_complete (Z.to_nat (y1 + 1 - y0)) fuel fuel
                  x0 (x1 - x0) (y1 - y0) x0 (x2 - x0) (y2 - y0) y1 c y0 0 0)
        as (t & Ht & Hp); unfold small; try lia.
      rewrite !Z.mul_0_r in Ht. rewrite Ht. cbn [bind].
      rewrite fillTriangle_rows_skip by lia. cbn [bind ret app].
      rewrite app_nil_r. exists t. auto.
    + rewrite (wrap16_id (y1 - 1)) by (unfold int16; lia).
      destruct (Z.eq_dec y0 y1) as [H01|H01].
      * (* flat top: the lower loop draws every row *)
        subst y1. rewrite fillTriangle_rows_skip by lia.
        rewrite bind_ret, !Z.sub_diag, !Z.mul_0_r.
        replace (wrap32 0) with 0 by reflexivity.
        destruct (fillTriangle_rows_complete (Z.to_nat (y2 + 1 - y0)) fuel fuel
                    x1 (x2 - x1) (y2 - y0) x0 (x2 - x0) (y2 - y0) y2 c y0 0 0)
          as (t & Ht & Hp); unfold small; try lia.
        rewrite !Z.mul_0_r in Ht. rewrite Ht. cbn [bind ret app].
        rewrite app_nil_r. exists t. auto.
      * destruct (fillTriangle_rows_complete (Z.to_nat (y1 - 1 + 1 - y0)) fuel fuel
                    x0 (x1 - x0) (y1 - y0) x0 (x2 - x0) (y2 - y0) (y1 - 1) c y0 0 0)
          as (t & Ht & Hp); unfold small; try lia.
        rewrite !Z.mul_0_r in Ht. rewrite Ht. cbn [bind].
        replace (y1 - 1 + 1) with y1 by lia.
        rewrite Z.sub_diag, Z.mul_0_r. replace (wrap32 0) with 0 by reflexivity.
        rewrite (wrap32_id ((x2 - x0) * (y1 - y0))) by nia.
        destruct (fillTriangle_rows_complete (Z.to_nat (y2 + 1 - y1)) fuel fuel
                    x1 (x2 - x1) (y2 - y1) x0 (x2 - x0) (y2 - y0) y2 c y1 0 (y1 - y0))
          as (t' & Ht' & Hp'); unfold small; try lia.
        rewrite !Z.mul_0_r in Ht'. rewrite Ht'. cbn [bind ret app].
        rewrite app_nil_r. exists (t ++ t'). split; [reflexivity|].
        apply Forall_app; split; assumption.
Qed.

(** On small coordinates fillTriangle runs to completion and only writes
    pixels. *)
Lemma fillTriangle_complete (fuel : nat) (x0 y0 x1 y1 x2 y2 c : Z) :
  small x0 -> small y0 -> small x1 -> small y1 -> small x2 -> small y2 ->
  65536 <= Z.of_nat fuel ->
  exists t,
    fillTriangle fuel x0 y0 x1 y1 x2 y2 c = Some (tt, t) /\ Forall is_pixel t.
Proof.
  intros Hx0 Hy0 Hx1 Hy1 Hx2 Hy2 Hfuel.
  unfold fillTriangle, fillTriangle_with, sort_by_y.
  repeat (match goal with
          | |- context [if ?b then _ else _] => destruct b eqn:?
          end; cbv beta iota);
    apply fillTriangle_sorted_complete; auto; lia.
Qed.

(** C10.  Passing the three vertices to fillTriangle in another order
    changes neither the spans it asks for nor the pixel writes it issues:
    both sequences are the same, for every fuel (a run that does not end,
    or that divides by zero at the edge of the 16-bit range, has no outcome
    in either order); and on small coordinates both calls run to
    completion. *)
Theorem fillTriangle_permutation (v0 v1 v2 w0 w1 w2 : Z * Z) (c : Z) :
  Permutation [v0; v1; v2] [w0; w1; w2] ->
  (forall fuel,
      fillTriangle fuel (fst w0) (snd w0) (fst w1) (snd w1) (fst w2) (snd w2) c
      = fillTriangle fuel (fst v0) (snd v0) (fst v1) (snd v1) (fst v2) (snd v2) c /\
      fillTriangle_spans fuel (fst w0) (snd w0) (fst w1) (snd w1) (fst w2) (snd w2) c
      = fillTriangle_spans fuel (fst v0) (snd v0) (fst v1) (snd v1) (fst v2) (snd v2) c) /\
  (small (fst v0) -> small (snd v0) -> small (fst v1) -> small (snd v1) ->
   small (fst v2) -> small (snd v2) ->
   forall fuel, 65536 <= Z.of_nat fuel ->
   exists t,
     fillTriangle fuel (fst v0) (snd v0) (fst v1) (snd v1) (fst v2) (snd v2) c
     = Some (tt, t) /\
     fillTriangle fuel (fst w0) (snd w0) (fst w1) (snd w1) (fst w2) (snd w2) c
     = Some (tt, t) /\
     Forall is_pixel t).
Proof.
  intros H.
  assert (Heq : forall fuel,
             fillTriangle fuel (fst w0) (snd w0) (fst w1) (snd w1) (fst w2) (snd w2) c
             = fillTriangle fuel (fst v0) (snd v0) (fst v1) (snd v1) (fst v2) (snd v2) c)
    by (intros fuel; apply fillTriangle_with_permutation, H).
  split.
  - intros fuel. split; [apply Heq|].
    apply fillTriangle_with_permutation, H.
  - intros H1 H2 H3 H4 H5 H6 fuel Hfuel.
    destruct (fillTriangle_complete fuel (fst v0) (snd v0) (fst v1) (snd v1)
                (fst v2) (snd v2) c) as (t & Ht & Hp); auto.
    exists t. rewrite Heq. auto.
Qed.

Lemma fillTriangle_permutation_witness :
  (forall fuel,
      fillTriangle fuel 5 10 0 0 10 0 7 = fillTriangle fuel 0 0 10 0 5 10 7 /\
      fillTriangle_spans fuel 5 10 0 0 10 0 7 = fillTriangle_spans fuel 0 0 10 0 5 10 7) /\
  exists t,
    fillTriangle (Z.to_nat 65536) 0 0 10 0 5 10 7 = Some (tt, t) /\
    fillTriangle (Z.to_nat 65536) 5 10 0 0 10 0 7 = Some (tt, t) /\
    Forall is_pixel t.
Proof.
  assert (P : Permutation [(0, 0); (10, 0); (5, 10)] [(5, 10); (0, 0); (10, 0)]).
  { apply (Permutation_cons_app [_] [_]). apply perm_swap. }
  split.
  - apply (proj1 (fillTriangle_permutation (0, 0) (10, 0) (5, 10)
                    (5, 10) (0, 0) (10, 0) 7 P)).
  - apply (proj2 (fillTriangle_permutation (0, 0) (10, 0) (5, 10)
                    (5, 10) (0, 0) (10, 0) 7 P));
      unfold small; cbn [fst snd]; lia.
Defined.

(** The flat-topped triangle of the specification, vertex order reversed:
    the same eleven spans. *)
Example fillTriangle_spans_reversed :
  calls (fillTriangle_spans 20 5 10 10 0 0 0 7)
  = calls (fillTriangle_spans 20 0 0 10 0 5 10 7) /\
  calls (fillTriangle_spans 20 0 0 10 0 5 10 7)
  = Some [Span 0 0 11; Span 0 1 11; Span 1 2 9; Span 1 3 9; Span 2 4 7;
          Span 2 5 7; Span 3 6 5; Span 3 7 5; Span 4 8 3; Span 4 9 3;
          Span 5 10 1].
Proof. split; reflexivity. Qed.

(** ** interpolateColor *)

Lemma zrange_forallb (f : Z -> bool) (lo : Z) (n : nat) :
  forallb f (zrange lo n) = true ->
  forall z, lo <= z < lo + Z.of_nat n -> f z = true.
Proof.
  intros H z Hz. rewrite forallb_forall in H. apply H.
  unfold zrange. apply in_map_iff. exists (Z.to_nat (z - lo)).
  split; [lia|]. apply in_seq. lia.
Qed.

Lemma channel_bounds (c : Z) :
  0 <= c ->
  0 <= red_of c <= 31 /\ 0 <= green_of c <= 63 /\ 0 <= blue_of c <= 31.
Proof.
  intros Hc. unfold red_of, green_of, blue_of.
  change 31 with (Z.ones 5). change 63 with (Z.ones 6).
  rewrite !Z.land_ones by lia.
  pose proof (Z.mod_pos_bound (Z.shiftr c 11) (2 ^ 5) ltac:(lia)).
  pose proof (Z.mod_pos_bound (Z.shiftr c 5) (2 ^ 6) ltac:(lia)).
  pose proof (Z.mod_pos_bound c (2 ^ 5) ltac:(lia)).
  change (2 ^ 5) with 32 in *. change (2 ^ 6) with 64 in *.
  change (Z.ones 5) with 31. change (Z.ones 6) with 63. lia.
Qed.

(** Packing the channels of a 16-bit colour gives the colour back. *)
Lemma pack565_channels (c : Z) :
  uint16 c -> pack565 (red_of c) (green_of c) (blue_of c) = c.
Proof.
  unfold uint16, pack565, red_of, green_of, blue_of. intros Hc.
  assert (Hbits : Z.lor (Z.lor (Z.shiftl (Z.land (Z.shiftr c 11) 31) 11)
                               (Z.shiftl (Z.land (Z.shiftr c 5) 63) 5))
                        (Z.land c 31) = c).
  { apply Z.bits_inj'. intros n Hn.
    change 31 with (Z.ones 5). change 63 with (Z.ones 6).
    rewrite !Z.lor_spec.
    rewrite (Z.shiftl_spec _ 11), (Z.shiftl_spec _ 5) by exact Hn.
    destruct (Z_lt_dec n 5); [|destruct (Z_lt_dec n 11); [|destruct (Z_lt_dec n 16)]].
    - rewrite (Z.testbit_neg_r _ (n - 11)), (Z.testbit_neg_r _ (n - 5)) by lia.
      rewrite Z.land_spec, Z.ones_spec_low by lia.
      cbn [orb]. apply andb_true_r.
    - rewrite (Z.testbit_neg_r _ (n - 11)) by lia.
      rewrite !Z.land_spec, Z.shiftr_spec by lia.
      rewrite (Z.ones_spec_low 6), (Z.ones_spec_high 5) by lia.
      replace (n - 5 + 5) with n by lia.
      rewrite andb_true_r, andb_false_r, orb_false_r. reflexivity.
    - rewrite !Z.land_spec, !Z.shiftr_spec by lia.
      rewrite (Z.ones_spec_low 5 (n - 11)), (Z.ones_spec_high 6 (n - 5)),
        (Z.ones_spec_high 5 n) by lia.
      replace (n - 11 + 11) with n by lia.
      rewrite andb_true_r, !andb_false_r, !orb_false_r. reflexivity.
    - rewrite !Z.land_spec.
      rewrite (Z.ones_spec_high 5 (n - 11)), (Z.ones_spec_high 6 (n - 5)),
        (Z.ones_spec_high 5 n) by lia.
      rewrite !andb_false_r. cbn [orb]. symmetry.
      destruct (Z.eq_dec c 0) as [->|Hc0]; [apply Z.testbit_0_l|].
      apply Z.bits_above_log2; [lia|].
      assert (Z.log2 c < 16) by (apply Z.log2_lt_pow2; lia). lia. }
  rewrite Hbits. apply Z.mod_small. lia.
Qed.

Lemma interpolateColor_channels (s e : Z) (t : float) :
  interpolateColor s e t =
  match interpolateChannel (red_of s) (red_of e) t,
        interpolateChannel (green_of s) (green_of e) t,
        interpolateChannel (blue_of s) (blue_of e) t with
  | Some r, Some g, Some b => Some (pack565 r g b)
  | _, _, _ => None
  end.
Proof. reflexivity. Qed.

(** Equal endpoints: the difference is the float 0 and its product with any
    number is a zero. *)
Lemma interpolateChannel_same (s : Z) (t : float) :
  float_is_number t = true -> interpolateChannel s s t = Some s.
Proof.
  intros Ht. unfold interpolateChannel. rewrite Z.sub_diag.
  change (float_of_int 0) with (S754_zero false).
  destruct t as [st | st | | st m e]; try discriminate; cbn; f_equal; lia.
Qed.

(** For every difference of two channels, the product with the float 0 casts
    to 0 and the product with the float 1 casts to the difference. *)
Lemma channel_difference_exact (d : Z) :
  -63 <= d <= 63 ->
  int_of_float (float_mul (float_of_int d) float_zero) = Some 0 /\
  int_of_float (float_mul (float_of_int d) float_one) = Some d.
Proof.
  intros Hd.
  pose (ok := fun d =>
    match int_of_float (float_mul (float_of_int d) float_zero),
          int_of_float (float_mul (float_of_int d) float_one) with
    | Some z, Some o => (z =? 0) && (o =? d)
    | _, _ => false
    end).
  assert (H : ok d = true).
  { apply (zrange_forallb ok (-63) 127); [vm_compute; reflexivity | lia]. }
  unfold ok in H.
  destruct (int_of_float (float_mul (float_of_int d) float_zero)) as [z|];
    [|discriminate].
  destruct (int_of_float (float_mul (float_of_int d) float_one)) as [o|];
    [|discriminate].
  apply andb_true_iff in H. destruct H as [Hz Ho].
  apply Z.eqb_eq in Hz, Ho. subst. auto.
Qed.

Lemma interpolateChannel_ends (s e : Z) :
  0 <= s <= 63 -> 0 <= e <= 63 ->
  interpolateChannel s e float_zero = Some s /\
  interpolateChannel s e float_one = Some e.
Proof.
  intros Hs He. unfold interpolateChannel.
  destruct (channel_difference_exact (e - s)) as [-> ->]; [lia|].
  split; f_equal; lia.
Qed.

(** The cast drops the fraction of the signed mantissa: it is C's integer
    division, which rounds toward zero. *)
Lemma float_trunc_quot (s : bool) (m : positive) (e : Z) :
  e < 0 ->
  float_trunc s m e = Z.quot (cond_Zopp s (Zpos m)) (2 ^ (- e)).
Proof.
  intros He. unfold float_trunc.
  rewrite Z.shiftl_div_pow2 by lia.
  assert (0 < 2 ^ (- e)) by (apply Z.pow_pos_nonneg; lia).
  destruct s; cbn [cond_Zopp].
  - rewrite Z.quot_opp_l by lia. f_equal. symmetry. apply Z.quot_div_nonneg; lia.
  - symmetry. apply Z.quot_div_nonneg; lia.
Qed.

(** C8.  With both endpoints equal to a 16-bit colour c, interpolateColor
    returns c for every parameter t that is a number (a zero or a finite
    float of any size and sign). *)
Theorem interpolateColor_same (c : Z) (t : float) :
  uint16 c -> float_is_number t = true ->
  interpolateColor c c t = Some c.
Proof.
  intros Hc Ht. rewrite interpolateColor_channels.
  rewrite !interpolateChannel_same by exact Ht.
  f_equal. apply pack565_channels, Hc.
Qed.

Lemma interpolateColor_same_witness :
  interpolateColor 51966 51966 (S754_finite true 12582912 (-20)) = Some 51966.
Proof.
  apply (interpolateColor_same 51966 (S754_finite true 12582912 (-20)));
    [unfold uint16; lia | reflexivity].
Defined.

(** C9.  For 16-bit colours, interpolateColor returns [start] at t = 0 and
    [end] at t = 1; and the cast of a channel product to [int] drops the
    fraction, rounding toward zero: it is the quotient of the signed
    mantissa by the power of two of the exponent, so that halfway between
    channel values 0 and 3 gives 1 from below and 2 from above. *)
Theorem interpolateColor_ends (cstart cend : Z) :
  uint16 cstart -> uint16 cend ->
  interpolateColor cstart cend float_zero = Some cstart /\
  interpolateColor cstart cend float_one = Some cend /\
  (forall s m e, e < 0 ->
     float_trunc s m e = Z.quot (cond_Zopp s (Zpos m)) (2 ^ (- e))) /\
  interpolateChannel 0 3 float_half = Some 1 /\
  interpolateChannel 3 0 float_half = Some 2.
Proof.
  intros Hs He.
  destruct (channel_bounds cstart) as (Rs & Gs & Bs); [unfold uint16 in Hs; lia|].
  destruct (channel_bounds cend) as (Re & Ge & Be); [unfold uint16 in He; lia|].
  destruct (interpolateChannel_ends (red_of cstart) (red_of cend)) as [R0 R1]; try lia.
  destruct (interpolateChannel_ends (green_of cstart) (green_of cend)) as [G0 G1]; try lia.
  destruct (interpolateChannel_ends (blue_of cstart) (blue_of cend)) as [B0 B1]; try lia.
  rewrite !interpolateColor_channels, R0, R1, G0, G1, B0, B1.
  rewrite !pack565_channels by assumption.
  repeat split; try reflexivity. apply float_trunc_quot.
Qed.

Lemma interpolateColor_ends_witness :
  interpolateColor 63488 31 float_zero = Some 63488 /\
  interpolateColor 63488 31 float_one = Some 31.
Proof.
  destruct (interpolateColor_ends 63488 31) as (H0 & H1 & _);
    [unfold uint16; lia | unfold uint16; lia | split; assumption].
Defined.

(** With NaN or an infinity for t the product is NaN and C leaves the cast
    undefined: no result. *)
Example interpolateColor_not_a_number :
  interpolateColor 7 7 S754_nan = None /\
  interpolateColor 7 7 (S754_infinity false) = None.
Proof. split; reflexivity. Qed.

(** Halfway from red to blue, channel by channel: 31 - 15 red, 15 blue. *)
Example interpolateColor_red_blue_half :
  interpolateColor 63488 31 float_half = Some 32783.
Proof. reflexivity. Qed.

(** * Further properties of the primitives *)

(** ** Fast lines of positive length *)

Lemma writeLine_loop_col (n : nat) :
  forall fuel x1 dx ystep c x0 y0 err,
    0 <= err <= 32767 ->
    -32768 <= x0 -> x1 < 32767 -> x0 <= x1 + 1 ->
    n = Z.to_nat (x1 - x0 + 1) -> (n < fuel)%nat ->
    writeLine_loop fuel true x1 dx 0 ystep c x0 y0 err
    = Some (tt, col_pixels n y0 x0 c).
Proof.
  induction n as [|n IH]; intros fuel x1 dx ystep c x0 y0 err He Hlo Hhi Hle Hn Hf.
  - destruct fuel as [|fuel]; [lia|]. cbn [writeLine_loop].
    replace (x0 <=? x1) with false by (symmetry; apply Z.leb_gt; lia).
    reflexivity.
  - destruct fuel as [|fuel]; [lia|]. cbn [writeLine_loop col_pixels].
    replace (x0 <=? x1) with true by (symmetry; apply Z.leb_le; lia).
    rewrite (wrap16_id (x0 + 1)) by (unfold int16; lia).
    rewrite Z.sub_0_r, (wrap16_id err) by (unfold int16; lia).
    replace (err <? 0) with false by (symmetry; apply Z.ltb_ge; lia).
    unfold writePixel, drawPixel. rewrite bind_emit.
    rewrite (IH fuel x1 dx ystep c (x0 + 1) y0 err) by lia.
    reflexivity.
Qed.

(** A line along a column, drawn top to bottom, is that column's pixels. *)
Lemma writeLine_col (fuel : nat) (x y0 y1 c : Z) :
  scannable x -> int16 y0 -> y0 <= y1 -> y1 - y0 <= 32767 -> y1 < 32767 ->
  65536 <= Z.of_nat fuel ->
  writeLine fuel x y0 x y1 c
  = Some (tt, col_pixels (Z.to_nat (y1 - y0 + 1)) x y0 c).
Proof.
  unfold scannable, int16. intros Hx Hy0 Hle Hw Hy1 Hfuel.
  destruct (Z.eq_dec y0 y1) as [<-|Hne].
  - (* one pixel: the line is not steep *)
    rewrite (writeLine_row fuel x x y0 c) by (unfold int16; lia).
    rewrite !Z.sub_diag. reflexivity.
  - unfold writeLine. rewrite Z.sub_diag. cbn [Z.abs].
    replace (Z.abs (y1 - y0) >? 0) with true by (symmetry; apply Z.gtb_lt; lia).
    cbv beta iota.
    replace (y0 >? y1) with false by (symmetry; rewrite Z.gtb_ltb; apply Z.ltb_ge; lia).
    cbv beta iota. rewrite Z.sub_diag. cbn [Z.abs].
    rewrite (wrap16_id (y1 - y0)) by (unfold int16; lia).
    replace (wrap16 0) with 0 by reflexivity.
    apply writeLine_loop_col; try lia.
    pose proof (Z.quot_pos (y1 - y0) 2 ltac:(lia) ltac:(lia)).
    assert (Z.quot (y1 - y0) 2 <= y1 - y0) by (apply Z.quot_le_upper_bound; lia).
    rewrite wrap16_id by (unfold int16; lia). lia.
Qed.

Lemma In_col_pixels n : forall x y c e,
  In e (col_pixels n x y c) <-> exists i, y <= i < y + Z.of_nat n /\ e = SetPixel x i c.
Proof.
  induction n as [|n IH]; intros x y c e; cbn [col_pixels In].
  - split; [tauto|]. intros (i & Hi & _). lia.
  - rewrite IH. split.
    + intros [<-|(i & Hi & ->)].
      * exists y. split; [lia|reflexivity].
      * exists i. split; [lia|reflexivity].
    + intros (i & Hi & ->). destruct (Z.eq_dec i y) as [->|Hne]; [left; reflexivity|].
      right. exists i. split; [lia|reflexivity].
Qed.

Lemma In_row_pixels_iff n : forall x y c e,
  In e (row_pixels n x y c) <-> exists i, x <= i < x + Z.of_nat n /\ e = SetPixel i y c.
Proof.
  induction n as [|n IH]; intros x y c e; cbn [row_pixels In].
  - split; [tauto|]. intros (i & Hi & _). lia.
  - rewrite IH. split.
    + intros [<-|(i & Hi & ->)].
      * exists x. split; [lia|reflexivity].
      * exists i. split; [lia|reflexivity].
    + intros (i & Hi & ->). destruct (Z.eq_dec i x) as [->|Hne]; [left; reflexivity|].
      right. exists i. split; [lia|reflexivity].
Qed.

(** X1.  A fast line of length n >= 1 that ends below 32767 writes exactly
    the n pixels from its start point, rightwards for drawFastHLine and
    downwards for drawFastVLine, in that order. *)
Theorem fast_line_pixels (fuel : nat) (x y n c : Z) :
  1 <= n <= 32767 -> scannable x -> scannable y ->
  65536 <= Z.of_nat fuel ->
  (x + n - 1 <= 32766 ->
   drawFastHLine fuel x y n c = Some (tt, row_pixels (Z.to_nat n) x y c)) /\
  (y + n - 1 <= 32766 ->
   drawFastVLine fuel x y n c = Some (tt, col_pixels (Z.to_nat n) x y c)).
Proof.
  unfold scannable. intros Hn Hx Hy Hfuel. split; intros Hend.
  - unfold drawFastHLine. rewrite wrap16_id by (unfold int16; lia).
    rewrite writeLine_row by (unfold int16; lia).
    do 3 f_equal. lia.
  - unfold drawFastVLine. rewrite wrap16_id by (unfold int16; lia).
    rewrite writeLine_col by (unfold scannable, int16; lia).
    do 3 f_equal. lia.
Qed.

Lemma fast_line_pixels_witness :
  drawFastHLine (Z.to_nat 65536) 3 4 5 9 = Some (tt, row_pixels 5 3 4 9) /\
  drawFastVLine (Z.to_nat 65536) 3 4 5 9 = Some (tt, col_pixels 5 3 4 9).
Proof.
  destruct (fast_line_pixels (Z.to_nat 65536) 3 4 5 9) as [H V];
    [lia | unfold scannable; lia | unfold scannable; lia | lia |].
  split; [apply H | apply V]; lia.
Defined.

(** ** drawRect: the border of the rectangle *)

(** X2.  For a width and a height of at least 1, with the far corner below
    32767, drawRect completes and writes a pixel exactly at the points of
    the border of the rectangle [x, x+w-1] x [y, y+h-1], in the color
    asked. *)
Theorem drawRect_border (fuel : nat) (x y w h c : Z) :
  1 <= w <= 32767 -> 1 <= h <= 32767 -> scannable x -> scannable y ->
  x + w - 1 <= 32766 -> y + h - 1 <= 32766 ->
  65536 <= Z.of_nat fuel ->
  exists t,
    drawRect fuel x y w h c = Some (tt, t) /\
    Z.of_nat (length t) = 2 * w + 2 * h /\
    forall e, In e t <->
      exists px py,
        e = SetPixel px py c /\
        x <= px <= x + w - 1 /\ y <= py <= y + h - 1 /\
        (px = x \/ px = x + w - 1 \/ py = y \/ py = y + h - 1).
Proof.
  intros Hw Hh Hx Hy Hxe Hye Hfuel. unfold scannable in *.
  destruct (fast_line_pixels fuel x y w c) as [H1 _]; unfold scannable; try lia.
  destruct (fast_line_pixels fuel x (y + h - 1) w c) as [H2 _]; unfold scannable; try lia.
  destruct (fast_line_pixels fuel x y h c) as [_ H3]; unfold scannable; try lia.
  destruct (fast_line_pixels fuel (x + w - 1) y h c) as [_ H4]; unfold scannable; try lia.
  unfold drawRect.
  rewrite (wrap16_id (y + h - 1)), (wrap16_id (x + w - 1)) by (unfold int16; lia).
  rewrite H1, H2, H3, H4 by lia. cbn [bind].
  eexists. split; [reflexivity|]. split.
  - rewrite !length_app, !length_row_pixels.
    assert (Hc : forall n a b, length (col_pixels n a b c) = n)
      by (induction n; intros; cbn; auto).
    rewrite !Hc. lia.
  - intros e. rewrite !in_app_iff, !In_row_pixels_iff, !In_col_pixels. split.
    + intros [(i & Hi & ->) | [(i & Hi & ->) | [(i & Hi & ->) | (i & Hi & ->)]]];
        eexists; eexists; (split; [reflexivity|]); lia.
    + intros (px & py & -> & Bx & By & [-> | [-> | [-> | ->]]]).
      * right; right; left. exists py. split; [lia|reflexivity].
      * right; right; right. exists py. split; [lia|reflexivity].
      * left. exists px. split; [lia|reflexivity].
      * right; left. exists px. split; [lia|reflexivity].
Qed.

Lemma drawRect_border_witness :
  exists t,
    drawRect (Z.to_nat 65536) 2 3 4 5 9 = Some (tt, t) /\
    Z.of_nat (length t) = 2 * 4 + 2 * 5 /\
    forall e, In e t <->
      exists px py,
        e = SetPixel px py 9 /\
        2 <= px <= 2 + 4 - 1 /\ 3 <= py <= 3 + 5 - 1 /\
        (px = 2 \/ px = 2 + 4 - 1 \/ py = 3 \/ py = 3 + 5 - 1).
Proof.
  apply (drawRect_border (Z.to_nat 65536) 2 3 4 5 9); unfold scannable; lia.
Defined.

(** ** writeLine: a connected path between the endpoints *)

(** The scan of writeLine over a span [dx] > 0 of the major axis, with a
    rise [dy] <= [dx] of the minor axis and no wrap.  [k] steps have been
    taken on the major axis and [s] on the minor one; the error term is
    [dx/2 - k*dy + s*dx] and stays in [0, dx).  The trace starts at the
    current point, ends at the far endpoint and moves by one on the major
    axis and at most one on the minor axis each time. *)
Lemma writeLine_loop_path (n : nat) :
  forall fuel steep b dx dy ystep c a ya k s err,
    (ystep = 1 \/ ystep = -1) ->
    0 < dx <= 32767 -> 0 <= dy <= dx -> b < 32767 -> -32768 <= a ->
    dx = b - a ->
    int16 ya -> int16 (ya + ystep * dy) ->
    0 <= k <= dx -> 0 <= s <= dy ->
    err = Z.quot dx 2 - k * dy + s * dx -> 0 <= err < dx ->
    n = Z.to_nat (dx - k) -> (S n < fuel)%nat ->
    exists t,
      writeLine_loop fuel steep b dx dy ystep c (a + k) (ya + ystep * s) err
      = Some (tt, t) /\
      length t = S n /\
      hd (FillBlock 0 0 0 0 0) t
      = (if steep then SetPixel (ya + ystep * s) (a + k) c
         else SetPixel (a + k) (ya + ystep * s) c) /\
      last t (FillBlock 0 0 0 0 0)
      = (if steep then SetPixel (ya + ystep * dy) b c
         else SetPixel b (ya + ystep * dy) c) /\
      connected8 t.
Proof.
  induction n as [|n IH];
    intros fuel steep b dx dy ystep c a ya k s err
      Hstep Hdx Hdy Hb Ha Hspan Hya Hyb Hk Hs Herr Hrange Hn Hfuel;
    (destruct fuel as [|fuel]; [lia|]); cbn [writeLine_loop];
    (replace (a + k <=? b) with true by (symmetry; apply Z.leb_le; lia));
    unfold writePixel, drawPixel.
  - (* the last point: [k = dx], and so [s = dy] *)
    assert (k = dx) by lia. subst k.
    assert (s = dy).
    { assert (Hq : 0 <= Z.quot dx 2 < dx).
      { split; [apply Z.quot_pos; lia | apply Z.quot_lt; lia]. }
      assert (Hm : (s - dy) * dx = err - Z.quot dx 2) by lia.
      destruct (Z_lt_le_dec s dy); [|destruct (Z_lt_le_dec dy s)]; [nia|nia|lia]. }
    subst s.
    replace (a + dx) with b by lia.
    destruct fuel as [|fuel]; [lia|].
    set (e := if steep then _ else _).
    assert (Hnext : forall y' err',
               writeLine_loop (S fuel) steep b dx dy ystep c (wrap16 (b + 1)) y' err'
               = ret tt).
    { intros. cbn [writeLine_loop].
      rewrite wrap16_id by (unfold int16; lia).
      replace (b + 1 <=? b) with false by (symmetry; apply Z.leb_gt; lia).
      reflexivity. }
    exists [if steep then SetPixel (ya + ystep * dy) b c
            else SetPixel b (ya + ystep * dy) c].
    split.
    + destruct (wrap16 (err - dy) <? 0); rewrite Hnext;
        destruct steep; reflexivity.
    + destruct steep; cbn; auto.
  - (* a point before the last *)
    assert (Hk' : k + 1 <= dx) by lia.
    rewrite (wrap16_id (a + k + 1)) by (unfold int16; lia).
    rewrite (wrap16_id (err - dy)) by (unfold int16; lia).
    destruct (err - dy <? 0) eqn:Hneg;
      [apply Z.ltb_lt in Hneg | apply Z.ltb_ge in Hneg].
    + (* the minor axis moves *)
      assert (Hs' : s + 1 <= dy).
      { destruct (Z_lt_le_dec s dy); [lia|].
        assert (0 <= (s - dy) * dx) by nia.
        assert (0 <= dy * (dx - k - 1)) by nia.
        assert (0 <= Z.quot dx 2) by (apply Z.quot_pos; lia).
        lia. }
      rewrite (wrap16_id (err - dy + dx)) by (unfold int16; lia).
      assert (Hy' : wrap16 (ya + ystep * s + ystep) = ya + ystep * (s + 1)).
      { replace (ya + ystep * s + ystep) with (ya + ystep * (s + 1)) by lia.
        apply wrap16_id. unfold int16 in *. destruct Hstep; subst ystep; lia. }
      rewrite Hy'.
      replace (a + k + 1) with (a + (k + 1)) by lia.
      destruct (IH fuel steep b dx dy ystep c a ya (k + 1) (s + 1) (err - dy + dx))
        as (t & Ht & Hlen & Hhd & Hlast & Hconn); try assumption; try lia.
      rewrite Ht.
      destruct t as [|e t]; [discriminate|]. cbn [hd] in Hhd. subst e.
      destruct steep; (eexists; split; [reflexivity|]);
        cbn [length hd last connected8 app] in *;
        (split; [congruence|]); (split; [reflexivity|]);
        (split; [exact Hlast|]); (split; [|exact Hconn]);
        cbn [adjacent8]; destruct Hstep; subst ystep; lia.
    + (* the minor axis stays *)
      replace (a + k + 1) with (a + (k + 1)) by lia.
      destruct (IH fuel steep b dx dy ystep c a ya (k + 1) s (err - dy))
        as (t & Ht & Hlen & Hhd & Hlast & Hconn); try assumption; try lia.
      rewrite Ht.
      destruct t as [|e t]; [discriminate|]. cbn [hd] in Hhd. subst e.
      destruct steep; (eexists; split; [reflexivity|]);
        cbn [length hd last connected8 app] in *;
        (split; [congruence|]); (split; [reflexivity|]);
        (split; [exact Hlast|]); (split; [|exact Hconn]);
        cbn [adjacent8]; lia.
Qed.

(** X3.  Between two int16 endpoints at most 32767 apart on each axis, with
    the far end of the major axis below 32767, writeLine completes and its
    pixel writes form a path: it starts at one endpoint, ends at the other,
    and every write is next to the one before it (diagonals included). *)
Theorem writeLine_connected_path (fuel : nat) (x0 y0 x1 y1 c : Z) :
  int16 x0 -> int16 y0 -> int16 x1 -> int16 y1 ->
  Z.abs (x1 - x0) <= 32767 -> Z.abs (y1 - y0) <= 32767 ->
  major_end x0 y0 x1 y1 < 32767 ->
  65536 <= Z.of_nat fuel ->
  exists t,
    writeLine fuel x0 y0 x1 y1 c = Some (tt, t) /\
    connected8 t /\
    ((hd (FillBlock 0 0 0 0 0) t = SetPixel x0 y0 c /\
      last t (FillBlock 0 0 0 0 0) = SetPixel x1 y1 c) \/
     (hd (FillBlock 0 0 0 0 0) t = SetPixel x1 y1 c /\
      last t (FillBlock 0 0 0 0 0) = SetPixel x0 y0 c)).
Proof.
  unfold int16, major_end. intros Hx0 Hy0 Hx1 Hy1 Hdx Hdy Hend Hfuel.
  (* the scan in normal form: from [a] to [b] on the major axis *)
  assert (Hscan : forall steep a ya b yb,
             -32768 <= a -> a < b -> b < 32767 -> b - a <= 32767 ->
             int16 ya -> int16 yb -> Z.abs (yb - ya) <= b - a ->
             exists t,
               writeLine_loop fuel steep b (wrap16 (b - a)) (wrap16 (Z.abs (yb - ya)))
                 (if ya <? yb then 1 else -1) c a ya (wrap16 (Z.quot (wrap16 (b - a)) 2))
               = Some (tt, t) /\
               connected8 t /\
               hd (FillBlock 0 0 0 0 0) t
               = (if steep then SetPixel ya a c else SetPixel a ya c) /\
               last t (FillBlock 0 0 0 0 0)
               = (if steep then SetPixel yb b c else SetPixel b yb c)).
  { intros steep a ya b yb Ha Hab Hb Hspan Hya Hyb Hrise. unfold int16 in *.
    rewrite (wrap16_id (b - a)), (wrap16_id (Z.abs (yb - ya))) by (unfold int16; lia).
    assert (Hq : 0 <= Z.quot (b - a) 2 < b - a).
    { split; [apply Z.quot_pos; lia | apply Z.quot_lt; lia]. }
    rewrite (wrap16_id (Z.quot (b - a) 2)) by (unfold int16; lia).
    set (ystep := if ya <? yb then 1 else -1).
    assert (Hstep : ystep = 1 \/ ystep = -1) by (unfold ystep; destruct (ya <? yb); auto).
    assert (Hyb' : ya + ystep * Z.abs (yb - ya) = yb).
    { unfold ystep. destruct (ya <? yb) eqn:E;
        [apply Z.ltb_lt in E | apply Z.ltb_ge in E]; lia. }
    assert (Hyb16 : int16 (ya + ystep * Z.abs (yb - ya)))
      by (rewrite Hyb'; unfold int16; lia).
    destruct (writeLine_loop_path (Z.to_nat (b - a - 0)) fuel steep b (b - a)
                (Z.abs (yb - ya)) ystep c a ya 0 0 (Z.quot (b - a) 2))
      as (t & Ht & _ & Hhd & Hlast & Hconn);
      try (unfold int16; lia); try assumption.
    rewrite Z.add_0_r, Z.mul_0_r, Z.add_0_r in Ht, Hhd. rewrite Hyb' in Hlast.
    exists t. auto. }
  destruct (Z.eq_dec x0 x1) as [Hx|Hx];
    [destruct (Z.eq_dec y0 y1) as [Hy|Hy]|].
  { (* a single point *)
    subst x1 y1. rewrite !Z.sub_diag in Hend. cbn in Hend.
    rewrite (writeLine_row fuel x0 x0 y0 c) by (unfold int16; lia).
    rewrite Z.sub_diag. eexists. split; [reflexivity|]. cbn.
    split; [exact I | left; split; reflexivity]. }
  all: unfold writeLine;
    (destruct (Z.abs (y1 - y0) >? Z.abs (x1 - x0)) eqn:Hsteep;
     [apply Z.gtb_lt in Hsteep
     | rewrite Z.gtb_ltb in Hsteep; apply Z.ltb_ge in Hsteep]).
  all: try (destruct (y0 >? y1) eqn:Hswap;
            [apply Z.gtb_lt in Hswap
            | rewrite Z.gtb_ltb in Hswap; apply Z.ltb_ge in Hswap];
            [destruct (Hscan true y1 x1 y0 x0) as (t & Ht & Hc & Hh & Hl);
             try (unfold int16; lia);
             exists t; split; [exact Ht|]; split; [exact Hc|]; right; auto
            |destruct (Hscan true y0 x0 y1 x1) as (t & Ht & Hc & Hh & Hl);
             try (unfold int16; lia);
             exists t; split; [exact Ht|]; split; [exact Hc|]; left; auto]).
  all: try (exfalso; lia).
  destruct (x0 >? x1) eqn:Hswap;
    [apply Z.gtb_lt in Hswap
    | rewrite Z.gtb_ltb in Hswap; apply Z.ltb_ge in Hswap].
  - destruct (Hscan false x1 y1 x0 y0) as (t & Ht & Hc & Hh & Hl);
      try (unfold int16; lia).
    exists t. split; [exact Ht|]. split; [exact Hc|]. right. auto.
  - destruct (Hscan false x0 y0 x1 y1) as (t & Ht & Hc & Hh & Hl);
      try (unfold int16; lia).
    exists t. split; [exact Ht|]. split; [exact Hc|]. left. auto.
Qed.

Lemma writeLine_connected_path_witness :
  exists t,
    writeLine (Z.to_nat 65536) 7 2 0 5 9 = Some (tt, t) /\
    connected8 t /\
    ((hd (FillBlock 0 0 0 0 0) t = SetPixel 7 2 9 /\
      last t (FillBlock 0 0 0 0 0) = SetPixel 0 5 9) \/
     (hd (FillBlock 0 0 0 0 0) t = SetPixel 0 5 9 /\
      last t (FillBlock 0 0 0 0 0) = SetPixel 7 2 9)).
Proof.
  apply (writeLine_connected_path (Z.to_nat 65536) 7 2 0 5 9);
    unfold int16, major_end; cbn; lia.
Defined.

(** ** drawTriangle: the order of the vertices *)

Lemma drawLine_sym (fuel : nat) (x0 y0 x1 y1 c : Z) :
  drawLine fuel x0 y0 x1 y1 c = drawLine fuel x1 y1 x0 y0 c.
Proof.
  unfold drawLine.
  rewrite (Z.eqb_sym x1 x0), (Z.eqb_sym y1 y0).
  destruct (x0 =? x1) eqn:Hx; [apply Z.eqb_eq in Hx; subst x1|].
  - destruct (y0 >? y1) eqn:H01, (y1 >? y0) eqn:H10; try lia; try reflexivity.
    assert (y0 = y1) by lia. subst. reflexivity.
  - destruct (y0 =? y1) eqn:Hy; [apply Z.eqb_eq in Hy; subst y1|].
    + destruct (x0 >? x1) eqn:H01, (x1 >? x0) eqn:H10; try lia; reflexivity.
    + apply writeLine_sym.
Qed.

Lemma same_picture_refl (m : paint) : same_picture m m.
Proof. destruct m as [[[] t]|]; cbn; [intros e; tauto | exact I]. Qed.

Lemma same_picture_trans (m1 m2 m3 : paint) :
  same_picture m1 m2 -> same_picture m2 m3 -> same_picture m1 m3.
Proof.
  destruct m1 as [[[] t1]|], m2 as [[[] t2]|], m3 as [[[] t3]|]; cbn; try tauto.
  unfold same_calls. intros H12 H23 e. rewrite (H12 e). apply H23.
Qed.

(** Three drawings in sequence paint the same picture after a rotation or an
    exchange. *)
Lemma same_picture_rotate (a b c : paint) :
  same_picture (a ;; b ;; c) (b ;; c ;; a).
Proof.
  destruct a as [[[] ta]|], b as [[[] tb]|], c as [[[] tc]|]; cbn; try exact I.
  intros e. rewrite !in_app_iff. tauto.
Qed.

Lemma same_picture_swap (a b c : paint) :
  same_picture (a ;; b ;; c) (a ;; c ;; b).
Proof.
  destruct a as [[[] ta]|], b as [[[] tb]|], c as [[[] tc]|]; cbn; try exact I.
  intros e. rewrite !in_app_iff. tauto.
Qed.

Lemma drawTriangle_rotate (fuel : nat) (x0 y0 x1 y1 x2 y2 c : Z) :
  same_picture (drawTriangle fuel x1 y1 x2 y2 x0 y0 c)
               (drawTriangle fuel x0 y0 x1 y1 x2 y2 c).
Proof.
  unfold drawTriangle.
  eapply same_picture_trans; apply same_picture_rotate.
Qed.

Lemma drawTriangle_swap (fuel : nat) (x0 y0 x1 y1 x2 y2 c : Z) :
  same_picture (drawTriangle fuel x1 y1 x0 y0 x2 y2 c)
               (drawTriangle fuel x0 y0 x1 y1 x2 y2 c).
Proof.
  unfold drawTriangle.
  rewrite (drawLine_sym fuel x1 y1 x0 y0), (drawLine_sym fuel x0 y0 x2 y2),
    (drawLine_sym fuel x2 y2 x1 y1).
  apply same_picture_swap.
Qed.

(** The three sides of a triangle on scannable vertices are drawn in full. *)
Lemma drawLine_complete (fuel : nat) (x0 y0 x1 y1 c : Z) :
  scannable x0 -> scannable y0 -> scannable x1 -> scannable y1 ->
  65536 <= Z.of_nat fuel ->
  exists t, drawLine fuel x0 y0 x1 y1 c = Some (tt, t) /\ Forall is_pixel t.
Proof.
  intros Hx0 Hy0 Hx1 Hy1 Hfuel.
  assert (Hspan : forall a b, -32768 <= a <= b -> b <= 32766 ->
                          scannable (wrap16 (a + wrap16 (b - a + 1) - 1))).
  { intros a b Ha Hb. rewrite span_end; unfold scannable, int16; lia. }
  unfold drawLine.
  destruct (x0 =? x1) eqn:Hx; [apply Z.eqb_eq in Hx; subst x1|].
  - destruct (y0 >? y1) eqn:H01;
      [apply Z.gtb_lt in H01 | rewrite Z.gtb_ltb in H01; apply Z.ltb_ge in H01].
    + destruct (drawFastVLine_count fuel x0 y1 (wrap16 (y0 - y1 + 1)) c)
        as (t & Ht & _ & Hp); auto.
      { apply Hspan; unfold scannable in *; lia. }
      exists t. auto.
    + destruct (drawFastVLine_count fuel x0 y0 (wrap16 (y1 - y0 + 1)) c)
        as (t & Ht & _ & Hp); auto.
      { apply Hspan; unfold scannable in *; lia. }
      exists t. auto.
  - destruct (y0 =? y1) eqn:Hy; [apply Z.eqb_eq in Hy; subst y1|].
    + assert (int16 y0) by (unfold scannable, int16 in *; lia).
      destruct (x0 >? x1) eqn:H01;
        [apply Z.gtb_lt in H01 | rewrite Z.gtb_ltb in H01; apply Z.ltb_ge in H01].
      * destruct (drawFastHLine_count fuel x1 y0 (wrap16 (x0 - x1 + 1)) c)
          as (t & Ht & _ & Hp); auto.
        { apply Hspan; unfold scannable in *; lia. }
        exists t. auto.
      * destruct (drawFastHLine_count fuel x0 y0 (wrap16 (x1 - x0 + 1)) c)
          as (t & Ht & _ & Hp); auto.
        { apply Hspan; unfold scannable in *; lia. }
        exists t. auto.
    + destruct (writeLine_count fuel x0 y0 x1 y1 c) as (t & Ht & _ & Hp);
        unfold scannable, int16 in *; try lia.
      { unfold major_end. destruct (_ >? _); lia. }
      exists t. auto.
Qed.

(** X4.  drawTriangle paints the same set of pixels whatever the order in
    which the three vertices are passed (the order of the writes changes);
    a run that does not end in one order does not end in the other.  With
    coordinates below 32767 it completes and only writes pixels. *)
Theorem drawTriangle_permutation (v0 v1 v2 w0 w1 w2 : Z * Z) (c : Z) :
  Permutation [v0; v1; v2] [w0; w1; w2] ->
  (forall fuel,
      same_picture
        (drawTriangle fuel (fst w0) (snd w0) (fst w1) (snd w1) (fst w2) (snd w2) c)
        (drawTriangle fuel (fst v0) (snd v0) (fst v1) (snd v1) (fst v2) (snd v2) c)) /\
  (scannable (fst v0) -> scannable (snd v0) -> scannable (fst v1) ->
   scannable (snd v1) -> scannable (fst v2) -> scannable (snd v2) ->
   forall fuel, 65536 <= Z.of_nat fuel ->
   exists t,
     drawTriangle fuel (fst v0) (snd v0) (fst v1) (snd v1) (fst v2) (snd v2) c
     = Some (tt, t) /\ Forall is_pixel t).
Proof.
  intros H. split.
  - intros fuel. apply Permutation_three in H.
    destruct v0 as [x0 y0], v1 as [x1 y1], v2 as [x2 y2]. cbn [fst snd].
    destruct H as [H | [H | [H | [H | [H | H]]]]]; injection H as -> -> ->;
      cbn [fst snd].
    + apply same_picture_refl.
    + (* v0 v2 v1 *)
      eapply same_picture_trans; [apply drawTriangle_swap|].
      eapply same_picture_trans; apply drawTriangle_rotate.
    + apply drawTriangle_swap.
    + (* v1 v2 v0 *)
      apply drawTriangle_rotate.
    + (* v2 v0 v1 *)
      eapply same_picture_trans; apply drawTriangle_rotate.
    + (* v2 v1 v0 *)
      eapply same_picture_trans; [apply drawTriangle_swap|].
      apply drawTriangle_rotate.
  - intros H0 H1 H2 H3 H4 H5 fuel Hfuel. unfold drawTriangle.
    destruct (drawLine_complete fuel (fst v0) (snd v0) (fst v1) (snd v1) c)
      as (t1 & E1 & P1); auto.
    destruct (drawLine_complete fuel (fst v1) (snd v1) (fst v2) (snd v2) c)
      as (t2 & E2 & P2); auto.
    destruct (drawLine_complete fuel (fst v2) (snd v2) (fst v0) (snd v0) c)
      as (t3 & E3 & P3); auto.
    rewrite E1, E2, E3. cbn [bind]. eexists. split; [reflexivity|].
    repeat (apply Forall_app; split; try assumption).
Qed.

Lemma drawTriangle_permutation_witness :
  (forall fuel,
      same_picture (drawTriangle fuel 9 4 0 0 3 8 7)
                   (drawTriangle fuel 0 0 3 8 9 4 7)) /\
  exists t,
    drawTriangle (Z.to_nat 65536) 0 0 3 8 9 4 7 = Some (tt, t) /\ Forall is_pixel t.
Proof.
  assert (P : Permutation [(0, 0); (3, 8); (9, 4)] [(9, 4); (0, 0); (3, 8)]).
  { apply Permutation_sym. apply (Permutation_cons_app [_; _] []).
    apply Permutation_refl. }
  split.
  - apply (proj1 (drawTriangle_permutation (0, 0) (3, 8) (9, 4)
                    (9, 4) (0, 0) (3, 8) 7 P)).
  - apply (proj2 (drawTriangle_permutation (0, 0) (3, 8) (9, 4)
                    (9, 4) (0, 0) (3, 8) 7 P));
      unfold scannable; cbn [fst snd]; lia.
Defined.

(** ** The midpoint recurrence follows the circle *)

Lemma midpoint_init_exact (r : Z) :
  1 <= r <= 16383 -> midpoint_exact r (midpoint_init r).
Proof.
  intros Hr. unfold midpoint_exact, midpoint_init. cbn [mp_x mp_y mp_f mp_ddF_x mp_ddF_y].
  rewrite !wrap16_id by (unfold int16; lia). repeat split; lia.
Qed.

(** One step from an exact state with [x < y]: the new point is near the
    circle, and the new state is exact again if the loop goes on. *)
Lemma midpoint_next_exact (r : Z) (m : midpoint) :
  r <= 16383 -> midpoint_exact r m -> mp_x m < mp_y m ->
  let m' := midpoint_next m in
  mp_x m' = mp_x m + 1 /\
  (mp_y m' = mp_y m \/ mp_y m' = mp_y m - 1) /\
  mp_x m' <= mp_y m' + 1 /\
  near_circle r (mp_x m') (mp_y m') /\
  (mp_x m' < mp_y m' -> midpoint_exact r m').
Proof.
  intros Hr (Hx & Hy & Hdx & Hdy & Hf & Hfr) Hlt.
  unfold near_circle, midpoint_exact, midpoint_next.
  destruct m as [f ddx ddy x y]. cbn [mp_x mp_y mp_f mp_ddF_x mp_ddF_y] in *.
  subst ddx ddy.
  destruct (f >=? 0) eqn:Hsign; cbn [mp_x mp_y mp_f mp_ddF_x mp_ddF_y].
  - assert (0 <= f) by lia.
    rewrite (wrap16_id (y - 1)), (wrap16_id (x + 1)), (wrap16_id (-2 * y + 2)),
      (wrap16_id (2 * x + 1 + 2)) by (unfold int16; lia).
    rewrite (wrap16_id (f + (-2 * y + 2))) by (unfold int16; lia).
    rewrite (wrap16_id (f + (-2 * y + 2) + (2 * x + 1 + 2))) by (unfold int16; lia).
    repeat split; try lia; try nia.
  - assert (f < 0) by lia.
    rewrite (wrap16_id (x + 1)), (wrap16_id (2 * x + 1 + 2)) by (unfold int16; lia).
    rewrite (wrap16_id (f + (2 * x + 1 + 2))) by (unfold int16; lia).
    repeat split; try lia; try nia.
Qed.

(** The loop of drawCircle from an exact state: it ends, and every point it
    plots is one of the eight images of an offset near the circle. *)
Lemma drawCircle_loop_near (n : nat) :
  forall x0 y0 c r m,
    r <= 16383 -> mp_y m <= r -> 0 <= mp_x m ->
    (mp_x m < mp_y m -> midpoint_exact r m) ->
    mp_y m - mp_x m <= Z.of_nat n ->
    exists t,
      (forall fuel, (n < fuel)%nat -> drawCircle_loop fuel x0 y0 c m = Some (tt, t)) /\
      forall e, In e t ->
        exists x y,
          1 <= x /\ 0 <= y /\ near_circle r x y /\ In e (octants x0 y0 x y c).
Proof.
  induction n as [|n IH]; intros x0 y0 c r m Hr Hy Hx Hex Hn.
  - exists []. split; [|intros e []].
    intros [|fuel] Hf; [lia|]. cbn [drawCircle_loop].
    replace (mp_x m <? mp_y m) with false by (symmetry; apply Z.ltb_ge; lia).
    reflexivity.
  - destruct (mp_x m <? mp_y m) eqn:Hlt.
    + apply Z.ltb_lt in Hlt.
      destruct (midpoint_next_exact r m Hr (Hex Hlt) Hlt) as (Hx' & Hy' & _ & Hnear & Hex').
      assert (A1 : mp_y (midpoint_next m) <= r) by (destruct Hy' as [-> | ->]; lia).
      assert (A2 : 0 <= mp_x (midpoint_next m)) by lia.
      assert (A3 : mp_y (midpoint_next m) - mp_x (midpoint_next m) <= Z.of_nat n)
        by (destruct Hy' as [-> | ->]; lia).
      destruct (IH x0 y0 c r (midpoint_next m) Hr A1 A2 Hex' A3) as (t & Ht & Hpts).
      exists (octants x0 y0 (mp_x (midpoint_next m)) (mp_y (midpoint_next m)) c ++ t).
      split.
      * intros [|fuel] Hf; [lia|]. cbn [drawCircle_loop].
        rewrite (proj2 (Z.ltb_lt _ _) Hlt), drawCircle_plot_octants.
        cbn [bind]. rewrite Ht by lia. reflexivity.
      * intros e He. apply in_app_or in He. destruct He as [He|He]; [|auto].
        exists (mp_x (midpoint_next m)), (mp_y (midpoint_next m)).
        repeat split; try assumption; try lia.
    + exists []. split; [|intros e []].
      intros [|fuel] Hf; [lia|]. cbn [drawCircle_loop]. rewrite Hlt. reflexivity.
Qed.

Lemma midpoint_init_start (r : Z) :
  0 <= r <= 16383 ->
  mp_x (midpoint_init r) < mp_y (midpoint_init r) ->
  midpoint_exact r (midpoint_init r).
Proof.
  intros Hr Hlt. cbn [midpoint_init mp_x mp_y] in Hlt.
  apply midpoint_init_exact. lia.
Qed.

(** An offset near the circle is within the radius on each axis. *)
Lemma near_circle_bound (r x y : Z) :
  0 <= r -> near_circle r x y -> Z.abs x <= r /\ Z.abs y <= r.
Proof. unfold near_circle. intros Hr H. split; nia. Qed.

(** X5.  For a radius 0 <= r <= 16383 and a center such that x0 +- r and
    y0 +- r are int16, drawCircle completes, writes only pixels of the color
    asked, and every pixel (px, py) it writes is on the circle up to
    rounding: |(px - x0)^2 + (py - y0)^2 - r^2| <= r, less than one pixel
    away from the circle. *)
Theorem drawCircle_near_circle (x0 y0 r c : Z) :
  0 <= r <= 16383 ->
  int16 (x0 - r) -> int16 (x0 + r) -> int16 (y0 - r) -> int16 (y0 + r) ->
  exists t,
    (forall fuel, r < Z.of_nat fuel -> drawCircle fuel x0 y0 r c = Some (tt, t)) /\
    forall e, In e t ->
      exists px py,
        e = SetPixel px py c /\ near_circle r (px - x0) (py - y0).
Proof.
  intros Hr B1 B2 B3 B4. unfold int16 in *.
  destruct (drawCircle_loop_near (Z.to_nat r) x0 y0 c r (midpoint_init r))
    as (t & Ht & Hpts); try (cbn [midpoint_init mp_x mp_y]; lia).
  { apply midpoint_init_start. lia. }
  eexists. split.
  - intros fuel Hf. unfold drawCircle, writePixel, drawPixel.
    rewrite !bind_emit, Ht by lia. reflexivity.
  - intros e He. cbn [In] in He.
    destruct He as [<- | [<- | [<- | [<- | He]]]].
    1-4: eexists; eexists; (split; [reflexivity|]);
      rewrite ?wrap16_id by (unfold int16; lia); unfold near_circle; nia.
    destruct (Hpts e He) as (x & y & Hx & Hy & Hnear & Hin).
    destruct (near_circle_bound r x y ltac:(lia) Hnear) as [Bx By].
    unfold octants in Hin. cbn [In] in Hin. unfold near_circle in *.
    repeat (destruct Hin as [<- | Hin]); try contradiction;
      eexists; eexists; (split; [reflexivity|]);
      rewrite !wrap16_id by (unfold int16; lia);
      match goal with
      | |- Z.abs (?a * ?a + ?b * ?b - _) <= _ =>
          replace (a * a + b * b) with (x * x + y * y) by nia
      end; exact Hnear.
Qed.

Lemma drawCircle_near_circle_witness :
  exists t,
    (forall fuel, 8 < Z.of_nat fuel -> drawCircle fuel 10 10 8 7 = Some (tt, t)) /\
    forall e, In e t ->
      exists px py,
        e = SetPixel px py 7 /\ near_circle 8 (px - 10) (py - 10).
Proof.
  apply (drawCircle_near_circle 10 10 8 7); unfold int16; lia.
Defined.

(** ** drawCircleHelper: the corner mask *)

Lemma drawCircleHelper_loop_step (fuel : nat) (x0 y0 mask c : Z) (m : midpoint) :
  drawCircleHelper_loop (S fuel) x0 y0 mask c m
  = if mp_x m <? mp_y m then
      emitted <- Some (tt, corner_points x0 y0 mask (mp_x (midpoint_next m))
                             (mp_y (midpoint_next m)) c) ;;
      drawCircleHelper_loop fuel x0 y0 mask c (midpoint_next m)
    else ret tt.
Proof.
  cbn [drawCircleHelper_loop]. destruct (mp_x m <? mp_y m); [|reflexivity].
  unfold corner_points, writePixel, drawPixel.
  destruct (has_bits mask 4), (has_bits mask 2), (has_bits mask 8), (has_bits mask 1);
    cbn [when bind emit ret app];
    destruct (drawCircleHelper_loop fuel x0 y0 mask c (midpoint_next m))
      as [[[] t]|]; reflexivity.
Qed.

(** With all four corner bits drawCircleHelper plots the same eight points
    per iteration as drawCircle, in another order. *)
Lemma corner_points_all (x0 y0 x y c : Z) :
  Permutation (octants x0 y0 x y c) (corner_points x0 y0 15 x y c).
Proof.
  unfold octants, corner_points. cbn [has_bits Z.land Z.eqb negb app].
  repeat
    (first [ apply Permutation_refl
           | apply (Permutation_cons_app [] _ _)
           | apply (Permutation_cons_app [_] _ _)
           | apply (Permutation_cons_app [_; _] _ _)
           | apply (Permutation_cons_app [_; _; _] _ _)
           | apply (Permutation_cons_app [_; _; _; _] _ _)
           | apply (Permutation_cons_app [_; _; _; _; _] _ _)
           | apply (Permutation_cons_app [_; _; _; _; _; _] _ _)
           | apply (Permutation_cons_app [_; _; _; _; _; _; _] _ _) ];
     cbn [app]).
Qed.

Lemma circle_loops_agree (fuel : nat) :
  forall x0 y0 c m,
    match drawCircle_loop fuel x0 y0 c m,
          drawCircleHelper_loop fuel x0 y0 15 c m with
    | Some (_, t1), Some (_, t2) => Permutation t1 t2
    | None, None => True
    | _, _ => False
    end.
Proof.
  induction fuel as [|fuel IH]; intros x0 y0 c m; [exact I|].
  rewrite drawCircleHelper_loop_step. cbn [drawCircle_loop].
  destruct (mp_x m <? mp_y m); [|cbn; apply Permutation_refl].
  rewrite drawCircle_plot_octants. cbn [bind].
  specialize (IH x0 y0 c (midpoint_next m)).
  destruct (drawCircle_loop fuel x0 y0 c (midpoint_next m)) as [[[] t1]|],
           (drawCircleHelper_loop fuel x0 y0 15 c (midpoint_next m)) as [[[] t2]|];
    try contradiction; [|exact I].
  apply Permutation_app; [apply corner_points_all | exact IH].
Qed.

(** X6.  drawCircle is the four axis points followed by what
    drawCircleHelper draws with all four corner bits set: with fuel above
    the radius both complete, and the pixel writes are the same up to their
    order. *)
Theorem drawCircle_is_four_corners (fuel : nat) (x0 y0 r c : Z) :
  int16 r -> Z.max 0 r < Z.of_nat fuel ->
  exists t arcs,
    drawCircle fuel x0 y0 r c = Some (tt, t) /\
    drawCircleHelper fuel x0 y0 r 15 c = Some (tt, arcs) /\
    Permutation t
      (SetPixel x0 (wrap16 (y0 + r)) c :: SetPixel x0 (wrap16 (y0 - r)) c ::
       SetPixel (wrap16 (x0 + r)) y0 c :: SetPixel (wrap16 (x0 - r)) y0 c :: arcs).
Proof.
  intros Hr Hfuel.
  destruct (drawCircleHelper_complete fuel x0 y0 r 15 c Hr Hfuel) as (arcs & Harcs & _).
  pose proof (circle_loops_agree fuel x0 y0 c (midpoint_init r)) as H.
  unfold drawCircle, writePixel, drawPixel. rewrite !bind_emit.
  unfold drawCircleHelper in *. rewrite Harcs in *.
  destruct (drawCircle_loop fuel x0 y0 c (midpoint_init r)) as [[[] t1]|];
    [|contradiction].
  eexists. exists arcs. split; [reflexivity|]. split; [reflexivity|].
  repeat apply perm_skip. exact H.
Qed.

Lemma drawCircle_is_four_corners_witness :
  exists t arcs,
    drawCircle 9 10 10 8 7 = Some (tt, t) /\
    drawCircleHelper 9 10 10 8 15 7 = Some (tt, arcs) /\
    Permutation t
      (SetPixel 10 (wrap16 (10 + 8)) 7 :: SetPixel 10 (wrap16 (10 - 8)) 7 ::
       SetPixel (wrap16 (10 + 8)) 10 7 :: SetPixel (wrap16 (10 - 8)) 10 7 :: arcs).
Proof.
  apply (drawCircle_is_four_corners 9 10 10 8 7); unfold int16; lia.
Defined.

Lemma drawCircleHelper_loop_near (n : nat) :
  forall x0 y0 mask c r m,
    r <= 16383 -> mp_y m <= r -> 0 <= mp_x m ->
    (mp_x m < mp_y m -> midpoint_exact r m) ->
    mp_y m - mp_x m <= Z.of_nat n ->
    exists t,
      (forall fuel, (n < fuel)%nat ->
         drawCircleHelper_loop fuel x0 y0 mask c m = Some (tt, t)) /\
      forall e, In e t ->
        exists x y,
          1 <= x /\ 0 <= y /\ near_circle r x y /\
          In e (corner_points x0 y0 mask x y c).
Proof.
  induction n as [|n IH]; intros x0 y0 mask c r m Hr Hy Hx Hex Hn.
  - exists []. split; [|intros e []].
    intros [|fuel] Hf; [lia|]. rewrite drawCircleHelper_loop_step.
    replace (mp_x m <? mp_y m) with false by (symmetry; apply Z.ltb_ge; lia).
    reflexivity.
  - destruct (mp_x m <? mp_y m) eqn:Hlt.
    + apply Z.ltb_lt in Hlt.
      destruct (midpoint_next_exact r m Hr (Hex Hlt) Hlt) as (Hx' & Hy' & _ & Hnear & Hex').
      assert (A1 : mp_y (midpoint_next m) <= r) by lia.
      assert (A2 : 0 <= mp_x (midpoint_next m)) by lia.
      assert (A3 : mp_y (midpoint_next m) - mp_x (midpoint_next m) <= Z.of_nat n) by lia.
      destruct (IH x0 y0 mask c r (midpoint_next m) Hr A1 A2 Hex' A3) as (t & Ht & Hpts).
      eexists. split.
      * intros [|fuel] Hf; [lia|]. rewrite drawCircleHelper_loop_step.
        rewrite (proj2 (Z.ltb_lt _ _) Hlt). cbn [bind]. rewrite Ht by lia. reflexivity.
      * intros e He. apply in_app_or in He. destruct He as [He|He]; [|auto].
        exists (mp_x (midpoint_next m)), (mp_y (midpoint_next m)).
        repeat split; try assumption; try lia.
    + exists []. split; [|intros e []].
      intros [|fuel] Hf; [lia|]. rewrite drawCircleHelper_loop_step, Hlt. reflexivity.
Qed.

(** The arc pixels of drawCircleHelper: on the circle up to rounding, each
    in the quadrant of a corner bit of the mask. *)
Lemma drawCircleHelper_arcs (x0 y0 r mask c : Z) :
  0 <= r <= 16383 ->
  int16 (x0 - r) -> int16 (x0 + r) -> int16 (y0 - r) -> int16 (y0 + r) ->
  exists t,
    (forall fuel, r < Z.of_nat fuel ->
       drawCircleHelper fuel x0 y0 r mask c = Some (tt, t)) /\
    forall e, In e t ->
      exists px py bit,
        e = SetPixel px py c /\
        near_circle r (px - x0) (py - y0) /\
        has_bits mask bit = true /\ in_corner x0 y0 bit px py.
Proof.
  intros Hr B1 B2 B3 B4. unfold int16 in *.
  destruct (drawCircleHelper_loop_near (Z.to_nat r) x0 y0 mask c r (midpoint_init r))
    as (t & Ht & Hpts); try (cbn [midpoint_init mp_x mp_y]; lia).
  { apply midpoint_init_start. lia. }
  exists t. split.
  - intros fuel Hf. unfold drawCircleHelper. apply Ht. lia.
  - intros e He.
    destruct (Hpts e He) as (x & y & Hx & Hy & Hnear & Hin).
    destruct (near_circle_bound r x y ltac:(lia) Hnear) as [Bx By].
    unfold corner_points in Hin. unfold near_circle, in_corner in *.
    repeat (apply in_app_or in Hin; destruct Hin as [Hin|Hin]);
      match type of Hin with
      | In _ (if has_bits mask ?b then _ else _) =>
          destruct (has_bits mask b) eqn:Hbit; [|contradiction];
          cbn [In] in Hin;
          repeat (destruct Hin as [<- | Hin]); try contradiction;
          eexists; eexists; exists b; (split; [reflexivity|]);
          rewrite !wrap16_id by (unfold int16; lia);
          (split;
           [match goal with
            | |- Z.abs (?a * ?a + ?b' * ?b' - _) <= _ =>
                replace (a * a + b' * b') with (x * x + y * y) by nia
            end; exact Hnear
           |split; [exact Hbit | lia]])
      end.
Qed.

(** X7.  For a radius 0 <= r <= 16383 and a center such that x0 +- r and
    y0 +- r are int16, drawCircleHelper completes and every pixel it writes
    has the color asked, is on the circle up to rounding, and lies in the
    quadrant of a corner bit that is set in the mask (1 up left, 2 up right,
    4 down right, 8 down left); with none of the four bits set it writes
    nothing. *)
Theorem drawCircleHelper_corners (x0 y0 r mask c : Z) :
  0 <= r <= 16383 ->
  int16 (x0 - r) -> int16 (x0 + r) -> int16 (y0 - r) -> int16 (y0 + r) ->
  exists t,
    (forall fuel, r < Z.of_nat fuel ->
       drawCircleHelper fuel x0 y0 r mask c = Some (tt, t)) /\
    (forall e, In e t ->
       exists px py bit,
         e = SetPixel px py c /\
         near_circle r (px - x0) (py - y0) /\
         has_bits mask bit = true /\ in_corner x0 y0 bit px py) /\
    (Z.land mask 15 = 0 -> t = []).
Proof.
  intros Hr B1 B2 B3 B4.
  destruct (drawCircleHelper_arcs x0 y0 r mask c Hr B1 B2 B3 B4) as (t & Hrun & Hin).
  exists t. split; [exact Hrun|]. split; [exact Hin|].
  intros Hmask. destruct t as [|e t]; [reflexivity|]. exfalso.
  destruct (Hin e (in_eq e t)) as (px & py & bit & _ & _ & Hbit & Hcorner).
  assert (Hsub : Z.land 15 bit = bit).
  { unfold in_corner in Hcorner.
    destruct Hcorner as [(-> & _)|[(-> & _)|[(-> & _)|(-> & _)]]]; reflexivity. }
  unfold has_bits in Hbit. apply negb_true_iff, Z.eqb_neq in Hbit.
  apply Hbit. rewrite <- Hsub, Z.land_assoc, Hmask. reflexivity.
Qed.

Lemma drawCircleHelper_corners_witness :
  exists t,
    (forall fuel, 8 < Z.of_nat fuel ->
       drawCircleHelper fuel 10 10 8 4 7 = Some (tt, t)) /\
    (forall e, In e t ->
       exists px py bit,
         e = SetPixel px py 7 /\
         near_circle 8 (px - 10) (py - 10) /\
         has_bits 4 bit = true /\ in_corner 10 10 bit px py) /\
    (Z.land 4 15 = 0 -> t = []).
Proof.
  apply (drawCircleHelper_corners 10 10 8 4 7); unfold int16; lia.
Defined.

(** ** fillTriangle: one span per row, between the edges *)

Lemma zrange_cons (lo : Z) (n : nat) : zrange lo (S n) = lo :: zrange (lo + 1) n.
Proof.
  unfold zrange. cbn [seq map]. rewrite Z.add_0_r. f_equal.
  rewrite <- seq_shift, map_map. apply map_ext. intros i. lia.
Qed.

Lemma zrange_app (lo : Z) (n k : nat) :
  zrange lo (n + k) = zrange lo n ++ zrange (lo + Z.of_nat n) k.
Proof.
  revert lo. induction n as [|n IH]; intros lo.
  - change (Z.of_nat 0) with 0. rewrite Z.add_0_r. reflexivity.
  - cbn [Nat.add]. rewrite !zrange_cons, IH. cbn [app].
    replace (lo + 1 + Z.of_nat n) with (lo + Z.of_nat (S n)) by lia. reflexivity.
Qed.

Lemma In_zrange (lo : Z) (n : nat) (i : Z) :
  In i (zrange lo n) <-> lo <= i < lo + Z.of_nat n.
Proof.
  unfold zrange. rewrite in_map_iff. split.
  - intros (k & <- & Hk). apply in_seq in Hk. lia.
  - intros Hi. exists (Z.to_nat (i - lo)). split; [lia|]. apply in_seq. lia.
Qed.

(** The incremental sums of a row loop follow the longhand crossings: from
    row [y] to row [last], edge a having its upper end in row [ya] and edge
    b in row [yb], the recorded spans are the spans between the two
    crossings, one per row. *)
Lemma fillTriangle_rows_spans (n : nat) :
  forall fuel xa dxa dya xb dxb dyb last c y ya yb,
    (n < fuel)%nat ->
    n = Z.to_nat (last + 1 - y) -> y <= last + 1 ->
    -16383 <= y -> small last ->
    0 < dya <= 32766 -> 0 < dyb <= 32766 ->
    ya <= y -> yb <= y -> last - ya <= dya -> last - yb <= dyb ->
    small xa -> small (xa + dxa) -> small xb -> small (xb + dxb) ->
    fillTriangle_rows record_span fuel xa dxa dya xb dxb dyb last c y
      (dxa * (y - ya)) (dxb * (y - yb))
    = Some (last + 1,
            map (fun row => span_between (xa + Z.quot (dxa * (row - ya)) dya)
                                         (xb + Z.quot (dxb * (row - yb)) dyb) row)
                (zrange y n)).
Proof.
  induction n as [|n IH];
    intros fuel xa dxa dya xb dxb dyb last c y ya yb
      Hfuel Hn Hle Hy Hlast Hdya Hdyb Hka Hkb Hea Heb Hxa Hxa' Hxb Hxb';
    [|destruct fuel as [|fuel]; [lia|]].
  - rewrite fillTriangle_rows_skip by lia.
    replace y with (last + 1) by lia. reflexivity.
  - cbn [fillTriangle_rows]. unfold small in *.
    replace (y <=? last) with true by (symmetry; apply Z.leb_le; lia).
    rewrite !cdiv_pos by lia. cbn [lift bind].
    pose proof (edge_crossing_bounds xa dxa dya (y - ya) ltac:(lia) ltac:(lia)) as Ba.
    pose proof (edge_crossing_bounds xb dxb dyb (y - yb) ltac:(lia) ltac:(lia)) as Bb.
    rewrite zrange_cons. cbn [map].
    set (qa := Z.quot (dxa * (y - ya)) dya) in *.
    set (qb := Z.quot (dxb * (y - yb)) dyb) in *.
    rewrite (wrap16_id (xa + qa)), (wrap16_id (xb + qb)) by (unfold int16; lia).
    rewrite (wrap16_id (y + 1)) by (unfold int16; lia).
    replace (wrap32 (dxa * (y - ya) + dxa)) with (dxa * (y + 1 - ya))
      by (rewrite wrap32_id; nia).
    replace (wrap32 (dxb * (y - yb) + dxb)) with (dxb * (y + 1 - yb))
      by (rewrite wrap32_id; nia).
    assert (Hrest := IH fuel xa dxa dya xb dxb dyb last c (y + 1) ya yb).
    rewrite Hrest by (unfold small; lia). clear Hrest.
    unfold span_between, record_span.
    destruct (xa + qa >? xb + qb) eqn:Hab;
      [apply Z.gtb_lt in Hab | rewrite Z.gtb_ltb in Hab; apply Z.ltb_ge in Hab];
      rewrite bind_emit; cbn [bind app];
      rewrite wrap16_id by (unfold int16; lia).
    + replace (Z.min (xa + qa) (xb + qb)) with (xb + qb) by lia.
      replace (Z.abs (xb + qb - (xa + qa)) + 1) with (xa + qa - (xb + qb) + 1) by lia.
      reflexivity.
    + replace (Z.min (xa + qa) (xb + qb)) with (xa + qa) by lia.
      replace (Z.abs (xb + qb - (xa + qa)) + 1) with (xb + qb - (xa + qa) + 1) by lia.
      reflexivity.
Qed.

(** The spans of a triangle that is not flat and whose vertices are in
    ascending order of y. *)
Lemma fillTriangle_sorted_spans (fuel : nat) (x0 y0 x1 y1 x2 y2 c : Z) :
  small x0 -> small y0 -> small x1 -> small y1 -> small x2 -> small y2 ->
  y0 <= y1 <= y2 -> y0 < y2 ->
  32768 <= Z.of_nat fuel ->
  fillTriangle_sorted record_span fuel (x0, y0, x1, y1, x2, y2) c
  = Some (tt, map (triangle_row x0 y0 x1 y1 x2 y2)
                  (zrange y0 (Z.to_nat (y2 - y0 + 1)))).
Proof.
  unfold small. intros Hx0 Hy0 Hx1 Hy1 Hx2 Hy2 Hsorted Hne Hfuel.
  unfold fillTriangle_sorted.
  replace (Z.to_nat (y2 - y0 + 1)) with (Z.to_nat (y2 + 1 - y0)) by lia.
  replace (y0 =? y2) with false by (symmetry; apply Z.eqb_neq; lia).
  rewrite (wrap16_id (x1 - x0)), (wrap16_id (y1 - y0)), (wrap16_id (x2 - x0)),
    (wrap16_id (y2 - y0)), (wrap16_id (x2 - x1)), (wrap16_id (y2 - y1))
    by (unfold int16; lia).
  replace 0 with ((x1 - x0) * (y0 - y0)) at 1 by (rewrite Z.sub_diag; apply Z.mul_0_r).
  replace 0 with ((x2 - x0) * (y0 - y0)) at 1 by (rewrite Z.sub_diag; apply Z.mul_0_r).
  destruct (y1 =? y2) eqn:H12; [apply Z.eqb_eq in H12 | apply Z.eqb_neq in H12].
  - (* flat bottom: the upper loop draws every row *)
    rewrite (fillTriangle_rows_spans (Z.to_nat (y1 + 1 - y0)))
      by (unfold small; lia).
    cbn [bind]. rewrite fillTriangle_rows_skip by lia. cbn [bind ret app].
    rewrite app_nil_r. subst y2. do 2 f_equal.
    apply map_ext. intros row. unfold triangle_row, edge_x.
    rewrite Z.eqb_refl, orb_true_r. reflexivity.
  - rewrite (wrap16_id (y1 - 1)) by (unfold int16; lia).
    destruct (Z.eq_dec y0 y1) as [H01|H01].
    + (* flat top: the lower loop draws every row *)
      subst y1. rewrite fillTriangle_rows_skip by lia.
      rewrite bind_ret.
      rewrite (wrap32_id ((x2 - x1) * (y0 - y0))), (wrap32_id ((x2 - x0) * (y0 - y0)))
        by (rewrite Z.sub_diag; lia).
      rewrite (fillTriangle_rows_spans (Z.to_nat (y2 + 1 - y0)))
        by (unfold small; lia).
      cbn [bind ret app]. rewrite app_nil_r. do 2 f_equal.
      apply map_ext_in. intros row Hrow. apply In_zrange in Hrow.
      unfold triangle_row, edge_x.
      replace (row <? y0) with false by (symmetry; apply Z.ltb_ge; lia).
      replace (y0 =? y2) with false by (symmetry; apply Z.eqb_neq; lia).
      reflexivity.
    + rewrite (fillTriangle_rows_spans (Z.to_nat (y1 - 1 + 1 - y0)))
        by (unfold small; lia).
      cbn [bind]. replace (y1 - 1 + 1) with y1 by lia.
      rewrite (wrap32_id ((x2 - x1) * (y1 - y1))) by (rewrite Z.sub_diag; lia).
      rewrite (wrap32_id ((x2 - x0) * (y1 - y0))) by nia.
      rewrite (fillTriangle_rows_spans (Z.to_nat (y2 + 1 - y1)))
        by (unfold small; lia).
      cbn [bind ret app]. rewrite app_nil_r.
      replace (Z.to_nat (y2 + 1 - y0))
        with (Z.to_nat (y1 - y0) + Z.to_nat (y2 + 1 - y1))%nat by lia.
      rewrite zrange_app, map_app.
      replace (y0 + Z.of_nat (Z.to_nat (y1 - y0))) with y1 by lia.
      replace (Z.to_nat (y1 - y0)) with (Z.to_nat (y1 - 1 + 1 - y0)) by lia.
      do 3 f_equal.
      * apply map_ext_in. intros row Hrow. apply In_zrange in Hrow.
        unfold triangle_row, edge_x.
        replace (row <? y1) with true by (symmetry; apply Z.ltb_lt; lia).
        reflexivity.
      * apply map_ext_in. intros row Hrow. apply In_zrange in Hrow.
        unfold triangle_row, edge_x.
        replace (row <? y1) with false by (symmetry; apply Z.ltb_ge; lia).
        replace (y1 =? y2) with false by (symmetry; apply Z.eqb_neq; lia).
        reflexivity.
Qed.

(** *** From the recorded spans to the pixels *)

Lemma drawFastHLines_app (fuel : nat) (c : Z) (l1 l2 : list span) :
  drawFastHLines fuel c (l1 ++ l2)
  = (drawFastHLines fuel c l1 ;; drawFastHLines fuel c l2).
Proof.
  induction l1 as [|s l1 IH]; cbn [app drawFastHLines].
  - rewrite bind_ret. reflexivity.
  - rewrite IH, bind_assoc. reflexivity.
Qed.

(** A row loop on the device draws the spans that its recording run
    lists, and leaves the same row counter. *)
Lemma fillTriangle_rows_paints (fuel' : nat) (fuel : nat) :
  forall xa dxa dya xb dxb dyb last c y sa sb y' spans,
    fillTriangle_rows record_span fuel xa dxa dya xb dxb dyb last c y sa sb
    = Some (y', spans) ->
    fillTriangle_rows (drawFastHLine fuel') fuel xa dxa dya xb dxb dyb last c y sa sb
    = (drawFastHLines fuel' c spans ;; ret y').
Proof.
  induction fuel as [|fuel IH]; intros until spans; [discriminate|].
  cbn [fillTriangle_rows].
  destruct (y <=? last); [|intros [= <- <-]; reflexivity].
  destruct (cdiv sa dya) as [qa|]; [|discriminate].
  destruct (cdiv sb dyb) as [qb|]; [|discriminate].
  rewrite !bind_lift_Some.
  destruct (wrap16 (xa + qa) >? wrap16 (xb + qb));
    unfold record_span; rewrite bind_emit; cbv beta;
    destruct (fillTriangle_rows (fun x y len _ => emit (Span x y len)) fuel
                _ _ _ _ _ _ _ _ _ _ _)
      as [[y1 rest]|] eqn:Hrest; try discriminate;
    intros [= <- <-]; rewrite (IH _ _ _ _ _ _ _ _ _ _ _ _ _ Hrest);
    cbn [drawFastHLines span_x span_y span_len];
    rewrite bind_assoc; reflexivity.
Qed.

Lemma fillTriangle_sorted_paints (fuel' : nat) (fuel : nat) (v : vertices) (c : Z)
  (spans : list span) :
  fillTriangle_sorted record_span fuel v c = Some (tt, spans) ->
  fillTriangle_sorted (drawFastHLine fuel') fuel v c = drawFastHLines fuel' c spans.
Proof.
  destruct v as [[[[[x0 y0] x1] y1] x2] y2].
  destruct (y0 =? y2) eqn:Hflat.
  - apply Z.eqb_eq in Hflat. subst y2. rewrite !fillTriangle_sorted_flat.
    intros [= <-]. cbn [drawFastHLines span_x span_y span_len].
    rewrite bind_ret_r. reflexivity.
  - unfold fillTriangle_sorted. rewrite Hflat.
    intros H.
    apply bind_Some in H. destruct H as (y & t1 & t2 & Hup & H & ->).
    apply bind_Some in H. destruct H as (y' & t3 & t4 & Hlow & [= <-] & ->).
    rewrite (fillTriangle_rows_paints fuel' fuel _ _ _ _ _ _ _ _ _ _ _ _ _ Hup).
    rewrite bind_assoc, bind_ret.
    rewrite (fillTriangle_rows_paints fuel' fuel _ _ _ _ _ _ _ _ _ _ _ _ _ Hlow).
    rewrite app_nil_r, drawFastHLines_app.
    rewrite !bind_assoc.
    destruct (drawFastHLines fuel' c t1) as [[[] u1]|]; [|reflexivity].
    destruct (drawFastHLines fuel' c t3) as [[[] u3]|]; [|reflexivity].
    cbn [bind ret]. rewrite !app_nil_r. reflexivity.
Qed.

Lemma drawFastHLines_pixels (fuel : nat) (c lo hi : Z) (l : list span) :
  small lo -> small hi ->
  (forall s, In s l -> span_within lo hi s) -> 65536 <= Z.of_nat fuel ->
  drawFastHLines fuel c l = Some (tt, flat_map (hspan_pixels c) l).
Proof.
  unfold small. intros Hlo Hhi Hfit Hfuel. induction l as [|s l IH]; [reflexivity|].
  cbn [drawFastHLines flat_map].
  destruct (Hfit s (in_eq s l)) as (Hx & Hn & Hend).
  unfold drawFastHLine. rewrite (wrap16_id (span_x s + span_len s - 1))
    by (unfold int16; lia).
  rewrite writeLine_row by (unfold int16; lia).
  cbn [bind]. rewrite IH by (intros s' Hs'; apply Hfit; right; exact Hs').
  unfold hspan_pixels. repeat f_equal. lia.
Qed.

(** *** The spans stay inside the bounding box *)

Lemma edge_x_bounds (xa ya xb yb y : Z) :
  ya < yb -> ya <= y <= yb ->
  Z.min xa xb <= edge_x xa ya xb yb y <= Z.max xa xb.
Proof.
  intros Hlt Hy. unfold edge_x.
  pose proof (edge_crossing_bounds xa (xb - xa) (yb - ya) (y - ya)
                ltac:(lia) ltac:(lia)) as H.
  replace (xa + (xb - xa)) with xb in H by lia. exact H.
Qed.

Lemma triangle_row_within (x0 y0 x1 y1 x2 y2 y : Z) :
  y0 <= y1 <= y2 -> y0 < y2 -> y0 <= y <= y2 ->
  span_within (min3 x0 x1 x2) (max3 x0 x1 x2) (triangle_row x0 y0 x1 y1 x2 y2 y).
Proof.
  intros Hs Hne Hy. unfold span_within, triangle_row, span_between, min3, max3.
  cbn [span_x span_len].
  pose proof (edge_x_bounds x0 y0 x2 y2 y Hne Hy) as Hb.
  destruct (y <? y1) eqn:Hup; [apply Z.ltb_lt in Hup | apply Z.ltb_ge in Hup];
    cbn [orb].
  - pose proof (edge_x_bounds x0 y0 x1 y1 y ltac:(lia) ltac:(lia)). lia.
  - destruct (y1 =? y2) eqn:Hbot; [apply Z.eqb_eq in Hbot | apply Z.eqb_neq in Hbot].
    + pose proof (edge_x_bounds x0 y0 x1 y1 y ltac:(lia) ltac:(lia)). lia.
    + pose proof (edge_x_bounds x1 y1 x2 y2 y ltac:(lia) ltac:(lia)). lia.
Qed.

Lemma sort_by_y_id (x0 y0 x1 y1 x2 y2 : Z) :
  y0 <= y1 <= y2 ->
  sort_by_y (x0, y0, x1, y1, x2, y2) = (x0, y0, x1, y1, x2, y2).
Proof.
  intros H. unfold sort_by_y.
  replace (y0 >? y1) with false by (symmetry; rewrite Z.gtb_ltb; apply Z.ltb_ge; lia).
  cbv beta iota.
  replace (y1 >? y2) with false by (symmetry; rewrite Z.gtb_ltb; apply Z.ltb_ge; lia).
  cbv beta iota.
  replace (y0 >? y1) with false by (symmetry; rewrite Z.gtb_ltb; apply Z.ltb_ge; lia).
  reflexivity.
Qed.

(** The sort keeps the bounding box, and any bound that holds of all
    coordinates. *)
Lemma sort_by_y_box (x0 y0 x1 y1 x2 y2 : Z) :
  let '(a0, b0, a1, b1, a2, b2) := sort_by_y (x0, y0, x1, y1, x2, y2) in
  b0 <= b1 <= b2 /\
  b0 = min3 y0 y1 y2 /\ b2 = max3 y0 y1 y2 /\
  min3 a0 a1 a2 = min3 x0 x1 x2 /\ max3 a0 a1 a2 = max3 x0 x1 x2 /\
  (small x0 -> small x1 -> small x2 -> small a0 /\ small a1 /\ small a2).
Proof.
  unfold sort_by_y, min3, max3.
  repeat (match goal with
          | |- context [if ?b then _ else _] => destruct b eqn:?
          end; cbv beta iota);
    repeat split; unfold small in *; lia.
Qed.

(** X8.  For vertices given in ascending order of y, not all on one row
    and with small coordinates, fillTriangle calls drawFastHLine once per
    row from y0 to y2, in that order, and the span of row y runs between
    the crossings of the row with the long edge 0-2 and with the edge 0-1
    (above y1, or when y1 = y2) or 1-2 (from y1 on), computed by the
    longhand formula x + dx * (y - ytop) / dy; the pixels painted are those
    of these spans. *)
Theorem fillTriangle_rows_between_edges (fuel : nat) (x0 y0 x1 y1 x2 y2 c : Z) :
  small x0 -> small y0 -> small x1 -> small y1 -> small x2 -> small y2 ->
  y0 <= y1 <= y2 -> y0 < y2 ->
  65536 <= Z.of_nat fuel ->
  let spans := map (triangle_row x0 y0 x1 y1 x2 y2)
                   (zrange y0 (Z.to_nat (y2 - y0 + 1))) in
  fillTriangle_spans fuel x0 y0 x1 y1 x2 y2 c = Some (tt, spans) /\
  fillTriangle fuel x0 y0 x1 y1 x2 y2 c = Some (tt, flat_map (hspan_pixels c) spans).
Proof.
  intros Hx0 Hy0 Hx1 Hy1 Hx2 Hy2 Hs Hne Hfuel spans.
  assert (Hrec : fillTriangle_sorted record_span fuel (x0, y0, x1, y1, x2, y2) c
                 = Some (tt, spans))
    by (apply fillTriangle_sorted_spans; auto; lia).
  unfold fillTriangle_spans, fillTriangle, fillTriangle_with.
  rewrite sort_by_y_id by exact Hs. split; [exact Hrec|].
  rewrite (fillTriangle_sorted_paints fuel fuel _ c spans Hrec).
  apply (drawFastHLines_pixels fuel c (min3 x0 x1 x2) (max3 x0 x1 x2));
    try (unfold small, min3, max3 in *; lia).
  intros s Hin. apply in_map_iff in Hin. destruct Hin as (row & <- & Hrow).
  apply In_zrange in Hrow. apply triangle_row_within; lia.
Qed.

Lemma fillTriangle_rows_between_edges_witness :
  let spans := map (triangle_row 0 0 6 3 2 8) (zrange 0 (Z.to_nat (8 - 0 + 1))) in
  fillTriangle_spans (Z.to_nat 65536) 0 0 6 3 2 8 7 = Some (tt, spans) /\
  fillTriangle (Z.to_nat 65536) 0 0 6 3 2 8 7
  = Some (tt, flat_map (hspan_pixels 7) spans).
Proof.
  apply (fillTriangle_rows_between_edges (Z.to_nat 65536) 0 0 6 3 2 8 7);
    unfold small; lia.
Defined.

(** X9.  For vertices with small coordinates in any order, fillTriangle
    completes; it calls drawFastHLine once for each row from the least to
    the greatest y of the vertices, in ascending order; every span has at
    least one pixel and stays between the least and the greatest x of the
    vertices; and the pixels painted are those of these spans. *)
Theorem fillTriangle_scanlines (fuel : nat) (x0 y0 x1 y1 x2 y2 c : Z) :
  small x0 -> small y0 -> small x1 -> small y1 -> small x2 -> small y2 ->
  65536 <= Z.of_nat fuel ->
  exists spans,
    fillTriangle_spans fuel x0 y0 x1 y1 x2 y2 c = Some (tt, spans) /\
    fillTriangle fuel x0 y0 x1 y1 x2 y2 c = Some (tt, flat_map (hspan_pixels c) spans) /\
    map span_y spans
    = zrange (min3 y0 y1 y2) (Z.to_nat (max3 y0 y1 y2 - min3 y0 y1 y2 + 1)) /\
    Forall (span_within (min3 x0 x1 x2) (max3 x0 x1 x2)) spans.
Proof.
  intros Hx0 Hy0 Hx1 Hy1 Hx2 Hy2 Hfuel.
  unfold fillTriangle_spans, fillTriangle, fillTriangle_with.
  pose proof (sort_by_y_box x0 y0 x1 y1 x2 y2) as Hbox.
  pose proof (sort_by_y_box y0 x0 y1 x1 y2 x2) as Hboy.
  destruct (sort_by_y (x0, y0, x1, y1, x2, y2)) as [[[[[a0 b0] a1] b1] a2] b2].
  destruct Hbox as (Hs & Hmin & Hmax & Hxmin & Hxmax & Hsmall).
  destruct (Hsmall Hx0 Hx1 Hx2) as (Ha0 & Ha1 & Ha2).
  assert (Hb : small b0 /\ small b1 /\ small b2)
    by (unfold small, min3, max3 in *; lia).
  destruct Hb as (Hb0 & Hb1 & Hb2). clear Hboy Hsmall.
  rewrite <- Hmin, <- Hmax, <- Hxmin, <- Hxmax.
  assert (Hlo : small (min3 a0 a1 a2)) by (unfold small, min3 in *; lia).
  assert (Hhi : small (max3 a0 a1 a2)) by (unfold small, max3 in *; lia).
  clear Hmin Hmax Hxmin Hxmax.
  assert (Hgen : forall spans,
            fillTriangle_sorted record_span fuel (a0, b0, a1, b1, a2, b2) c
            = Some (tt, spans) ->
            (forall s, In s spans -> span_within (min3 a0 a1 a2) (max3 a0 a1 a2) s) ->
            fillTriangle_sorted record_span fuel (a0, b0, a1, b1, a2, b2) c
            = Some (tt, spans) /\
            fillTriangle_sorted (drawFastHLine fuel) fuel (a0, b0, a1, b1, a2, b2) c
            = Some (tt, flat_map (hspan_pixels c) spans)).
  { intros spans Hrec Hin. split; [exact Hrec|].
    rewrite (fillTriangle_sorted_paints fuel fuel _ c spans Hrec).
    apply (drawFastHLines_pixels fuel c (min3 a0 a1 a2) (max3 a0 a1 a2)); assumption. }
  destruct (Z.eq_dec b0 b2) as [Hflat|Hne].
  - subst b2. assert (b1 = b0) by lia. subst b1.
    exists [Span (min3 a0 a1 a2) b0 (max3 a0 a1 a2 - min3 a0 a1 a2 + 1)].
    assert (Hin : span_within (min3 a0 a1 a2) (max3 a0 a1 a2)
                    (Span (min3 a0 a1 a2) b0 (max3 a0 a1 a2 - min3 a0 a1 a2 + 1)))
      by (unfold span_within, min3, max3; cbn [span_x span_len]; lia).
    assert (Hone : fillTriangle_sorted record_span fuel (a0, b0, a1, b0, a2, b0) c
                   = Some (tt, [Span (min3 a0 a1 a2) b0
                                  (max3 a0 a1 a2 - min3 a0 a1 a2 + 1)])).
    { rewrite fillTriangle_sorted_flat.
      rewrite wrap16_id by (unfold int16, small, min3, max3 in *; lia).
      reflexivity. }
    destruct (Hgen _ Hone) as [Hrec Hpaint]; [intros s [<-|[]]; exact Hin|].
    repeat split; try assumption.
    + rewrite Z.sub_diag. change (Z.to_nat (0 + 1)) with 1%nat.
      rewrite zrange_cons. reflexivity.
    + constructor; [exact Hin|constructor].
  - exists (map (triangle_row a0 b0 a1 b1 a2 b2) (zrange b0 (Z.to_nat (b2 - b0 + 1)))).
    assert (Hin : forall s,
              In s (map (triangle_row a0 b0 a1 b1 a2 b2)
                      (zrange b0 (Z.to_nat (b2 - b0 + 1)))) ->
              span_within (min3 a0 a1 a2) (max3 a0 a1 a2) s).
    { intros s Hin. apply in_map_iff in Hin. destruct Hin as (row & <- & Hrow).
      apply In_zrange in Hrow. apply triangle_row_within; lia. }
    destruct (Hgen _ (fillTriangle_sorted_spans fuel a0 b0 a1 b1 a2 b2 c
                        Ha0 Hb0 Ha1 Hb1 Ha2 Hb2 Hs ltac:(lia) ltac:(lia)) Hin)
      as [Hrec Hpaint].
    repeat split; try assumption.
    + rewrite map_map. cbn [triangle_row span_between span_y]. apply map_id.
    + apply Forall_forall. exact Hin.
Qed.

Lemma fillTriangle_scanlines_witness :
  exists spans,
    fillTriangle_spans (Z.to_nat 65536) 2 8 6 3 0 0 7 = Some (tt, spans) /\
    fillTriangle (Z.to_nat 65536) 2 8 6 3 0 0 7
    = Some (tt, flat_map (hspan_pixels 7) spans) /\
    map span_y spans = zrange (min3 8 3 0) (Z.to_nat (max3 8 3 0 - min3 8 3 0 + 1)) /\
    Forall (span_within (min3 2 6 0) (max3 2 6 0)) spans.
Proof.
  apply (fillTriangle_scanlines (Z.to_nat 65536) 2 8 6 3 0 0 7); unfold small; lia.
Defined.

(** ** fillCircle paints a disc *)

(** The decision of one step, read as a fact about the circle: the point
    just above the new one is outside the circle, and when y went down the
    point beside the old one is outside too. *)
Lemma midpoint_next_outside (r : Z) (m : midpoint) :
  r <= 16383 -> midpoint_exact r m -> mp_x m < mp_y m ->
  let m' := midpoint_next m in
  r * r < mp_x m' * mp_x m' + (mp_y m' + 1) * (mp_y m' + 1) /\
  (mp_y m' <> mp_y m ->
   r * r < mp_y m * mp_y m + (mp_x m + 1) * (mp_x m + 1)).
Proof.
  intros Hr (Hx & Hy & Hdx & Hdy & Hf & Hfr) Hlt.
  unfold midpoint_next.
  destruct m as [f ddx ddy x y]. cbn [mp_x mp_y mp_f mp_ddF_x mp_ddF_y] in *.
  subst ddx ddy.
  destruct (f >=? 0) eqn:Hsign; cbn [mp_x mp_y mp_f mp_ddF_x mp_ddF_y].
  - assert (0 <= f) by lia.
    rewrite (wrap16_id (y - 1)), (wrap16_id (x + 1)) by (unfold int16; lia).
    split; [|intros _]; nia.
  - assert (f < 0) by lia.
    rewrite (wrap16_id (x + 1)) by (unfold int16; lia).
    split; [nia|intros Hne; contradiction].
Qed.

Lemma abs_le_of_square (e h : Z) :
  0 <= h -> e * e < (h + 1) * (h + 1) -> Z.abs e <= h.
Proof. intros Hh He. destruct (Z.abs_spec e) as [[_ ->] | [_ ->]]; nia. Qed.

Lemma drawFastVLine_pixels (fuel : nat) (c : Z) (s : span) :
  span_fits s -> 65536 <= Z.of_nat fuel ->
  drawFastVLine fuel (span_x s) (span_y s) (span_len s) c
  = Some (tt, span_pixels c s).
Proof.
  destruct s as [x y n]. unfold span_fits, span_pixels, scannable, int16.
  cbn [span_x span_y span_len]. intros (Hx & Hy & Hn & Hend) Hfuel.
  unfold drawFastVLine. rewrite (wrap16_id (y + n - 1)) by (unfold int16; lia).
  rewrite writeLine_col by (unfold scannable, int16; lia).
  repeat f_equal. lia.
Qed.

Lemma drawFastVLines_pixels (fuel : nat) (c : Z) (l : list span) :
  (forall s, In s l -> span_fits s) -> 65536 <= Z.of_nat fuel ->
  drawFastVLines fuel c l = Some (tt, flat_map (span_pixels c) l).
Proof.
  intros Hfit Hfuel. induction l as [|s l IH]; [reflexivity|].
  cbn [drawFastVLines flat_map].
  rewrite drawFastVLine_pixels by (auto using in_eq).
  cbn [bind]. rewrite IH by (intros s' Hs'; apply Hfit; right; exact Hs').
  reflexivity.
Qed.

Lemma In_span_pixels (c : Z) (s : span) (e : sink_call) :
  In e (span_pixels c s) <->
  exists py, span_y s <= py < span_y s + Z.max 0 (span_len s) /\
             e = SetPixel (span_x s) py c.
Proof.
  unfold span_pixels. rewrite In_col_pixels.
  replace (Z.of_nat (Z.to_nat (span_len s))) with (Z.max 0 (span_len s)) by lia.
  reflexivity.
Qed.

Lemma In_column_pair (corners x0 y0 delta d h : Z) (s : span) :
  In s (column_pair corners x0 y0 delta d h) ->
  (span_x s = x0 + d /\ has_bits corners 1 = true \/
   span_x s = x0 - d /\ has_bits corners 2 = true) /\
  span_y s = y0 - h /\ span_len s = 2 * h + delta.
Proof.
  unfold column_pair.
  destruct (has_bits corners 1), (has_bits corners 2); cbn [app In];
    intros H; repeat (destruct H as [<- | H]); try contradiction; cbn; auto.
Qed.

(** The loop of fillCircleHelper from an exact state: it ends; its spans
    are column pairs inside the radius plus rounding; and every column
    between the current x and y is spanned as far as the circle reaches. *)
Lemma fillCircleHelper_loop_disc (n : nat) :
  forall x0 y0 corners delta c r m,
    r <= 16383 -> 0 <= delta -> 2 * r + delta <= 32767 ->
    int16 (x0 - r) -> int16 (x0 + r) -> int16 (y0 - r) -> y0 <= 32767 ->
    0 <= mp_x m -> mp_y m <= r ->
    (mp_x m < mp_y m -> midpoint_exact r m) ->
    mp_x m * mp_x m + mp_y m * mp_y m <= r * r + r ->
    mp_y m - mp_x m <= Z.of_nat n ->
    exists spans,
      (forall fuel, (n < fuel)%nat ->
         fillCircleHelper_loop record_span fuel x0 y0 corners delta c m
           (mp_x m) (mp_y m)
         = Some (tt, spans)) /\
      (forall s, In s spans ->
         exists d h, 1 <= d <= r /\ 0 <= h <= r /\ d * d + h * h <= r * r + r /\
                     In s (column_pair corners x0 y0 delta d h)) /\
      (forall d e, mp_x m < d <= mp_y m -> d * d + e * e <= r * r ->
         exists h, Z.abs e <= h <= r /\
                   forall s, In s (column_pair corners x0 y0 delta d h) -> In s spans).
Proof.
  induction n as [|n IH]; intros x0 y0 corners delta c r m Hr D1 D2 B1 B2 B3 B4 Hx Hy Hex Hnear Hn.
  - exists []. split; [|split; [intros e []|intros d e Hd; lia]].
    intros [|fuel] Hf; [lia|]. cbn [fillCircleHelper_loop].
    replace (mp_x m <? mp_y m) with false by (symmetry; apply Z.ltb_ge; lia).
    reflexivity.
  - destruct (mp_x m <? mp_y m) eqn:Hlt.
    2:{ exists []. split; [|split; [intros e []|intros d e Hd; lia]].
        intros [|fuel] Hf; [lia|]. cbn [fillCircleHelper_loop]. rewrite Hlt.
        reflexivity. }
    apply Z.ltb_lt in Hlt.
    destruct (midpoint_next_exact r m Hr (Hex Hlt) Hlt) as (Hx' & Hy' & Hxy' & Hnear' & Hex').
    destruct (midpoint_next_outside r m Hr (Hex Hlt) Hlt) as (Hout1 & Hout2).
    unfold near_circle in Hnear'.
    set (m' := midpoint_next m) in *.
    assert (A1 : 0 <= mp_x m') by lia.
    assert (A2 : mp_y m' <= r) by lia.
    assert (A3 : mp_x m' * mp_x m' + mp_y m' * mp_y m' <= r * r + r) by lia.
    assert (A4 : mp_y m' - mp_x m' <= Z.of_nat n) by lia.
    destruct (IH x0 y0 corners delta c r m' Hr D1 D2 B1 B2 B3 B4 A1 A2 Hex' A3 A4)
      as (rest & Hrest & Hin & Hcover).
    unfold int16 in *.
    exists ((if mp_x m' <? mp_y m' + 1
             then column_pair corners x0 y0 delta (mp_x m') (mp_y m') else []) ++
            (if negb (mp_y m' =? mp_y m)
             then column_pair corners x0 y0 delta (mp_y m) (mp_x m) else []) ++ rest).
    split; [|split].
    + intros [|fuel] Hf; [lia|]. cbn [fillCircleHelper_loop].
      rewrite (proj2 (Z.ltb_lt _ _) Hlt). fold m'.
      rewrite !when_pair_spans. cbn [bind].
      replace (if negb (mp_y m' =? mp_y m) then mp_y m' else mp_y m) with (mp_y m')
        by (destruct (mp_y m' =? mp_y m) eqn:E; cbn [negb];
            [apply Z.eqb_eq in E; congruence | reflexivity]).
      rewrite Hrest by lia.
      unfold column_pair.
      rewrite !wrap16_id by (unfold int16; lia).
      reflexivity.
    + intros s Hs. apply in_app_or in Hs. destruct Hs as [Hs|Hs];
        [|apply in_app_or in Hs; destruct Hs as [Hs|Hs]].
      * destruct (mp_x m' <? mp_y m' + 1) eqn:E; [|contradiction].
        exists (mp_x m'), (mp_y m'). repeat split; try lia. exact Hs.
      * destruct (mp_y m' =? mp_y m) eqn:E; [contradiction|]. cbn [negb] in Hs.
        exists (mp_y m), (mp_x m). repeat split; try lia. exact Hs.
      * apply Hin. exact Hs.
    + intros d e Hd Hde.
      assert (Hy0 : 0 <= mp_y m') by lia.
      assert (Hfar : forall h,
                (forall s, In s (column_pair corners x0 y0 delta d h) -> In s rest) ->
                forall s, In s (column_pair corners x0 y0 delta d h) ->
                  In s ((if mp_x m' <? mp_y m' + 1
                         then column_pair corners x0 y0 delta (mp_x m') (mp_y m')
                         else []) ++
                        (if negb (mp_y m' =? mp_y m)
                         then column_pair corners x0 y0 delta (mp_y m) (mp_x m)
                         else []) ++ rest)).
      { intros h Hall s Hs. apply in_or_app. right. apply in_or_app. right. auto. }
      destruct (Z.eq_dec d (mp_x m')) as [Hdx|Hdx].
      * subst d. destruct (Z.ltb_spec (mp_x m') (mp_y m' + 1)) as [Hle|Hgt].
        -- exists (mp_y m'). split; [split; [apply abs_le_of_square|]; lia|].
           intros s Hs. apply in_or_app. left. exact Hs.
        -- (* the new x passed the new y: y went down, and this is its old column *)
           assert (Hdec : mp_y m' <> mp_y m) by lia.
           specialize (Hout2 Hdec).
           exists (mp_x m). split.
           { split; [|lia]. apply abs_le_of_square; [lia|].
             replace (mp_y m) with (mp_x m') in Hout2 by lia. lia. }
           intros s Hs. apply in_or_app. right. apply in_or_app. left.
           replace (mp_y m' =? mp_y m) with false
             by (symmetry; apply Z.eqb_neq; exact Hdec).
           cbn [negb]. replace (mp_y m) with (mp_x m') by lia. exact Hs.
      * destruct (Z.le_gt_cases d (mp_y m')) as [Hle|Hgt].
        -- destruct (Hcover d e ltac:(lia) Hde) as (h & Hh & Hs).
           exists h. split; [exact Hh|]. apply Hfar. exact Hs.
        -- assert (Hdec : mp_y m' <> mp_y m) by lia.
           specialize (Hout2 Hdec).
           assert (d = mp_y m) by lia. subst d.
           exists (mp_x m). split; [split; [apply abs_le_of_square|]; lia|].
           intros s Hs. apply in_or_app. right. apply in_or_app. left.
           replace (mp_y m' =? mp_y m) with false
             by (symmetry; apply Z.eqb_neq; exact Hdec).
           cbn [negb]. exact Hs.
Qed.

(** fillCircleHelper at pixel level, for a height delta that is not negative and
    a center with room for the corner: it completes, and a pixel is written
    exactly in the columns that the corner bits select, at a distance d in
    1 .. r from the center column, over the rows from e above the center
    row to e + delta below it, where every (d, e) painted has
    d^2 + e^2 <= r^2 + r and every (d, e) with d^2 + e^2 <= r^2 is
    painted. *)
Lemma fillCircleHelper_pixels (fuel : nat) (x0 y0 r corners delta c : Z) :
  0 <= r <= 16383 -> 0 <= delta -> 2 * r + delta + 1 <= 32767 ->
  -32768 <= x0 - r -> x0 + r <= 32766 ->
  -32768 <= y0 - r -> y0 + r + delta <= 32766 ->
  65536 <= Z.of_nat fuel ->
  exists t,
    fillCircleHelper fuel x0 y0 r corners delta c = Some (tt, t) /\
    (forall e, In e t ->
       exists d h py,
         1 <= d <= r /\ 0 <= h <= r /\ d * d + h * h <= r * r + r /\
         y0 - h <= py <= y0 + h + delta /\
         (e = SetPixel (x0 + d) py c /\ has_bits corners 1 = true \/
          e = SetPixel (x0 - d) py c /\ has_bits corners 2 = true)) /\
    (forall d h py,
       1 <= d <= r -> 0 <= h -> d * d + h * h <= r * r ->
       y0 - h <= py <= y0 + h + delta ->
       (has_bits corners 1 = true -> In (SetPixel (x0 + d) py c) t) /\
       (has_bits corners 2 = true -> In (SetPixel (x0 - d) py c) t)).
Proof.
  intros Hr D1 D2 B1 B2 B3 B4 Hfuel.
  destruct (fillCircleHelper_loop_disc (Z.to_nat r) x0 y0 corners (delta + 1) c r
              (midpoint_init r))
    as (spans & Hrun & Hin & Hcover);
    try (unfold int16; cbn [midpoint_init mp_x mp_y]; lia).
  { apply midpoint_init_start. lia. }
  cbn [midpoint_init mp_x mp_y] in Hrun, Hcover.
  assert (Hfit : forall s, In s spans -> span_fits s).
  { intros s Hs. destruct (Hin s Hs) as (d & h & Hd & Hh & _ & Hpair).
    apply In_column_pair in Hpair. destruct Hpair as (Hcol & Hrow & Hlen).
    unfold span_fits, scannable, int16. rewrite Hrow, Hlen.
    destruct Hcol as [[-> _]|[-> _]]; lia. }
  exists (flat_map (span_pixels c) spans).
  split; [|split].
  - unfold fillCircleHelper, fillCircleHelper_with.
    rewrite (wrap16_id (delta + 1)) by (unfold int16; lia).
    cbn [midpoint_init mp_x mp_y].
    rewrite (fillCircleHelper_loop_paints fuel fuel x0 y0 corners (delta + 1) c
               (midpoint_init r) 0 r spans)
      by (apply Hrun; lia).
    apply drawFastVLines_pixels; assumption.
  - intros e He. apply in_flat_map in He. destruct He as (s & Hs & He).
    destruct (Hin s Hs) as (d & h & Hd & Hh & Hdh & Hpair).
    apply In_span_pixels in He. destruct He as (py & Hpy & ->).
    apply In_column_pair in Hpair. destruct Hpair as (Hcol & Hrow & Hlen).
    rewrite Hrow, Hlen in Hpy.
    exists d, h, py. repeat split; try lia.
    destruct Hcol as [[-> Hb]|[-> Hb]]; auto.
  - intros d h py Hd Hh Hdh Hpy.
    destruct (Hcover d h ltac:(lia) Hdh) as (h' & Hh' & Hs).
    split; intros Hbit.
    + apply in_flat_map. exists (Span (x0 + d) (y0 - h') (2 * h' + (delta + 1))).
      split.
      * apply Hs. unfold column_pair. rewrite Hbit. left. reflexivity.
      * apply In_span_pixels. cbn [span_x span_y span_len].
        exists py. split; [lia|reflexivity].
    + apply in_flat_map. exists (Span (x0 - d) (y0 - h') (2 * h' + (delta + 1))).
      split.
      * apply Hs. unfold column_pair. rewrite Hbit. apply in_or_app. right.
        left. reflexivity.
      * apply In_span_pixels. cbn [span_x span_y span_len].
        exists py. split; [lia|reflexivity].
Qed.

Lemma square_le_of_abs (e h : Z) : Z.abs e <= h -> e * e <= h * h.
Proof. intros H. destruct (Z.abs_spec e) as [[_ E] | [_ E]]; rewrite E in H; nia. Qed.

(** X10.  For a radius 0 <= r <= 16383 and a center at least r away from the
    ends of the scannable range, fillCircle completes and paints a disc:
    every pixel it writes has the color asked and is within r^2 + r of the
    center (squared distance), and every pixel within r^2 of the center is
    written. *)
Theorem fillCircle_disc (fuel : nat) (x0 y0 r c : Z) :
  0 <= r <= 16383 ->
  -32768 <= x0 - r -> x0 + r <= 32766 ->
  -32768 <= y0 - r -> y0 + r <= 32766 ->
  65536 <= Z.of_nat fuel ->
  exists t,
    fillCircle fuel x0 y0 r c = Some (tt, t) /\
    (forall e, In e t ->
       exists px py,
         e = SetPixel px py c /\
         (px - x0) * (px - x0) + (py - y0) * (py - y0) <= r * r + r) /\
    (forall px py,
       (px - x0) * (px - x0) + (py - y0) * (py - y0) <= r * r ->
       In (SetPixel px py c) t).
Proof.
  intros Hr B1 B2 B3 B4 Hfuel.
  destruct (fillCircleHelper_pixels fuel x0 y0 r 3 0 c) as (t & Hrun & Hin & Hcover);
    try lia.
  set (axis := Span x0 (y0 - r) (2 * r + 1)).
  exists (span_pixels c axis ++ t).
  split; [|split].
  - unfold fillCircle. rewrite !wrap16_id by (unfold int16; lia).
    change (drawFastVLine fuel x0 (y0 - r) (2 * r + 1) c)
      with (drawFastVLine fuel (span_x axis) (span_y axis) (span_len axis) c).
    rewrite drawFastVLine_pixels;
      [|unfold span_fits, scannable, int16; cbn [axis span_x span_y span_len]; lia|lia].
    rewrite Hrun. reflexivity.
  - intros e He. apply in_app_or in He. destruct He as [He|He].
    + apply In_span_pixels in He. cbn [axis span_x span_y span_len] in He.
      destruct He as (py & Hpy & ->). exists x0, py. split; [reflexivity|].
      assert ((py - y0) * (py - y0) <= r * r) by (apply square_le_of_abs; lia).
      lia.
    + destruct (Hin e He) as (d & h & py & Hd & Hh & Hdh & Hpy & Hcol).
      assert ((py - y0) * (py - y0) <= h * h) by (apply square_le_of_abs; lia).
      destruct Hcol as [[-> _]|[-> _]]; eexists; exists py; (split; [reflexivity|]).
      * replace (x0 + d - x0) with d by lia. lia.
      * replace (x0 - d - x0) with (- d) by lia. rewrite Z.mul_opp_opp. lia.
  - intros px py Hdisc.
    assert (Hdx : 0 <= (px - x0) * (px - x0)) by apply Z.square_nonneg.
    assert (Hdy : 0 <= (py - y0) * (py - y0)) by apply Z.square_nonneg.
    apply in_or_app.
    destruct (Z.eq_dec px x0) as [->|Hne].
    + left. apply In_span_pixels. cbn [axis span_x span_y span_len].
      exists py. split; [|reflexivity].
      assert (Z.abs (py - y0) <= r) by (apply abs_le_of_square; nia).
      lia.
    + right.
      assert (Hd : 1 <= Z.abs (px - x0) <= r).
      { split; [lia|]. apply abs_le_of_square; [lia|].
        rewrite <- Z.abs_square in Hdx, Hdisc.
        nia. }
      assert (Hin2 : Z.abs (px - x0) * Z.abs (px - x0)
                     + Z.abs (py - y0) * Z.abs (py - y0) <= r * r)
        by (rewrite !Z.abs_square; exact Hdisc).
      destruct (Hcover (Z.abs (px - x0)) (Z.abs (py - y0)) py Hd
                  ltac:(lia) Hin2 ltac:(lia)) as [Hright Hleft].
      destruct (Z.abs_spec (px - x0)) as [[Hsgn Habs] | [Hsgn Habs]];
        rewrite Habs in Hright, Hleft.
      * replace px with (x0 + (px - x0)) at 1 by lia. apply Hright. reflexivity.
      * replace px with (x0 - - (px - x0)) at 1 by lia. apply Hleft. reflexivity.
Qed.

Lemma fillCircle_disc_witness :
  exists t,
    fillCircle (Z.to_nat 65536) 20 20 5 7 = Some (tt, t) /\
    (forall e, In e t ->
       exists px py,
         e = SetPixel px py 7 /\
         (px - 20) * (px - 20) + (py - 20) * (py - 20) <= 5 * 5 + 5) /\
    (forall px py,
       (px - 20) * (px - 20) + (py - 20) * (py - 20) <= 5 * 5 ->
       In (SetPixel px py 7) t).
Proof.
  apply (fillCircle_disc (Z.to_nat 65536) 20 20 5 7); lia.
Defined.


(** ** fillRoundRect paints a rounded rectangle *)

Lemma square_le_mono (a b : Z) : 0 <= a <= b -> a * a <= b * b.
Proof. intros H. nia. Qed.

(** X11.  For a radius r >= 0 with 2r <= w and 2r < h, on small
    coordinates, fillRoundRect completes: it fills the block of the columns
    x + r .. x + w - r - 1 over the whole height with one fillRect call, and
    then writes pixels only in the two side bands of r columns, inside the
    rows of the rectangle and within r^2 + r (squared distance) of the
    inner rectangle; every pixel of the side bands within r^2 of the inner
    rectangle is written. *)
Theorem fillRoundRect_shape (fuel : nat) (x y w h r c : Z) :
  0 <= r -> 2 * r <= w -> 2 * r < h ->
  small x -> small y -> small (x + w) -> small (y + h) ->
  65536 <= Z.of_nat fuel ->
  exists t,
    fillRoundRect fuel x y w h r c
    = Some (tt, FillBlock (x + r) y (w - 2 * r) h c :: t) /\
    (forall e, In e t ->
       exists px py,
         e = SetPixel px py c /\
         x <= px < x + w /\ y <= py < y + h /\
         ~ (x + r <= px < x + w - r) /\
         corner_distance2 x y w h r px py <= r * r + r) /\
    (forall px py,
       x <= px < x + w -> y <= py < y + h ->
       ~ (x + r <= px < x + w - r) ->
       corner_distance2 x y w h r px py <= r * r ->
       In (SetPixel px py c) t).
Proof.
  unfold small. intros Hr Hw Hh Hx Hy Hxw Hyh Hfuel.
  destruct (fillCircleHelper_pixels fuel (x + w - r - 1) (y + r) r 1 (h - 2 * r - 1) c)
    as (t1 & Hrun1 & Hin1 & Hcover1); try lia.
  destruct (fillCircleHelper_pixels fuel (x + r) (y + r) r 2 (h - 2 * r - 1) c)
    as (t2 & Hrun2 & Hin2 & Hcover2); try lia.
  change (has_bits 1 1) with true in *. change (has_bits 1 2) with false in *.
  change (has_bits 2 1) with false in *. change (has_bits 2 2) with true in *.
  exists (t1 ++ t2). split; [|split].
  - unfold fillRoundRect. rewrite (max_radius_quot w h) by (unfold int16; lia).
    assert (Hq : r <= Z.quot (Z.min w h) 2) by (apply Z.quot_le_lower_bound; lia).
    replace (r >? Z.quot (Z.min w h) 2) with false
      by (symmetry; rewrite Z.gtb_ltb; apply Z.ltb_ge; exact Hq).
    rewrite !wrap16_id by (unfold int16; lia).
    rewrite Hrun1, Hrun2. reflexivity.
  - intros e He. apply in_app_or in He. destruct He as [He|He].
    + destruct (Hin1 e He) as (d & k & py & Hd & Hk & Hdk & Hpy & Hcol).
      destruct Hcol as [[-> _]|[_ Hbit]]; [|discriminate].
      exists (x + w - r - 1 + d), py. split; [reflexivity|].
      repeat split; try lia. unfold corner_distance2.
      replace (excess (x + r) (x + w - r - 1) (x + w - r - 1 + d)) with d
        by (unfold excess; lia).
      assert (Hdy := square_le_mono (excess (y + r) (y + h - r - 1) py) k
                       ltac:(unfold excess; lia)).
      cbv zeta. lia.
    + destruct (Hin2 e He) as (d & k & py & Hd & Hk & Hdk & Hpy & Hcol).
      destruct Hcol as [[_ Hbit]|[-> _]]; [discriminate|].
      exists (x + r - d), py. split; [reflexivity|].
      repeat split; try lia. unfold corner_distance2.
      replace (excess (x + r) (x + w - r - 1) (x + r - d)) with d
        by (unfold excess; lia).
      assert (Hdy := square_le_mono (excess (y + r) (y + h - r - 1) py) k
                       ltac:(unfold excess; lia)).
      cbv zeta. lia.
  - intros px py Hpx Hpy Hside Hdist. unfold corner_distance2 in Hdist.
    cbv zeta in Hdist.
    set (dy := excess (y + r) (y + h - r - 1) py) in *.
    assert (Hdy : 0 <= dy /\ y + r - dy <= py <= y + r + dy + (h - 2 * r - 1))
      by (unfold dy, excess; lia).
    apply in_or_app.
    destruct (Z_lt_le_dec px (x + r)) as [Hleft|Hright].
    + right.
      replace (excess (x + r) (x + w - r - 1) px) with (x + r - px) in Hdist
        by (unfold excess; lia).
      replace px with (x + r - (x + r - px)) by lia.
      apply (Hcover2 (x + r - px) dy py); lia || reflexivity.
    + left.
      replace (excess (x + r) (x + w - r - 1) px) with (px - (x + w - r - 1)) in Hdist
        by (unfold excess; lia).
      replace px with (x + w - r - 1 + (px - (x + w - r - 1))) by lia.
      apply (Hcover1 (px - (x + w - r - 1)) dy py); lia || reflexivity.
Qed.

Lemma fillRoundRect_shape_witness :
  exists t,
    fillRoundRect (Z.to_nat 65536) 10 20 40 30 8 7
    = Some (tt, FillBlock (10 + 8) 20 (40 - 2 * 8) 30 7 :: t) /\
    (forall e, In e t ->
       exists px py,
         e = SetPixel px py 7 /\
         10 <= px < 10 + 40 /\ 20 <= py < 20 + 30 /\
         ~ (10 + 8 <= px < 10 + 40 - 8) /\
         corner_distance2 10 20 40 30 8 px py <= 8 * 8 + 8) /\
    (forall px py,
       10 <= px < 10 + 40 -> 20 <= py < 20 + 30 ->
       ~ (10 + 8 <= px < 10 + 40 - 8) ->
       corner_distance2 10 20 40 30 8 px py <= 8 * 8 ->
       In (SetPixel px py 7) t).
Proof.
  apply (fillRoundRect_shape (Z.to_nat 65536) 10 20 40 30 8 7); unfold small; lia.
Defined.

(** ** Rounded rectangles without corners *)

Lemma writeLine_no_fuel (x0 y0 x1 y1 c : Z) : writeLine 0 x0 y0 x1 y1 c = None.
Proof.
  unfold writeLine.
  repeat (match goal with
          | |- context [if ?b then _ else _] => destruct b
          end; cbv beta iota zeta);
    reflexivity.
Qed.

Lemma drawCircleHelper_point (fuel : nat) (x0 y0 mask c : Z) :
  drawCircleHelper (S fuel) x0 y0 0 mask c = ret tt.
Proof. reflexivity. Qed.

Lemma fillCircleHelper_point (fuel : nat) (x0 y0 corners delta c : Z) :
  fillCircleHelper (S fuel) x0 y0 0 corners delta c = ret tt.
Proof. reflexivity. Qed.

(** X12.  A rounded rectangle with sides of at least -1 whose radius is
    0, or whose radius is not negative while its smaller side is at most 1
    (so that the clamp makes it 0), has no corners: drawRoundRect issues
    exactly the calls of drawRect, whatever the fuel, and fillRoundRect
    (with any fuel but none) is the single fillRect of the whole
    rectangle. *)
Theorem round_rect_without_corners (fuel : nat) (x y w h r c : Z) :
  int16 x -> int16 y -> int16 w -> int16 h ->
  0 <= r -> -1 <= Z.min w h -> r = 0 \/ Z.min w h <= 1 ->
  drawRoundRect fuel x y w h r c = drawRect fuel x y w h c /\
  fillRoundRect (S fuel) x y w h r c = Some (tt, [FillBlock x y w h c]).
Proof.
  unfold int16. intros Hx Hy Hw Hh Hr Hmin Hcase.
  assert (Hclamp : (if r >? max_radius w h then max_radius w h else r) = 0).
  { rewrite (max_radius_quot w h) by (unfold int16; lia).
    assert (Hq : 0 <= Z.quot (Z.min w h) 2).
    { destruct (Z.eq_dec (Z.min w h) (-1)) as [-> | Hne]; [cbn; lia|].
      apply Z.quot_pos; lia. }
    destruct Hcase as [-> | Hsmall].
    - replace (0 >? Z.quot (Z.min w h) 2) with false
        by (symmetry; rewrite Z.gtb_ltb; apply Z.ltb_ge; exact Hq).
      reflexivity.
    - assert (Hz : Z.quot (Z.min w h) 2 = 0).
      { destruct (Z.eq_dec (Z.min w h) (-1)) as [-> | Hne]; [reflexivity|].
        apply Z.quot_small; lia. }
      rewrite Hz. destruct (r >? 0) eqn:E; [reflexivity|].
      rewrite Z.gtb_ltb in E. apply Z.ltb_ge in E. lia. }
  split.
  - unfold drawRoundRect, drawRect. rewrite Hclamp. cbv zeta.
    rewrite ?Z.add_0_r, ?Z.sub_0_r.
    rewrite (wrap16_id x), (wrap16_id y), (wrap16_id w), (wrap16_id h)
      by (unfold int16; lia).
    destruct fuel as [|fuel].
    + unfold drawFastHLine. rewrite writeLine_no_fuel. reflexivity.
    + rewrite !drawCircleHelper_point, !bind_ret_r. reflexivity.
  - unfold fillRoundRect. rewrite Hclamp. cbv zeta.
    rewrite ?Z.add_0_r, ?Z.sub_0_r.
    rewrite (wrap16_id x), (wrap16_id w) by (unfold int16; lia).
    rewrite !fillCircleHelper_point. reflexivity.
Qed.

Lemma round_rect_without_corners_witness :
  drawRoundRect 40 3 4 5 1 9 7 = drawRect 40 3 4 5 1 7 /\
  fillRoundRect (S 40) 3 4 5 1 9 7 = Some (tt, [FillBlock 3 4 5 1 7]).
Proof.
  apply (round_rect_without_corners 40 3 4 5 1 9 7); unfold int16; lia.
Defined.

(** ** drawRoundRect draws the outline of a rounded rectangle *)

Lemma drawFastHLine_row (fuel : nat) (x y n c : Z) :
  1 <= n <= 32767 -> int16 x -> x + n - 1 <= 32766 ->
  65536 <= Z.of_nat fuel ->
  drawFastHLine fuel x y n c = Some (tt, row_pixels (Z.to_nat n) x y c).
Proof.
  unfold int16. intros Hn Hx Hend Hfuel. unfold drawFastHLine.
  rewrite (wrap16_id (x + n - 1)) by (unfold int16; lia).
  rewrite writeLine_row by (unfold int16; lia).
  repeat f_equal. lia.
Qed.

Lemma drawFastVLine_col (fuel : nat) (x y n c : Z) :
  1 <= n <= 32767 -> scannable x -> int16 y -> y + n - 1 <= 32766 ->
  65536 <= Z.of_nat fuel ->
  drawFastVLine fuel x y n c = Some (tt, col_pixels (Z.to_nat n) x y c).
Proof.
  intros Hn Hx Hy Hend Hfuel.
  apply (drawFastVLine_pixels fuel c (Span x y n)); [|exact Hfuel].
  unfold span_fits. cbn [span_x span_y span_len]. auto.
Qed.

(** A pixel of a corner arc, seen from the rectangle: inside it, and at the
    distance of the radius from the inner rectangle, up to rounding. *)
Lemma corner_arc_on_outline (x y w h r x0 y0 mask px py bit : Z) :
  0 <= r -> 2 * r < w -> 2 * r < h ->
  (mask = 1 /\ x0 = x + r /\ y0 = y + r) \/
  (mask = 2 /\ x0 = x + w - r - 1 /\ y0 = y + r) \/
  (mask = 4 /\ x0 = x + w - r - 1 /\ y0 = y + h - r - 1) \/
  (mask = 8 /\ x0 = x + r /\ y0 = y + h - r - 1) ->
  near_circle r (px - x0) (py - y0) ->
  has_bits mask bit = true -> in_corner x0 y0 bit px py ->
  x <= px < x + w /\ y <= py < y + h /\
  Z.abs (corner_distance2 x y w h r px py - r * r) <= r.
Proof.
  intros Hr Hw Hh Hcorner Hnear Hbit Hin.
  destruct (near_circle_bound r _ _ Hr Hnear) as [Bx By].
  unfold near_circle in Hnear. unfold corner_distance2, in_corner in *.
  destruct Hcorner as [(-> & -> & ->)|[(-> & -> & ->)|[(-> & -> & ->)|(-> & -> & ->)]]];
    destruct Hin as [(-> & Hpx & Hpy)|[(-> & Hpx & Hpy)|[(-> & Hpx & Hpy)|(-> & Hpx & Hpy)]]];
    try discriminate Hbit;
    (split; [lia|split; [lia|]]); cbv zeta;
    match goal with
    | H : Z.abs ((px - ?cx) * (px - ?cx) + (py - ?cy) * (py - ?cy) - _) <= _ |- _ =>
        replace (excess (x + r) (x + w - r - 1) px) with (Z.abs (px - cx))
          by (unfold excess; lia);
        replace (excess (y + r) (y + h - r - 1) py) with (Z.abs (py - cy))
          by (unfold excess; lia)
    end;
    rewrite !Z.abs_square; exact Hnear.
Qed.

(** X13.  For a radius r >= 0 with 2r < w and 2r < h, on small coordinates,
    drawRoundRect completes: it writes the top and the bottom row between
    the corners, then the left and the right column between the corners,
    and then the four corner arcs, every pixel of which is inside the
    rectangle and at the distance r from the inner rectangle up to
    rounding: |d^2 - r^2| <= r for its squared distance d^2. *)
Theorem drawRoundRect_outline (fuel : nat) (x y w h r c : Z) :
  0 <= r -> 2 * r < w -> 2 * r < h ->
  small x -> small y -> small (x + w) -> small (y + h) ->
  65536 <= Z.of_nat fuel ->
  exists arcs,
    drawRoundRect fuel x y w h r c
    = Some (tt, row_pixels (Z.to_nat (w - 2 * r)) (x + r) y c ++
                row_pixels (Z.to_nat (w - 2 * r)) (x + r) (y + h - 1) c ++
                col_pixels (Z.to_nat (h - 2 * r)) x (y + r) c ++
                col_pixels (Z.to_nat (h - 2 * r)) (x + w - 1) (y + r) c ++ arcs) /\
    forall e, In e arcs ->
      exists px py,
        e = SetPixel px py c /\
        x <= px < x + w /\ y <= py < y + h /\
        Z.abs (corner_distance2 x y w h r px py - r * r) <= r.
Proof.
  unfold small. intros Hr Hw Hh Hx Hy Hxw Hyh Hfuel.
  destruct (drawCircleHelper_arcs (x + r) (y + r) r 1 c)
    as (t1 & Hrun1 & Hin1); try (unfold int16; lia).
  destruct (drawCircleHelper_arcs (x + w - r - 1) (y + r) r 2 c)
    as (t2 & Hrun2 & Hin2); try (unfold int16; lia).
  destruct (drawCircleHelper_arcs (x + w - r - 1) (y + h - r - 1) r 4 c)
    as (t3 & Hrun3 & Hin3); try (unfold int16; lia).
  destruct (drawCircleHelper_arcs (x + r) (y + h - r - 1) r 8 c)
    as (t4 & Hrun4 & Hin4); try (unfold int16; lia).
  exists (t1 ++ t2 ++ t3 ++ t4). split.
  - unfold drawRoundRect. rewrite (max_radius_quot w h) by (unfold int16; lia).
    assert (Hq : r <= Z.quot (Z.min w h) 2) by (apply Z.quot_le_lower_bound; lia).
    replace (r >? Z.quot (Z.min w h) 2) with false
      by (symmetry; rewrite Z.gtb_ltb; apply Z.ltb_ge; exact Hq).
    rewrite !wrap16_id by (unfold int16; lia).
    rewrite !drawFastHLine_row by (unfold int16; lia).
    rewrite !drawFastVLine_col by (unfold scannable, int16; lia).
    rewrite Hrun1, Hrun2, Hrun3, Hrun4 by lia.
    cbn [bind]. rewrite ?app_nil_r. reflexivity.
  - intros e He.
    assert (Hcase :
      exists x0 y0 mask px py bit,
        ((mask = 1 /\ x0 = x + r /\ y0 = y + r) \/
         (mask = 2 /\ x0 = x + w - r - 1 /\ y0 = y + r) \/
         (mask = 4 /\ x0 = x + w - r - 1 /\ y0 = y + h - r - 1) \/
         (mask = 8 /\ x0 = x + r /\ y0 = y + h - r - 1)) /\
        e = SetPixel px py c /\ near_circle r (px - x0) (py - y0) /\
        has_bits mask bit = true /\ in_corner x0 y0 bit px py).
    { apply in_app_or in He. destruct He as [He|He];
        [|apply in_app_or in He; destruct He as [He|He];
          [|apply in_app_or in He; destruct He as [He|He]]].
      - destruct (Hin1 e He) as (px & py & bit & H).
        exists (x + r), (y + r), 1, px, py, bit. split; [auto|exact H].
      - destruct (Hin2 e He) as (px & py & bit & H).
        exists (x + w - r - 1), (y + r), 2, px, py, bit. split; [auto|exact H].
      - destruct (Hin3 e He) as (px & py & bit & H).
        exists (x + w - r - 1), (y + h - r - 1), 4, px, py, bit.
        split; [auto 6|exact H].
      - destruct (Hin4 e He) as (px & py & bit & H).
        exists (x + r), (y + h - r - 1), 8, px, py, bit. split; [auto 6|exact H]. }
    destruct Hcase as (x0 & y0 & mask & px & py & bit & Hc & -> & Hnear & Hbit & Hin).
    exists px, py. split; [reflexivity|].
    apply (corner_arc_on_outline x y w h r x0 y0 mask px py bit); assumption.
Qed.

Lemma drawRoundRect_outline_witness :
  exists arcs,
    drawRoundRect (Z.to_nat 65536) 10 20 40 30 8 7
    = Some (tt, row_pixels (Z.to_nat (40 - 2 * 8)) (10 + 8) 20 7 ++
                row_pixels (Z.to_nat (40 - 2 * 8)) (10 + 8) (20 + 30 - 1) 7 ++
                col_pixels (Z.to_nat (30 - 2 * 8)) 10 (20 + 8) 7 ++
                col_pixels (Z.to_nat (30 - 2 * 8)) (10 + 40 - 1) (20 + 8) 7 ++ arcs) /\
    forall e, In e arcs ->
      exists px py,
        e = SetPixel px py 7 /\
        10 <= px < 10 + 40 /\ 20 <= py < 20 + 30 /\
        Z.abs (corner_distance2 10 20 40 30 8 px py - 8 * 8) <= 8.
Proof.
  apply (drawRoundRect_outline (Z.to_nat 65536) 10 20 40 30 8 7); unfold small; lia.
Defined.

(** ** drawGradientBackground *)

Lemma all_below_spec (n : N) (P : Z -> bool) :
  all_below n P = true -> forall z, 0 <= z < Z.of_N n -> P z = true.
Proof.
  unfold all_below.
  assert (H : forall n,
            let s := N.iter n (fun s => (fst s + 1, snd s && P (fst s))) (0, true) in
            fst s = Z.of_N n /\
            (snd s = true -> forall z, 0 <= z < Z.of_N n -> P z = true)).
  { clear n. induction n as [|n IH] using N.peano_ind.
    - cbn. split; [reflexivity|]. intros _ z Hz. lia.
    - rewrite N.iter_succ. cbv zeta in *. destruct IH as [Hfst Hsnd].
      cbn [fst snd]. split; [lia|].
      intros Hall z Hz. apply andb_true_iff in Hall. destruct Hall as [Hall HP].
      destruct (Z.eq_dec z (Z.of_N n)) as [->|Hne].
      + rewrite <- Hfst. exact HP.
      + apply Hsnd; [exact Hall|lia]. }
  intros Hall. apply (H n). exact Hall.
Qed.

(** A positive [int16_t] converts to a positive finite float. *)
Lemma float_of_int16_finite (h : Z) :
  1 <= h <= 32767 -> exists m e, float_of_int h = S754_finite false m e.
Proof.
  intros Hh.
  pose proof (all_below_spec 32768
                (fun z => (z =? 0) ||
                          match float_of_int z with
                          | S754_finite false _ _ => true
                          | _ => false
                          end) ltac:(vm_compute; reflexivity) h ltac:(lia)) as H.
  cbv beta in H.
  replace (h =? 0) with false in H by (symmetry; apply Z.eqb_neq; lia).
  cbn [orb] in H.
  destruct (float_of_int h) as [| | |[|] m e]; try discriminate H.
  exists m, e. reflexivity.
Qed.

(** At [i = 0] the position is 1, not 0. *)
Lemma gradient_position_first (h : Z) :
  1 <= h <= 32767 -> gradient_position 0 h = float_one.
Proof.
  intros Hh. destruct (float_of_int16_finite h Hh) as (m & e & Hfin).
  unfold gradient_position. rewrite Hfin. reflexivity.
Qed.

Lemma interpolateColor_at_one (cstart cend : Z) :
  uint16 cstart -> uint16 cend -> interpolateColor cstart cend float_one = Some cend.
Proof.
  intros Hs He.
  destruct (channel_bounds cstart) as (Rs & Gs & Bs); [unfold uint16 in Hs; lia|].
  destruct (channel_bounds cend) as (Re & Ge & Be); [unfold uint16 in He; lia|].
  destruct (interpolateChannel_ends (red_of cstart) (red_of cend)) as [_ R1]; try lia.
  destruct (interpolateChannel_ends (green_of cstart) (green_of cend)) as [_ G1]; try lia.
  destruct (interpolateChannel_ends (blue_of cstart) (blue_of cend)) as [_ B1]; try lia.
  rewrite interpolateColor_channels, R1, G1, B1.
  rewrite pack565_channels by assumption. reflexivity.
Qed.

(** X14.  drawGradientBackground does not start at its first colour: for a
    display height from 1 to 32767 the position passed to interpolateColor
    for row 0 is (float)0 / _height + 1 = 1, so that row 0 is drawn, from
    column 1 and _width long, in the second colour (BLUE) exactly, and the
    loop goes on with row 1. *)
Theorem drawGradientBackground_first_row (fuel : nat) (w h cstart cend : Z) :
  uint16 cstart -> uint16 cend -> 1 <= h <= 32767 ->
  drawGradientBackground (S fuel) w h cstart cend
  = (drawFastHLine (S fuel) 1 0 w cend ;;
     drawGradientBackground_loop (S fuel) fuel w h cstart cend 1).
Proof.
  intros Hs He Hh.
  unfold drawGradientBackground. cbn [drawGradientBackground_loop].
  replace (0 <? h + 3) with true by (symmetry; apply Z.ltb_lt; lia).
  rewrite gradient_position_first by exact Hh.
  rewrite interpolateColor_at_one by assumption.
  rewrite bind_lift_Some. reflexivity.
Qed.

Lemma drawGradientBackground_first_row_witness :
  drawGradientBackground (S 200) 128 160 0 31
  = (drawFastHLine (S 200) 1 0 128 31 ;;
     drawGradientBackground_loop (S 200) 200 128 160 0 31 1).
Proof.
  apply (drawGradientBackground_first_row 200 128 160 0 31); unfold uint16; lia.
Defined.

(** ** drawLine and writeLine *)

(** X15.  The two special cases of drawLine change nothing: for int16
    endpoints drawLine issues exactly the pixel writes of writeLine on the
    same endpoints, in the same order and with the same need of fuel,
    whether the line is vertical, horizontal or neither. *)
Theorem drawLine_is_writeLine (fuel : nat) (x0 y0 x1 y1 c : Z) :
  int16 x0 -> int16 y0 -> int16 x1 -> int16 y1 ->
  drawLine fuel x0 y0 x1 y1 c = writeLine fuel x0 y0 x1 y1 c.
Proof.
  intros Hx0 Hy0 Hx1 Hy1. unfold drawLine.
  destruct (x0 =? x1) eqn:Hx; [apply Z.eqb_eq in Hx; subst x1|].
  - destruct (y0 >? y1) eqn:Hy; unfold drawFastVLine; rewrite span_end by assumption.
    + apply writeLine_sym.
    + reflexivity.
  - destruct (y0 =? y1) eqn:Hy; [apply Z.eqb_eq in Hy; subst y1|reflexivity].
    destruct (x0 >? x1) eqn:Hgt; unfold drawFastHLine; rewrite span_end by assumption.
    + apply writeLine_sym.
    + reflexivity.
Qed.

Lemma drawLine_is_writeLine_witness :
  drawLine 40 3 9 3 (-2) 7 = writeLine 40 3 9 3 (-2) 7.
Proof.
  apply (drawLine_is_writeLine 40 3 9 3 (-2) 7); unfold int16; lia.
Defined.

(** * The parsers of ESP32_Wifi.c *)

Lemma store_length {A} (buf : list A) (n : nat) (a : A) :
  length (store buf n a) = length buf.
Proof.
  revert n. induction buf as [|x buf IH]; intros [|n]; cbn [store length];
    try reflexivity. rewrite IH. reflexivity.
Qed.

Lemma store_app {A} (out : list A) (x a : A) (rest : list A) :
  store (out ++ x :: rest) (length out) a = out ++ a :: rest.
Proof.
  induction out as [|y out IH]; cbn [app length store]; [reflexivity|].
  rewrite IH. reflexivity.
Qed.

Lemma nth_error_mid {A} (out : list A) (x : A) (rest : list A) :
  nth_error (out ++ x :: rest) (length out) = Some x.
Proof. induction out as [|y out IH]; cbn; auto. Qed.

Lemma c_string_app (s rest : list ascii) :
  ~ In NUL s -> c_string (s ++ NUL :: rest) = s.
Proof.
  induction s as [|c s IH]; intros Hs; cbn [app c_string].
  - rewrite Ascii.eqb_refl. reflexivity.
  - destruct (Ascii.eqb_spec c NUL) as [->|Hne].
    + exfalso. apply Hs. left. reflexivity.
    + rewrite IH; [reflexivity|]. intros H. apply Hs. right. exact H.
Qed.

Lemma c_string_split (buf : list ascii) :
  In NUL buf -> exists rest, buf = c_string buf ++ NUL :: rest.
Proof.
  induction buf as [|c buf IH]; intros Hin; [destruct Hin|].
  cbn [c_string]. destruct (Ascii.eqb_spec c NUL) as [->|Hne].
  - exists buf. reflexivity.
  - destruct Hin as [->|Hin]; [contradiction|].
    destruct (IH Hin) as (rest & Hrest). exists rest. cbn [app]. f_equal. exact Hrest.
Qed.

Lemma c_string_no_NUL (buf : list ascii) : ~ In NUL (c_string buf).
Proof.
  induction buf as [|c buf IH]; cbn [c_string]; [auto|].
  destruct (Ascii.eqb_spec c NUL) as [->|Hne]; [auto|].
  intros [H|H]; [congruence|contradiction].
Qed.

Lemma store_front {A} (out l : list A) (a : A) :
  l <> [] -> store (out ++ l) (length out) a = out ++ a :: skipn 1 l.
Proof.
  intros Hl. destruct l as [|x l]; [contradiction|]. apply store_app.
Qed.

Lemma nth_error_unread {A} (out mid : list A) (x : A) (rest : list A) :
  nth_error (out ++ mid ++ x :: rest) (length out + length mid) = Some x.
Proof.
  rewrite app_assoc, <- length_app. apply nth_error_mid.
Qed.

(** After a write at [j], the character just read joins the stale region
    between [j] and [i]. *)
Lemma stale_shift {A} (mid : list A) (c : A) (tail : list A) (k : nat) :
  exists mid',
    length mid' = length mid /\
    skipn 1 (mid ++ c :: tail) = mid' ++ tail /\
    skipn (S k) (mid' ++ tail) = skipn (S (S k)) (mid ++ c :: tail).
Proof.
  destruct mid as [|m mid].
  - exists []. repeat split.
  - exists (mid ++ [c]). cbn [app skipn length]. rewrite <- !app_assoc.
    rewrite length_app. cbn [length app]. repeat split. lia.
Qed.

(** The loop of Parse_number, from a state where [out] has been written,
    [mid] lies between the write and the read index, and [s] is still to
    be read. *)
Lemma Parse_number_loop_filters (s : list ascii) :
  forall out mid rest fuel,
    ~ In NUL s -> (length s < fuel)%nat ->
    Parse_number_loop fuel (out ++ mid ++ s ++ NUL :: rest)
      (length out + length mid) (length out)
    = Some (out ++ filter number_char s ++
            NUL :: skipn (S (length (filter number_char s)))
                     (mid ++ s ++ NUL :: rest)).
Proof.
  induction s as [|c s IH]; intros out mid rest fuel Hs Hfuel;
    (destruct fuel as [|fuel]; [cbn [length] in Hfuel; lia|]);
    cbn [Parse_number_loop app]; rewrite nth_error_unread.
  - rewrite Ascii.eqb_refl. rewrite store_front by (destruct mid; discriminate).
    reflexivity.
  - destruct (Ascii.eqb_spec c NUL) as [->|Hne];
      [exfalso; apply Hs; left; reflexivity|].
    assert (Hs' : ~ In NUL s) by (intros H; apply Hs; right; exact H).
    cbn [length] in Hfuel. cbn [filter].
    destruct (number_char c).
    + rewrite store_front by (destruct mid; discriminate).
      destruct (stale_shift mid c (s ++ NUL :: rest) (length (filter number_char s)))
        as (mid' & Hlen & Hmid & Hskip).
      rewrite Hmid.
      replace (out ++ c :: mid' ++ s ++ NUL :: rest)
        with ((out ++ [c]) ++ mid' ++ s ++ NUL :: rest)
        by (rewrite <- app_assoc; reflexivity).
      replace (S (length out + length mid)) with (length (out ++ [c]) + length mid')%nat
        by (rewrite length_app; cbn [length]; lia).
      replace (S (length out)) with (length (out ++ [c]))
        by (rewrite length_app; cbn [length]; lia).
      rewrite IH by (auto; lia).
      rewrite <- app_assoc. cbn [app length]. rewrite Hskip. reflexivity.
    + replace (out ++ mid ++ c :: s ++ NUL :: rest)
        with (out ++ (mid ++ [c]) ++ s ++ NUL :: rest)
        by (rewrite <- app_assoc; reflexivity).
      replace (S (length out + length mid)) with (length out + length (mid ++ [c]))%nat
        by (rewrite length_app; cbn [length]; lia).
      rewrite IH by (auto; lia). rewrite <- (app_assoc mid [c]). reflexivity.
Qed.

Lemma filter_no_NUL (f : ascii -> bool) (s : list ascii) :
  ~ In NUL s -> ~ In NUL (filter f s).
Proof. intros Hs H. apply filter_In in H. apply Hs, H. Qed.

Lemma filter_filter {A} (f : A -> bool) (l : list A) :
  filter f (filter f l) = filter f l.
Proof.
  induction l as [|x l IH]; [reflexivity|]. cbn [filter].
  destruct (f x) eqn:E; cbn [filter]; rewrite ?E, IH; reflexivity.
Qed.

Lemma skipn_past {A} (new : list A) (x : A) (tail : list A) :
  skipn (S (length new)) (new ++ x :: tail) = tail.
Proof. induction new as [|y new IH]; [reflexivity|exact IH]. Qed.

(** X16.  On a buffer that holds the string s (no NUL in s, then a NUL,
    then anything), Parse_number leaves the digits, dots and minus signs of
    s, in their order, followed by a NUL, and does not touch the buffer
    after that NUL; a second call changes nothing.  On a buffer without
    NUL it reads past the end. *)
Theorem Parse_number_filters (s rest : list ascii) :
  ~ In NUL s ->
  let buf := s ++ NUL :: rest in
  let kept := filter number_char s in
  let buf' := kept ++ NUL :: skipn (S (length kept)) buf in
  Parse_number buf = Some buf' /\
  length buf' = length buf /\
  Parse_number buf' = Some buf' /\
  Parse_number s = None.
Proof.
  intros Hs buf kept buf'.
  assert (Hrun : forall s0 rest0, ~ In NUL s0 ->
            Parse_number (s0 ++ NUL :: rest0)
            = Some (filter number_char s0 ++
                    NUL :: skipn (S (length (filter number_char s0)))
                             (s0 ++ NUL :: rest0))).
  { intros s0 rest0 H0. unfold Parse_number.
    apply (Parse_number_loop_filters s0 [] [] rest0); [exact H0|].
    rewrite length_app. cbn [length]. lia. }
  assert (Hlen : (length kept <= length s)%nat) by apply filter_length_le.
  assert (Hbuf : length buf' = length buf).
  { unfold buf', buf. rewrite !length_app. cbn [length].
    rewrite length_skipn, length_app. cbn [length]. lia. }
  repeat split.
  - apply Hrun, Hs.
  - exact Hbuf.
  - unfold buf', kept. rewrite Hrun by (apply filter_no_NUL, Hs).
    rewrite filter_filter. do 3 f_equal. apply skipn_past.
  - (* no terminator: the read index runs off the buffer *)
    clear -Hs. unfold Parse_number.
    assert (H : forall s0 out mid fuel, ~ In NUL s0 ->
              Parse_number_loop fuel (out ++ mid ++ s0)
                (length out + length mid) (length out) = None).
    { induction s0 as [|c s0 IH]; intros out mid fuel H0;
        (destruct fuel as [|fuel]; [reflexivity|]); cbn [Parse_number_loop].
      - rewrite app_nil_r, <- length_app.
        rewrite (proj2 (nth_error_None _ _)) by lia. reflexivity.
      - rewrite nth_error_unread.
        destruct (Ascii.eqb_spec c NUL) as [->|Hne];
          [exfalso; apply H0; left; reflexivity|].
        assert (H0' : ~ In NUL s0) by (intros H; apply H0; right; exact H).
        destruct (number_char c).
        + rewrite store_front by (destruct mid; discriminate).
          destruct (stale_shift mid c s0 0) as (mid' & Hl & Hmid & _).
          rewrite Hmid.
          replace (out ++ c :: mid' ++ s0) with ((out ++ [c]) ++ mid' ++ s0)
            by (rewrite <- app_assoc; reflexivity).
          replace (S (length out + length mid))
            with (length (out ++ [c]) + length mid')%nat
            by (rewrite length_app; cbn [length]; lia).
          replace (S (length out)) with (length (out ++ [c]))
            by (rewrite length_app; cbn [length]; lia).
          apply IH, H0'.
        + replace (out ++ mid ++ c :: s0) with (out ++ (mid ++ [c]) ++ s0)
            by (rewrite <- app_assoc; reflexivity).
          replace (S (length out + length mid))
            with (length out + length (mid ++ [c]))%nat
            by (rewrite length_app; cbn [length]; lia).
          apply IH, H0'. }
    apply (H s [] []), Hs.
Qed.

Lemma Parse_number_filters_witness :
  let s := [" "; "-"; "3"; "."; "5"; ","]%char in
  let buf := s ++ NUL :: ["x"%char] in
  let kept := filter number_char s in
  let buf' := kept ++ NUL :: skipn (S (length kept)) buf in
  Parse_number buf = Some buf' /\
  length buf' = length buf /\
  Parse_number buf' = Some buf' /\
  Parse_number s = None.
Proof.
  apply (Parse_number_filters [" "; "-"; "3"; "."; "5"; ","]%char ["x"%char]).
  cbn. intros H. repeat (destruct H as [H|H]; [discriminate H|]). exact H.
Defined.

(** The loop of Parse_text inside the quotes. *)
Lemma Parse_text_loop_inside (s : list ascii) :
  forall out mid rest fuel,
    ~ In NUL s -> (length s < fuel)%nat ->
    Parse_text_loop fuel (out ++ mid ++ s ++ NUL :: rest)
      (length out + length mid) (length out) true
    = Some (out ++ before_quote s ++
            NUL :: skipn (S (length (before_quote s))) (mid ++ s ++ NUL :: rest)).
Proof.
  induction s as [|c s IH]; intros out mid rest fuel Hs Hfuel;
    (destruct fuel as [|fuel]; [cbn [length] in Hfuel; lia|]);
    cbn [Parse_text_loop app]; rewrite nth_error_unread.
  - rewrite Ascii.eqb_refl. rewrite store_front by (destruct mid; discriminate).
    reflexivity.
  - destruct (Ascii.eqb_spec c NUL) as [->|Hne];
      [exfalso; apply Hs; left; reflexivity|].
    assert (Hs' : ~ In NUL s) by (intros H; apply Hs; right; exact H).
    cbn [length] in Hfuel. cbn [before_quote].
    destruct (Ascii.eqb c dquote).
    + rewrite store_front by (destruct mid; discriminate). reflexivity.
    + rewrite store_front by (destruct mid; discriminate).
      destruct (stale_shift mid c (s ++ NUL :: rest) (length (before_quote s)))
        as (mid' & Hlen & Hmid & Hskip).
      rewrite Hmid.
      replace (out ++ c :: mid' ++ s ++ NUL :: rest)
        with ((out ++ [c]) ++ mid' ++ s ++ NUL :: rest)
        by (rewrite <- app_assoc; reflexivity).
      replace (S (length out + length mid)) with (length (out ++ [c]) + length mid')%nat
        by (rewrite length_app; cbn [length]; lia).
      replace (S (length out)) with (length (out ++ [c]))
        by (rewrite length_app; cbn [length]; lia).
      rewrite IH by (auto; lia).
      rewrite <- app_assoc. cbn [app length]. rewrite Hskip. reflexivity.
Qed.

(** The loop of Parse_text before the first quote: nothing is written. *)
Lemma Parse_text_loop_outside (s : list ascii) :
  forall mid rest fuel,
    ~ In NUL s -> (length s < fuel)%nat ->
    Parse_text_loop fuel (mid ++ s ++ NUL :: rest) (length mid) 0 false
    = Some (before_quote (after_quote s) ++
            NUL :: skipn (S (length (before_quote (after_quote s))))
                     (mid ++ s ++ NUL :: rest)).
Proof.
  induction s as [|c s IH]; intros mid rest fuel Hs Hfuel;
    (destruct fuel as [|fuel]; [cbn [length] in Hfuel; lia|]);
    cbn [Parse_text_loop app];
    rewrite nth_error_mid.
  - rewrite Ascii.eqb_refl.
    rewrite (store_front [] (mid ++ NUL :: rest)) by (destruct mid; discriminate).
    reflexivity.
  - destruct (Ascii.eqb_spec c NUL) as [->|Hne];
      [exfalso; apply Hs; left; reflexivity|].
    assert (Hs' : ~ In NUL s) by (intros H; apply Hs; right; exact H).
    cbn [length] in Hfuel. cbn [after_quote].
    replace (mid ++ c :: s ++ NUL :: rest) with ((mid ++ [c]) ++ s ++ NUL :: rest)
      by (rewrite <- app_assoc; reflexivity).
    replace (S (length mid)) with (length (mid ++ [c]))
      by (rewrite length_app; cbn [length]; lia).
    destruct (Ascii.eqb c dquote).
    + apply (Parse_text_loop_inside s [] (mid ++ [c]) rest fuel Hs'). lia.
    + apply IH; [exact Hs'|lia].
Qed.

Lemma before_quote_clean (s : list ascii) :
  after_quote (before_quote s) = [] /\
  (~ In NUL s -> ~ In NUL (before_quote s)) /\
  ~ In dquote (before_quote s).
Proof.
  induction s as [|c s (IH1 & IH2 & IH3)]; cbn [before_quote after_quote].
  - repeat split; auto.
  - destruct (Ascii.eqb_spec c dquote) as [->|Hne]; cbn [after_quote].
    + repeat split; auto.
    + rewrite (proj2 (Ascii.eqb_neq c dquote) Hne). repeat split.
      * exact IH1.
      * intros Hs [H|H]; [apply Hs; left; exact H|].
        apply IH2; [|exact H]. intros H'. apply Hs. right. exact H'.
      * intros [H|H]; [congruence|contradiction].
Qed.

Lemma after_quote_no_NUL (s : list ascii) : ~ In NUL s -> ~ In NUL (after_quote s).
Proof.
  induction s as [|c s IH]; cbn [after_quote]; [auto|].
  intros Hs. destruct (Ascii.eqb c dquote).
  - intros H. apply Hs. right. exact H.
  - apply IH. intros H. apply Hs. right. exact H.
Qed.

(** X17.  On a buffer that holds the string s, Parse_text leaves the text
    between the first double quote of s and the next one (or the end of s),
    followed by a NUL, and does not touch the buffer after that NUL; the
    result has no double quote, and without a quote in s it is the empty
    string.  A second call therefore always leaves the empty string. *)
Theorem Parse_text_between_quotes (s rest : list ascii) :
  ~ In NUL s ->
  let buf := s ++ NUL :: rest in
  let quoted := before_quote (after_quote s) in
  let buf' := quoted ++ NUL :: skipn (S (length quoted)) buf in
  Parse_text buf = Some buf' /\
  ~ In dquote quoted /\
  (~ In dquote s -> quoted = []) /\
  Parse_text buf' = Some (NUL :: skipn 1 buf').
Proof.
  intros Hs buf quoted buf'.
  assert (Hrun : forall s0 rest0, ~ In NUL s0 ->
            Parse_text (s0 ++ NUL :: rest0)
            = Some (before_quote (after_quote s0) ++
                    NUL :: skipn (S (length (before_quote (after_quote s0))))
                             (s0 ++ NUL :: rest0))).
  { intros s0 rest0 H0. unfold Parse_text.
    apply (Parse_text_loop_outside s0 [] rest0); [exact H0|].
    rewrite length_app. cbn [length]. lia. }
  destruct (before_quote_clean (after_quote s)) as (Hclean & Hnul & Hquote).
  fold quoted in Hclean, Hnul, Hquote.
  repeat split.
  - apply Hrun, Hs.
  - exact Hquote.
  - intros Hno. unfold quoted.
    assert (H : forall l, ~ In dquote l -> after_quote l = []).
    { induction l as [|c l IH]; [reflexivity|]. intros Hl. cbn [after_quote].
      destruct (Ascii.eqb_spec c dquote) as [->|Hne];
        [exfalso; apply Hl; left; reflexivity|].
      apply IH. intros H. apply Hl. right. exact H. }
    rewrite (H s Hno). reflexivity.
  - unfold buf'. rewrite Hrun by (apply Hnul, after_quote_no_NUL, Hs).
    rewrite Hclean. reflexivity.
Qed.

Lemma Parse_text_between_quotes_witness :
  let s := [":"%char; dquote; "S"%char; "u"%char; "n"%char; dquote; ","%char] in
  let buf := s ++ NUL :: ["x"%char] in
  let quoted := before_quote (after_quote s) in
  let buf' := quoted ++ NUL :: skipn (S (length quoted)) buf in
  Parse_text buf = Some buf' /\
  ~ In dquote quoted /\
  (~ In dquote s -> quoted = []) /\
  Parse_text buf' = Some (NUL :: skipn 1 buf').
Proof.
  apply (Parse_text_between_quotes
           [":"%char; dquote; "S"%char; "u"%char; "n"%char; dquote; ","%char]
           ["x"%char]).
  cbn. intros H. repeat (destruct H as [H|H]; [discriminate H|]). exact H.
Defined.

(** * AHT20.c *)

(** X18.  The humidity word of AHT20_read is the upper 20 bits and the
    temperature word the lower 20 bits of the five bytes after the status
    byte, whatever the bytes: when the busy bit (bit 7 of the status byte)
    is clear, the humidity is computed from payload / 2^20 and the
    temperature from payload mod 2^20; when it is set, both outputs keep
    the values they had. *)
Theorem AHT20_read_decodes (b0 b1 b2 b3 b4 b5 : Z) (temp humid : float) :
  byte b0 -> byte b1 -> byte b2 -> byte b3 -> byte b4 -> byte b5 ->
  let payload := AHT20_payload b1 b2 b3 b4 b5 in
  AHT20_read b0 b1 b2 b3 b4 b5 temp humid
  = if b0 <? 128
    then (AHT20_temperature (payload mod 2 ^ 20), AHT20_humidity (payload / 2 ^ 20))
    else (temp, humid).
Proof.
  intros H0 H1 H2 H3 H4 H5 payload. unfold byte in *.
  unfold AHT20_read.
  assert (Hbusy : (Z.land b0 128 =? 0) = (b0 <? 128)).
  { apply Bool.eqb_prop.
    apply (zrange_forallb
             (fun b => Bool.eqb (Z.land b 128 =? 0) (b <? 128)) 0 256);
      [vm_compute; reflexivity|lia]. }
  rewrite Hbusy. destruct (b0 <? 128); [|reflexivity].
  assert (Hh : AHT20_humidity_data b1 b2 b3 = payload / 2 ^ 20).
  { unfold AHT20_humidity_data, wrap_u32, payload, AHT20_payload.
    rewrite Z.shiftr_div_pow2, !Z.shiftl_mul_pow2 by lia.
    change (2 ^ 4) with 16. change (2 ^ 12) with 4096. change (2 ^ 20) with 1048576.
    assert (0 <= b3 / 16 < 16) by (split; [apply Z.div_pos|apply Z.div_lt_upper_bound]; lia).
    rewrite (Z.mod_small (b2 * 16)), (Z.mod_small (b1 * 4096)) by lia.
    rewrite Z.mod_small by lia.
    apply (Z.div_unique _ _ _ ((b3 mod 16 * 256 + b4) * 256 + b5)).
    - pose proof (Z.mod_pos_bound b3 16 ltac:(lia)). lia.
    - pose proof (Z.div_mod b3 16 ltac:(lia)). lia. }
  assert (Ht : AHT20_temperature_data b3 b4 b5 = payload mod 2 ^ 20).
  { unfold AHT20_temperature_data, wrap_u32, payload, AHT20_payload.
    rewrite !Z.shiftl_mul_pow2 by lia.
    change 15 with (Z.ones 4). rewrite Z.land_ones by lia.
    change (2 ^ 4) with 16. change (2 ^ 16) with 65536. change (2 ^ 8) with 256.
    change (2 ^ 20) with 1048576.
    pose proof (Z.mod_pos_bound b3 16 ltac:(lia)).
    rewrite (Z.mod_small (b3 mod 16 * 65536)), (Z.mod_small (b4 * 256)) by lia.
    rewrite Z.mod_small by lia.
    apply (Z.mod_unique _ _ ((b1 * 256 + b2) * 16 + b3 / 16)).
    - lia.
    - pose proof (Z.div_mod b3 16 ltac:(lia)). lia. }
  rewrite Hh, Ht. reflexivity.
Qed.

Lemma AHT20_read_decodes_witness :
  let payload := AHT20_payload 128 0 5 153 154 in
  AHT20_read 28 128 0 5 153 154 float_zero float_zero
  = if 28 <? 128
    then (AHT20_temperature (payload mod 2 ^ 20), AHT20_humidity (payload / 2 ^ 20))
    else (float_zero, float_zero).
Proof.
  apply (AHT20_read_decodes 28 128 0 5 153 154 float_zero float_zero);
    unfold byte; lia.
Defined.

(** The ends of the two scales: the word 0 is 0 percent and -50 degrees,
    the largest 20-bit word stays below 100 percent and below 150 degrees,
    and the middle of the humidity scale is 50 percent exactly. *)
Example AHT20_scale_ends :
  AHT20_humidity 0 = float_zero /\
  AHT20_temperature 0 = float_of_int (-50) /\
  SFltb (AHT20_humidity 1048575) (float_of_int 100) = true /\
  SFltb (AHT20_temperature 1048575) (float_of_int 150) = true /\
  AHT20_humidity 524288 = float_of_int 50 /\
  AHT20_temperature 393216 = float_of_int 25.
Proof. vm_compute. repeat split. Qed.
